(** * Extended-JSON codec of the F Prime ground data system (json.js)

    A shallow embedding of [SaferParser] (static/js/json.js) together with the
    part of the ECMAScript host it calls: strings, the regular expressions of
    the mapping table, Number and BigInt conversions, [JSON.parse] and
    [JSON.stringify].  The host definitions follow ECMA-262; the definitions
    of module [SaferParser] follow json.js line by line.  Module [Loader]
    embeds the loader of the REST layer (static/js/loader.js), whose
    requests are decoded by the [JSON.parse] that json.js puts in place. *)

From Stdlib Require Import ZArith NArith List Bool Ascii String Lia.
From Stdlib Require Import Floats.SpecFloat.
From Equations Require Import Equations.

Set Warnings "-register-all".
Import ListNotations.

Local Open Scope Z_scope.

(** ** Strings of the host

    An ECMAScript string is a finite sequence of 16-bit code units; a code
    unit is kept as its number. *)

Definition code_unit := N.
Definition jsstring := list code_unit.

(** [js "text"] is the string whose code units are the characters of the
    literal. *)
Definition js (s : string) : jsstring :=
  map N_of_ascii (list_ascii_of_string s).

Definition unit_eqb (a b : code_unit) : bool := N.eqb a b.

Fixpoint jsstring_eqb (a b : jsstring) : bool :=
  match a, b with
  | [], [] => true
  | x :: a', y :: b' => unit_eqb x y && jsstring_eqb a' b'
  | _, _ => false
  end.

(** [s.length] *)
Definition jslength (s : jsstring) : Z := Z.of_nat (List.length s).

(** [strip_prefix p s] is what follows [p] when [s] starts with [p]. *)
Fixpoint strip_prefix (p s : jsstring) : option jsstring :=
  match p with
  | [] => Some s
  | c :: p' =>
      match s with
      | [] => None
      | d :: s' => if unit_eqb c d then strip_prefix p' s' else None
      end
  end.

(** [s.indexOf(p)] read from position [from]: the first index at which [p]
    occurs, or -1. *)
Fixpoint indexOf_from (from : Z) (s p : jsstring) : Z :=
  match strip_prefix p s with
  | Some _ => from
  | None =>
      match s with
      | [] => -1
      | _ :: s' => indexOf_from (from + 1) s' p
      end
  end.

Definition indexOf (s p : jsstring) : Z := indexOf_from 0 s p.

(** Positions given to [substring] are clamped to the string. *)
Definition clamp (len x : Z) : Z := Z.min (Z.max x 0) len.

(** [s.substring(start, end)]: both positions clamped, swapped when out of
    order. *)
Definition substring (s : jsstring) (start finish : Z) : jsstring :=
  let a := clamp (jslength s) start in
  let b := clamp (jslength s) finish in
  let lo := Z.min a b in
  let hi := Z.max a b in
  firstn (Z.to_nat (hi - lo)) (skipn (Z.to_nat lo) s).

(** [s.substring(start)] *)
Definition substring_from (s : jsstring) (start : Z) : jsstring :=
  substring s start (jslength s).

(** WhiteSpace and LineTerminator code units (ECMA-262 12.2, 12.3); this is
    also the class [\s] of regular expressions. *)
Definition is_white_space (c : code_unit) : bool :=
  match c with
  | 9%N | 10%N | 11%N | 12%N | 13%N | 32%N | 160%N
  | 5760%N | 8232%N | 8233%N | 8239%N | 8287%N | 12288%N | 65279%N => true
  | _ => (8192 <=? c)%N && (c <=? 8202)%N
  end.

Fixpoint trim_start (s : jsstring) : jsstring :=
  match s with
  | c :: s' => if is_white_space c then trim_start s' else s
  | [] => []
  end.

Definition trim_end (s : jsstring) : jsstring := rev (trim_start (rev s)).

(** [s.trim()] *)
Definition trim (s : jsstring) : jsstring := trim_end (trim_start s).

(** [s.split(sep)] for a separator of one code unit. *)
Fixpoint split_on (sep : code_unit) (s : jsstring) : list jsstring :=
  match s with
  | [] => [[]]
  | c :: s' =>
      if unit_eqb c sep then [] :: split_on sep s'
      else match split_on sep s' with
           | piece :: rest => (c :: piece) :: rest
           | [] => [[c]]
           end
  end.

Definition is_digit (c : code_unit) : bool := (48 <=? c)%N && (c <=? 57)%N.

Definition digit_value (c : code_unit) : Z := Z.of_N c - 48.

(** Longest prefix whose code units satisfy [cls], and what follows it. *)
Fixpoint span (cls : code_unit -> bool) (s : jsstring) : jsstring * jsstring :=
  match s with
  | c :: s' =>
      if cls c then let '(run, rest) := span cls s' in (c :: run, rest)
      else ([], s)
  | [] => ([], [])
  end.

Definition quote_mark : code_unit := 34%N.
Definition line_feed : code_unit := 10%N.

(** [jq "text"] is [js "text"] with every apostrophe read as a double
    quote, which is how JSON text is written down in this file. *)
Definition jq (s : string) : jsstring :=
  map (fun c => if N.eqb c 39%N then quote_mark else c) (js s).

(** ** Regular expressions of the host

    The expressions of json.js are sequences of literal characters, one
    optional character and greedy runs of a character class.  In each of them
    a run is followed by a character outside its class (or by nothing), so
    the backtracking matcher of the host can only succeed with the longest
    run: matching is done greedily, left to right. *)

Inductive regex :=
| Chars (s : jsstring)                           (* literal characters *)
| Opt (c : code_unit)                            (* c?                 *)
| Rep (cls : code_unit -> bool) (min : nat)      (* [cls]{min,}        *)
| Seq (r1 r2 : regex)                            (* r1 r2              *)
| Group (r : regex).                             (* ( r )              *)

Declare Scope regex_scope.
Delimit Scope regex_scope with regex.
Bind Scope regex_scope with regex.
Notation "r1 '>>' r2" := (Seq r1 r2) (at level 61, right associativity) : regex_scope.

(** A match of an expression at the start of a string: the text matched, the
    capture groups in the order of their opening parentheses, and the text
    that follows. *)
Fixpoint match_here (r : regex) (s : jsstring)
  : option (jsstring * list jsstring * jsstring) :=
  match r with
  | Chars p =>
      match strip_prefix p s with
      | Some rest => Some (p, [], rest)
      | None => None
      end
  | Opt c =>
      match s with
      | d :: s' => if unit_eqb c d then Some ([d], [], s') else Some ([], [], s)
      | [] => Some ([], [], s)
      end
  | Rep cls min =>
      let '(run, rest) := span cls s in
      if (min <=? List.length run)%nat then Some (run, [], rest) else None
  | Seq r1 r2 =>
      match match_here r1 s with
      | Some (m1, g1, rest1) =>
          match match_here r2 rest1 with
          | Some (m2, g2, rest2) => Some (m1 ++ m2, g1 ++ g2, rest2)
          | None => None
          end
      | None => None
      end
  | Group r' =>
      match match_here r' s with
      | Some (m, g, rest) => Some (m, m :: g, rest)
      | None => None
      end
  end.

(** The result of [RegExp.prototype.exec]: the leftmost match, with the text
    on both sides of it. *)
Record found := {
  before : jsstring;
  whole : jsstring;
  captures : list jsstring;
  after : jsstring
}.

Fixpoint exec (r : regex) (s : jsstring) : option found :=
  match match_here r s with
  | Some (m, g, rest) =>
      Some {| before := []; whole := m; captures := g; after := rest |}
  | None =>
      match s with
      | [] => None
      | c :: s' =>
          match exec r s' with
          | Some f =>
              Some {| before := c :: before f; whole := whole f;
                      captures := captures f; after := after f |}
          | None => None
          end
      end
  end.

(** [r.test(s)] *)
Definition test (r : regex) (s : jsstring) : bool :=
  match exec r s with Some _ => true | None => false end.

Definition dollar : code_unit := 36%N.
Definition ampersand : code_unit := 38%N.

(** Expansion of a replacement text (GetSubstitution): [$$], [$&] and [$1]
    to [$9]; the expressions of json.js have at most two groups, so a group
    reference has one digit. *)
Fixpoint substitute (template : jsstring) (f : found) : jsstring :=
  match template with
  | [] => []
  | c :: t' =>
      if unit_eqb c dollar then
        match t' with
        | d :: t'' =>
            if unit_eqb d dollar then dollar :: substitute t'' f
            else if unit_eqb d ampersand then whole f ++ substitute t'' f
            else if is_digit d && negb (unit_eqb d 48%N) then
              match nth_error (captures f) (Z.to_nat (digit_value d) - 1) with
              | Some g => g ++ substitute t'' f
              | None => c :: substitute t' f
              end
            else c :: substitute t' f
        | [] => [c]
        end
      else c :: substitute t' f
  end.

(** [s.replace(r, template)] for an expression without the global flag: the
    first match only. *)
Definition replace (s : jsstring) (r : regex) (template : jsstring) : jsstring :=
  match exec r s with
  | Some f => before f ++ substitute template f ++ after f
  | None => s
  end.

(** [s.replace(r, template)] for an expression with the global flag: every
    match, each search starting where the previous match ended (one code
    unit further after an empty match). *)
Fixpoint replace_global_loop (fuel : nat) (s : jsstring) (r : regex)
  (template : jsstring) : jsstring :=
  match fuel with
  | O => s
  | S fuel' =>
      match exec r s with
      | Some f =>
          before f ++ substitute template f ++
          match whole f, after f with
          | [], c :: s' => c :: replace_global_loop fuel' s' r template
          | [], [] => []
          | _ :: _, s' => replace_global_loop fuel' s' r template
          end
      | None => s
      end
  end.

Definition replace_global (s : jsstring) (r : regex) (template : jsstring) : jsstring :=
  replace_global_loop (S (List.length s)) s r template.

(** ** Numbers of the host

    A Number is an IEEE 754 binary64 value, kept as the [spec_float] of the
    standard library (53 bits of precision, exponents below 1024). *)

Definition number := spec_float.
Definition prec : Z := 53.
Definition emax : Z := 1024.

Definition NaN : number := S754_nan.
Definition Infinity : number := S754_infinity false.
Definition NegInfinity : number := S754_infinity true.

(** The Number value of an integer: the nearest binary64 value, ties to
    even. *)
Definition number_of_Z (z : Z) : number := binary_normalize prec emax z 0 false.

(** The Number value of the rational [p / q] ([0 <= p], [0 < q]) with sign
    [neg].  The quotient is taken with 56 bits or more and a sticky last bit,
    which [binary_normalize] then rounds to nearest, ties to even. *)
Definition number_of_ratio (neg : bool) (p q : Z) : number :=
  if p =? 0 then S754_zero neg
  else
    let shift := Z.max 0 (Z.log2 q - Z.log2 p + 56) in
    let n := p * 2 ^ shift in
    let sticky := if n mod q =? 0 then 0 else 1 in
    let m := 2 * (n / q) + sticky in
    binary_normalize prec emax (if neg then - m else m) (- shift - 1) neg.

(** The Number value of the decimal [m * 10 ^ e] ([0 <= m]) with sign [neg].
    A decimal of [d] digits is below [10 ^ (d + e)] and, unless zero, at
    least [10 ^ e]: beyond the exponents of binary64 the result is known
    without computing the power. *)
Definition number_of_decimal (neg : bool) (m e : Z) : number :=
  if m =? 0 then S754_zero neg
  else if 310 <? e then S754_infinity neg
  else if Z.log2 m + 1 + e <? -330 then S754_zero neg
  else if 0 <=? e then number_of_Z (if neg then - (m * 10 ^ e) else m * 10 ^ e)
  else number_of_ratio neg m (10 ^ (- e)).

(** Number::equal: NaN differs from everything, the two zeros are equal. *)
Definition number_eqb (x y : number) : bool := SFeqb x y.

(** ToIntegerOrInfinity followed by the clamping of a string position to
    [0 .. len]. *)
Definition to_position (len : Z) (x : number) : Z :=
  match x with
  | S754_nan => 0
  | S754_zero _ => 0
  | S754_infinity true => 0
  | S754_infinity false => len
  | S754_finite true _ _ => 0
  | S754_finite false m e =>
      clamp len (if 0 <=? e then Zpos m * 2 ^ e else Zpos m / 2 ^ (- e))
  end.

(** The integer a Number denotes, when it is an integer. *)
Definition integer_of_number (x : number) : option Z :=
  match x with
  | S754_zero _ => Some 0
  | S754_finite s m e =>
      let sign := if s then -1 else 1 in
      if 0 <=? e then Some (sign * (Zpos m * 2 ^ e))
      else if Zpos m mod 2 ^ (- e) =? 0 then Some (sign * (Zpos m / 2 ^ (- e)))
      else None
  | _ => None
  end.

(** *** Decimal digits *)

Definition digit_unit (d : Z) : code_unit := Z.to_N (48 + d).

Fixpoint decimal_loop (fuel : nat) (z : Z) (acc : jsstring) : jsstring :=
  match fuel with
  | O => acc
  | S fuel' =>
      let acc' := digit_unit (z mod 10) :: acc in
      if z <? 10 then acc' else decimal_loop fuel' (z / 10) acc'
  end.

(** The decimal digits of a natural number, most significant first. *)
Definition decimal (z : Z) : jsstring :=
  decimal_loop (S (Z.to_nat (Z.log2 z))) z [].

(** The value of a run of digits in base [radix], read from the left. *)
Definition digits_value (radix : Z) (value_of : code_unit -> Z) (s : jsstring) : Z :=
  fold_left (fun acc c => acc * radix + value_of c) s 0.

Definition decimal_value (s : jsstring) : Z := digits_value 10 digit_value s.

Definition is_hex_digit (c : code_unit) : bool :=
  is_digit c || ((65 <=? c)%N && (c <=? 70)%N) || ((97 <=? c)%N && (c <=? 102)%N).

Definition hex_digit_value (c : code_unit) : Z :=
  if is_digit c then Z.of_N c - 48
  else if (c <=? 70)%N then Z.of_N c - 55
  else Z.of_N c - 87.

Definition is_octal_digit (c : code_unit) : bool := (48 <=? c)%N && (c <=? 55)%N.
Definition is_binary_digit (c : code_unit) : bool := (48 <=? c)%N && (c <=? 49)%N.

(** *** Number::toString

    For a positive finite [x] the digits are those of the integer [s] of
    [k] digits such that [s * 10 ^ (n - k)] has Number value [x], with [k]
    as small as possible and, among those, the decimal closest to [x]. *)

(** [10 ^ n <= p / q] *)
Definition at_least_pow10 (p q n : Z) : bool :=
  if 0 <=? n then q * 10 ^ n <=? p else q <=? p * 10 ^ (- n).

Fixpoint magnitude_loop (fuel : nat) (p q n : Z) : Z :=
  match fuel with
  | O => n
  | S fuel' => if at_least_pow10 p q n then magnitude_loop fuel' p q (n + 1) else n
  end.

(** The [n] with [10 ^ (n - 1) <= p / q < 10 ^ n], searched upwards from an
    estimate drawn from the binary logarithms. *)
Definition magnitude (p q : Z) : Z :=
  magnitude_loop 8 p q ((Z.log2 p - Z.log2 q) * 30103 / 100000 - 2).

(** The candidates of [k] digits: the two multiples of [10 ^ (n - k)] around
    [p / q], the closer one first (the even one first when equally close). *)
Definition candidates (p q n k : Z) : list Z :=
  let scale := n - k in
  let lo := if 0 <=? scale then p / (q * 10 ^ scale) else p * 10 ^ (- scale) / q in
  let twice := if 0 <=? scale then 2 * p else 2 * p * 10 ^ (- scale) in
  let middle := if 0 <=? scale then (2 * lo + 1) * 10 ^ scale * q else (2 * lo + 1) * q in
  match twice ?= middle with
  | Lt => [lo; lo + 1]
  | Gt => [lo + 1; lo]
  | Eq => if Z.even lo then [lo; lo + 1] else [lo + 1; lo]
  end.

Definition represents (x : number) (n k s : Z) : bool :=
  (10 ^ (k - 1) <=? s) && (s <=? 10 ^ k) &&
  match x, number_of_decimal false s (n - k) with
  | S754_finite false m e, S754_finite false m' e' => Pos.eqb m m' && Z.eqb e e'
  | _, _ => false
  end.

Fixpoint shortest_loop (fuel : nat) (x : number) (p q n k : Z) : Z * Z * Z :=
  match fuel with
  | O => (n, k, 0)
  | S fuel' =>
      match filter (represents x n k) (candidates p q n k) with
      | s :: _ => if s =? 10 ^ k then (n + 1, k, 10 ^ (k - 1)) else (n, k, s)
      | [] => shortest_loop fuel' x p q n (k + 1)
      end
  end.

(** [(n, k, s)] for a positive finite Number of mantissa [m] and exponent
    [e]; seventeen digits always suffice for binary64. *)
Definition shortest (m : positive) (e : Z) : Z * Z * Z :=
  let p := if 0 <=? e then Zpos m * 2 ^ e else Zpos m in
  let q := if 0 <=? e then 1 else 2 ^ (- e) in
  shortest_loop 17 (S754_finite false m e) p q (magnitude p q) 1.

Definition zeros (n : Z) : jsstring := repeat 48%N (Z.to_nat n).

Definition format_number (n k s : Z) : jsstring :=
  let digits := decimal s in
  if (k <=? n) && (n <=? 21) then digits ++ zeros (n - k)
  else if (0 <? n) && (n <=? 21) then
    firstn (Z.to_nat n) digits ++ js "." ++ skipn (Z.to_nat n) digits
  else if (-6 <? n) && (n <=? 0) then js "0." ++ zeros (- n) ++ digits
  else
    let exponent := (if 0 <=? n - 1 then js "+" else js "-") ++ decimal (Z.abs (n - 1)) in
    if k =? 1 then digits ++ js "e" ++ exponent
    else firstn 1 digits ++ js "." ++ skipn 1 digits ++ js "e" ++ exponent.

(** [x.toString()] *)
Definition number_toString (x : number) : jsstring :=
  match x with
  | S754_nan => js "NaN"
  | S754_zero _ => js "0"
  | S754_infinity false => js "Infinity"
  | S754_infinity true => js "-Infinity"
  | S754_finite s m e =>
      let '(n, k, d) := shortest m e in
      (if s then js "-" else []) ++ format_number n k d
  end.

(** *** Numeric strings *)

(** [is_char "c" u]: the code unit [u] is the character [c]. *)
Definition is_char (c : ascii) (u : code_unit) : bool := N.eqb u (N_of_ascii c).
Arguments is_char c%_char u.

(** A leading sign: whether it is a minus, whether there is one, and what
    follows. *)
Definition split_sign (s : jsstring) : bool * bool * jsstring :=
  match s with
  | c :: r =>
      if is_char "-" c then (true, true, r)
      else if is_char "+" c then (false, true, r)
      else (false, false, s)
  | [] => (false, false, [])
  end.

(** [Number.parseInt(s)] without a radix: after leading white space, a sign
    and an optional [0x], the longest run of digits; NaN when there is
    none.  (Beyond twenty significant digits the host may approximate; the
    exact integer is rounded here.) *)
Definition parseInt (s : jsstring) : number :=
  let '(neg, _, s1) := split_sign (trim_start s) in
  let hex :=
    match s1 with
    | z :: x :: r => if is_char "0" z && (is_char "x" x || is_char "X" x) then Some r else None
    | _ => None
    end in
  let '(digits, v) :=
    match hex with
    | Some r =>
        let run := fst (span is_hex_digit r) in
        (run, digits_value 16 hex_digit_value run)
    | None =>
        let run := fst (span is_digit s1) in
        (run, decimal_value run)
    end in
  match digits with
  | [] => NaN
  | _ => if v =? 0 then S754_zero neg else number_of_Z (if neg then - v else v)
  end.

(** ExponentPart after its [e]: a signed run of digits up to the end. *)
Definition exponent_part (s : jsstring) : option Z :=
  let '(neg, _, r) := split_sign s in
  match span is_digit r with
  | ((_ :: _) as ds, []) => Some (if neg then - decimal_value ds else decimal_value ds)
  | _ => None
  end.

(** StrUnsignedDecimalLiteral other than Infinity, up to the end of the
    string: its digits as an integer and its decimal exponent. *)
Definition unsigned_decimal (s : jsstring) : option (Z * Z) :=
  let '(int_part, r1) := span is_digit s in
  let '(frac_part, r2) :=
    match r1 with
    | c :: r => if is_char "." c then span is_digit r else ([], r1)
    | [] => ([], [])
    end in
  let m := decimal_value (int_part ++ frac_part) in
  let scale := - Z.of_nat (List.length frac_part) in
  match int_part ++ frac_part with
  | [] => None
  | _ =>
      match r2 with
      | [] => Some (m, scale)
      | c :: r =>
          if is_char "e" c || is_char "E" c then
            match exponent_part r with
            | Some x => Some (m, x + scale)
            | None => None
            end
          else None
      end
  end.

(** NonDecimalIntegerLiteral up to the end of the string. *)
Definition non_decimal (s : jsstring) : option Z :=
  match s with
  | z :: x :: ((_ :: _) as r) =>
      if negb (is_char "0" z) then None
      else if is_char "x" x || is_char "X" x then
        if forallb is_hex_digit r then Some (digits_value 16 hex_digit_value r) else None
      else if is_char "o" x || is_char "O" x then
        if forallb is_octal_digit r then Some (digits_value 8 digit_value r) else None
      else if is_char "b" x || is_char "B" x then
        if forallb is_binary_digit r then Some (digits_value 2 digit_value r) else None
      else None
  | _ => None
  end.

(** StringToNumber: the Number a string denotes, NaN when it denotes none. *)
Definition StringToNumber (s : jsstring) : number :=
  let t := trim s in
  match t with
  | [] => S754_zero false
  | _ =>
      let '(neg, signed, body) := split_sign t in
      if jsstring_eqb body (js "Infinity") then S754_infinity neg
      else
        match unsigned_decimal body with
        | Some (m, e) => number_of_decimal neg m e
        | None =>
            if signed then NaN
            else match non_decimal t with
                 | Some v => number_of_Z v
                 | None => NaN
                 end
        end
  end.

(** StringToBigInt: the integer a string denotes, if any. *)
Definition StringToBigInt (s : jsstring) : option Z :=
  let t := trim s in
  match t with
  | [] => Some 0
  | _ =>
      let '(neg, signed, body) := split_sign t in
      match body with
      | _ :: _ =>
          if forallb is_digit body then
            Some (if neg then - decimal_value body else decimal_value body)
          else if signed then None
          else non_decimal t
      | [] => None
      end
  end.

(** BigInt::toString *)
Definition bigint_toString (z : Z) : jsstring :=
  if z <? 0 then js "-" ++ decimal (- z) else decimal z.

(** ** Values of the host

    The values that JSON text denotes and that a caller hands to the
    encoder: primitives, arrays and plain objects.  The properties of an
    object are listed in the order in which the host enumerates them. *)

Inductive jsvalue :=
| VUndefined
| VNull
| VBool (b : bool)
| VNumber (x : number)
| VBigInt (z : Z)
| VString (s : jsstring)
| VArray (elements : list jsvalue)
| VObject (properties : list (jsstring * jsvalue)).

(** [typeof v] *)
Definition typeof (v : jsvalue) : jsstring :=
  match v with
  | VUndefined => js "undefined"
  | VNull => js "object"
  | VBool _ => js "boolean"
  | VNumber _ => js "number"
  | VBigInt _ => js "bigint"
  | VString _ => js "string"
  | VArray _ => js "object"
  | VObject _ => js "object"
  end.

Definition is_object (v : jsvalue) : bool :=
  match v with
  | VArray _ | VObject _ => true
  | _ => false
  end.

Fixpoint join (sep : jsstring) (pieces : list jsstring) : jsstring :=
  match pieces with
  | [] => []
  | [p] => p
  | p :: rest => p ++ sep ++ join sep rest
  end.

(** ToString; an array is joined with commas (undefined and null elements
    give the empty string), a plain object gives [[object Object]]. *)
Fixpoint to_string (v : jsvalue) : jsstring :=
  match v with
  | VUndefined => js "undefined"
  | VNull => js "null"
  | VBool true => js "true"
  | VBool false => js "false"
  | VNumber x => number_toString x
  | VBigInt z => bigint_toString z
  | VString s => s
  | VArray elements =>
      join (js ",")
        ((fix each (l : list jsvalue) : list jsstring :=
            match l with
            | [] => []
            | VUndefined :: l' => [] :: each l'
            | VNull :: l' => [] :: each l'
            | e :: l' => to_string e :: each l'
            end) elements)
  | VObject _ => js "[object Object]"
  end.

(** ToBoolean *)
Definition truthy (v : jsvalue) : bool :=
  match v with
  | VUndefined | VNull => false
  | VBool b => b
  | VNumber (S754_zero _) | VNumber S754_nan => false
  | VNumber _ => true
  | VBigInt z => negb (z =? 0)
  | VString s => match s with [] => false | _ => true end
  | VArray _ | VObject _ => true
  end.

(** IsStrictlyEqual.  Two objects are equal when they are one object; the
    values compared in json.js are never both objects, and the embedding
    answers [false] for such a pair. *)
Definition strict_eq (x y : jsvalue) : bool :=
  match x, y with
  | VUndefined, VUndefined => true
  | VNull, VNull => true
  | VBool a, VBool b => Bool.eqb a b
  | VNumber a, VNumber b => number_eqb a b
  | VBigInt a, VBigInt b => a =? b
  | VString a, VString b => jsstring_eqb a b
  | _, _ => false
  end.

(** IsLooselyEqual on values that are neither Boolean nor objects. *)
Definition loose_eq_primitive (x y : jsvalue) : bool :=
  match x, y with
  | (VUndefined | VNull), (VUndefined | VNull) => true
  | VNumber a, VString b => number_eqb a (StringToNumber b)
  | VString a, VNumber b => number_eqb (StringToNumber a) b
  | VBigInt a, VString b =>
      match StringToBigInt b with Some n => a =? n | None => false end
  | VString a, VBigInt b =>
      match StringToBigInt a with Some n => n =? b | None => false end
  | VBigInt a, VNumber b =>
      match integer_of_number b with Some n => a =? n | None => false end
  | VNumber a, VBigInt b =>
      match integer_of_number a with Some n => n =? b | None => false end
  | _, _ => strict_eq x y
  end.

(** Own property lookup, [o[key]] on a plain object. *)
Fixpoint lookup (key : jsstring) (properties : list (jsstring * jsvalue)) : option jsvalue :=
  match properties with
  | [] => None
  | (k, v) :: rest => if jsstring_eqb k key then Some v else lookup key rest
  end.

(** ** Exceptions and results *)

Inductive error :=
| SyntaxError (message : jsstring)
| TypeError (message : jsstring)
| RangeError (message : jsstring).

(** [e.toString()] *)
Definition error_toString (e : error) : jsstring :=
  let show name message :=
    match message with
    | [] => name
    | _ => name ++ js ": " ++ message
    end in
  match e with
  | SyntaxError m => show (js "SyntaxError") m
  | TypeError m => show (js "TypeError") m
  | RangeError m => show (js "RangeError") m
  end.

Inductive result (A : Type) :=
| Ok (a : A)
| Throw (e : error).
Arguments Ok {A} a.
Arguments Throw {A} e.

Definition bind {A B} (r : result A) (k : A -> result B) : result B :=
  match r with
  | Ok a => k a
  | Throw e => Throw e
  end.

Notation "x <- r ;; k" := (bind r (fun x => k))
  (at level 100, r at next level, right associativity).

(** [try { body } catch (e) { handler }] *)
Definition try_catch {A} (body : result A) (handler : error -> result A) : result A :=
  match body with
  | Ok a => Ok a
  | Throw e => handler e
  end.

(** A JavaScript function of a key and a value, as the revivers and
    replacers are. *)
Definition callback := jsstring -> jsvalue -> result jsvalue.

(** An argument that is either such a function or a plain value
    ([undefined] when it is left out). *)
Inductive argument :=
| Callable (f : callback)
| Data (v : jsvalue).

Definition absent : argument := Data VUndefined.

(** What the host leaves open: the frames its stack holds, and the message
    of the SyntaxError its [JSON.parse] raises for a text it rejects at a
    given offset.  The other messages are given in the wording of V8. *)
Record engine := {
  stack_depth : nat;
  syntax_text : jsstring -> Z -> jsstring
}.

Definition stack_overflow : error :=
  RangeError (js "Maximum call stack size exceeded").

Definition not_a_function (name : jsstring) : error :=
  TypeError (name ++ js " is not a function").

Definition cannot_read (holder property : jsstring) : error :=
  TypeError (js "Cannot read properties of " ++ holder ++ js " (reading '" ++ property ++ js "')").

(** ** Conversion of objects to primitives

    ToPrimitive on an array or a plain object (OrdinaryToPrimitive, ECMA-262
    7.1.1.1): the method [valueOf] of the prototype answers the object
    itself, so the conversion goes on to [toString].  An own property
    [toString] of a plain object hides the method of the prototype; no value
    of [jsvalue] can be called, so the conversion of such an object ends with
    a TypeError.  The method of an array joins the conversions of its
    elements, [undefined] and [null] left out.  [to_string] is the text when
    the conversion completes. *)
Fixpoint converts (v : jsvalue) : bool :=
  match v with
  | VArray elements => forallb converts elements
  | VObject properties =>
      match lookup (js "toString") properties with
      | Some _ => false
      | None => true
      end
  | _ => true
  end.

Definition cannot_convert : error :=
  TypeError (js "Cannot convert object to primitive value").

(** ToString *)
Definition ToString (v : jsvalue) : result jsstring :=
  if converts v then Ok (to_string v) else Throw cannot_convert.

(** IsLooselyEqual, the operator [==]: a Boolean is compared as the Number
    1 or 0, an object as the string it converts to (ToPrimitive), unless the
    other side is undefined or null.  Two objects are equal when they are
    one object; the embedding answers [false] for such a pair. *)
Definition IsLooselyEqual (x y : jsvalue) : result bool :=
  let unbool v :=
    match v with
    | VBool b => VNumber (number_of_Z (if b then 1 else 0))
    | _ => v
    end in
  let x := unbool x in
  let y := unbool y in
  match is_object x, is_object y with
  | true, true => Ok false
  | true, false =>
      match y with
      | VUndefined | VNull => Ok false
      | _ => primitive <- ToString x ;; Ok (loose_eq_primitive (VString primitive) y)
      end
  | false, true =>
      match x with
      | VUndefined | VNull => Ok false
      | _ => primitive <- ToString y ;; Ok (loose_eq_primitive x (VString primitive))
      end
  | false, false => Ok (loose_eq_primitive x y)
  end.

(** [x == y] evaluates to [true]. *)
Definition loose_eq (x y : jsvalue) : bool :=
  match IsLooselyEqual x y with
  | Ok answer => answer
  | Throw _ => false
  end.

(** [BigInt(s)] for a string *)
Definition BigInt (s : jsstring) : result jsvalue :=
  match StringToBigInt s with
  | Some z => Ok (VBigInt z)
  | None => Throw (SyntaxError (js "Cannot convert " ++ s ++ js " to a BigInt"))
  end.

(** ** JSON.parse of the host (ECMA-262 25.5.1, ECMA-404) *)

(** The outcome of reading a piece of JSON text: what was read and the text
    that follows; the text at which reading was given up; or recursion
    deeper than the fuel allows. *)
Inductive parsed (A : Type) :=
| Parsed (a : A) (rest : jsstring)
| Rejected (at_text : jsstring)
| Exhausted.
Arguments Parsed {A} a rest.
Arguments Rejected {A} at_text.
Arguments Exhausted {A}.

Definition parsed_map {A B} (f : A -> B) (p : parsed A) : parsed B :=
  match p with
  | Parsed a rest => Parsed (f a) rest
  | Rejected t => Rejected t
  | Exhausted => Exhausted
  end.

Definition is_json_space (c : code_unit) : bool :=
  match c with
  | 9%N | 10%N | 13%N | 32%N => true
  | _ => false
  end.

Fixpoint skip_space (s : jsstring) : jsstring :=
  match s with
  | c :: r => if is_json_space c then skip_space r else s
  | [] => []
  end.

(** The code unit an escape letter stands for. *)
Definition escape_unit (c : code_unit) : option code_unit :=
  if unit_eqb c quote_mark then Some quote_mark
  else if is_char "\" c then Some 92%N
  else if is_char "/" c then Some 47%N
  else if is_char "b" c then Some 8%N
  else if is_char "f" c then Some 12%N
  else if is_char "n" c then Some 10%N
  else if is_char "r" c then Some 13%N
  else if is_char "t" c then Some 9%N
  else None.

(** The characters of a JSON string after its opening quote, up to the
    closing quote. *)
Fixpoint string_body (s : jsstring) : parsed jsstring :=
  match s with
  | [] => Rejected []
  | c :: r =>
      if unit_eqb c quote_mark then Parsed [] r
      else if is_char "\" c then
        match r with
        | e :: r' =>
            if is_char "u" e then
              match r' with
              | h1 :: h2 :: h3 :: h4 :: r'' =>
                  if forallb is_hex_digit [h1; h2; h3; h4] then
                    parsed_map
                      (cons (Z.to_N (digits_value 16 hex_digit_value [h1; h2; h3; h4])))
                      (string_body r'')
                  else Rejected r'
              | _ => Rejected r'
              end
            else
              match escape_unit e with
              | Some u => parsed_map (cons u) (string_body r')
              | None => Rejected r
              end
        | [] => Rejected []
        end
      else if (c <? 32)%N then Rejected s
      else parsed_map (cons c) (string_body r)
  end.

(** A JSON number: an optional minus, an integer part without superfluous
    zeros, an optional fraction and an optional exponent. *)
Definition json_number (s : jsstring) : parsed number :=
  let '(neg, s1) :=
    match s with
    | c :: r => if is_char "-" c then (true, r) else (false, s)
    | [] => (false, s)
    end in
  let '(int_part, r1) :=
    match s1 with
    | c :: r => if is_char "0" c then ([c], r) else span is_digit s1
    | [] => ([], [])
    end in
  match int_part with
  | [] => Rejected s1
  | _ =>
      let fraction :=
        match r1 with
        | c :: r =>
            if is_char "." c then
              match span is_digit r with
              | ([], _) => None
              | (frac_part, r2) => Some (frac_part, r2)
              end
            else Some ([], r1)
        | [] => Some ([], [])
        end in
      match fraction with
      | None => Rejected (tl r1)
      | Some (frac_part, r2) =>
          let m := decimal_value (int_part ++ frac_part) in
          let scale := - Z.of_nat (List.length frac_part) in
          let plain := Parsed (number_of_decimal neg m scale) r2 in
          match r2 with
          | c :: r =>
              if is_char "e" c || is_char "E" c then
                let '(eneg, _, r3) := split_sign r in
                match span is_digit r3 with
                | ([], _) => Rejected r3
                | (ds, r4) =>
                    let x := if eneg then - decimal_value ds else decimal_value ds in
                    Parsed (number_of_decimal neg m (x + scale)) r4
                end
              else plain
          | [] => plain
          end
      end
  end.

(** *** Properties of a parsed object

    A property name that is an array index (the decimal numeral of an
    integer below 2^32 - 1) is enumerated before the other names, in
    increasing order; the other names keep the order of their creation.
    Setting a name that exists keeps its place. *)

Definition array_index (k : jsstring) : option Z :=
  match k with
  | [] => None
  | _ =>
      if forallb is_digit k && jsstring_eqb (decimal (decimal_value k)) k
         && (decimal_value k <=? 4294967294)
      then Some (decimal_value k) else None
  end.

Fixpoint has_property (k : jsstring) (props : list (jsstring * jsvalue)) : bool :=
  match props with
  | [] => false
  | (k', _) :: rest => jsstring_eqb k' k || has_property k rest
  end.

Fixpoint overwrite (k : jsstring) (v : jsvalue) (props : list (jsstring * jsvalue))
  : list (jsstring * jsvalue) :=
  match props with
  | [] => []
  | (k', v') :: rest =>
      if jsstring_eqb k' k then (k', v) :: rest else (k', v') :: overwrite k v rest
  end.

Fixpoint insert_index (i : Z) (k : jsstring) (v : jsvalue) (props : list (jsstring * jsvalue))
  : list (jsstring * jsvalue) :=
  match props with
  | [] => [(k, v)]
  | (k', v') :: rest =>
      match array_index k' with
      | Some j => if j <? i then (k', v') :: insert_index i k v rest
                  else (k, v) :: props
      | None => (k, v) :: props
      end
  end.

(** CreateDataProperty on a plain object. *)
Definition set_property (k : jsstring) (v : jsvalue) (props : list (jsstring * jsvalue))
  : list (jsstring * jsvalue) :=
  if has_property k props then overwrite k v props
  else match array_index k with
       | Some i => insert_index i k v props
       | None => props ++ [(k, v)]
       end.

(** *** The grammar *)

Definition keyword (s : jsstring) : parsed jsvalue :=
  match strip_prefix (js "true") s with
  | Some r => Parsed (VBool true) r
  | None =>
      match strip_prefix (js "false") s with
      | Some r => Parsed (VBool false) r
      | None =>
          match strip_prefix (js "null") s with
          | Some r => Parsed VNull r
          | None => Rejected s
          end
      end
  end.

Fixpoint json_value (fuel : nat) (s : jsstring) : parsed jsvalue :=
  match fuel with
  | O => Exhausted
  | S fuel' =>
      match skip_space s with
      | [] => Rejected []
      | c :: r =>
          if is_char "{" c then
            match skip_space r with
            | d :: r' =>
                if is_char "}" d then Parsed (VObject []) r'
                else json_members fuel' (d :: r') []
            | [] => Rejected []
            end
          else if is_char "[" c then
            match skip_space r with
            | d :: r' =>
                if is_char "]" d then Parsed (VArray []) r'
                else json_elements fuel' (d :: r') []
            | [] => Rejected []
            end
          else if unit_eqb c quote_mark then parsed_map VString (string_body r)
          else if is_char "-" c || is_digit c then parsed_map VNumber (json_number (c :: r))
          else keyword (c :: r)
      end
  end

with json_elements (fuel : nat) (s : jsstring) (done : list jsvalue) : parsed jsvalue :=
  match fuel with
  | O => Exhausted
  | S fuel' =>
      match json_value fuel' s with
      | Parsed v r =>
          match skip_space r with
          | d :: r' =>
              if is_char "," d then json_elements fuel' r' (v :: done)
              else if is_char "]" d then Parsed (VArray (rev (v :: done))) r'
              else Rejected (d :: r')
          | [] => Rejected []
          end
      | Rejected t => Rejected t
      | Exhausted => Exhausted
      end
  end

with json_members (fuel : nat) (s : jsstring) (done : list (jsstring * jsvalue))
  : parsed jsvalue :=
  match fuel with
  | O => Exhausted
  | S fuel' =>
      match skip_space s with
      | q :: r =>
          if unit_eqb q quote_mark then
            match string_body r with
            | Parsed k r1 =>
                match skip_space r1 with
                | colon :: r2 =>
                    if is_char ":" colon then
                      match json_value fuel' r2 with
                      | Parsed v r3 =>
                          match skip_space r3 with
                          | d :: r4 =>
                              if is_char "," d then
                                json_members fuel' r4 (set_property k v done)
                              else if is_char "}" d then
                                Parsed (VObject (set_property k v done)) r4
                              else Rejected (d :: r4)
                          | [] => Rejected []
                          end
                      | Rejected t => Rejected t
                      | Exhausted => Exhausted
                      end
                    else Rejected (colon :: r2)
                | [] => Rejected []
                end
            | Rejected t => Rejected t
            | Exhausted => Exhausted
            end
          else Rejected (q :: r)
      | [] => Rejected []
      end
  end.

(** A whole JSON text: one value between optional white space.  A value
    nests no deeper than its text is long, which bounds the fuel. *)
Definition json_text (text : jsstring) : parsed jsvalue :=
  match json_value (2 * List.length text + 2) text with
  | Parsed v r =>
      match skip_space r with
      | [] => Parsed v []
      | r' => Rejected r'
      end
  | Rejected t => Rejected t
  | Exhausted => Exhausted
  end.

(** InternalizeJSONProperty: the reviver is applied to the elements of an
    array and the properties of an object, then to the value that holds
    them; a property revived to [undefined] is deleted. *)
Fixpoint internalize (reviver : callback) (name : jsstring) (val : jsvalue) : result jsvalue :=
  match val with
  | VArray elements =>
      elements' <-
        (fix each (i : Z) (l : list jsvalue) : result (list jsvalue) :=
           match l with
           | [] => Ok []
           | e :: l' =>
               e' <- internalize reviver (decimal i) e ;;
               rest <- each (i + 1) l' ;;
               Ok (e' :: rest)
           end) 0 elements ;;
      reviver name (VArray elements')
  | VObject properties =>
      properties' <-
        (fix each (l : list (jsstring * jsvalue)) : result (list (jsstring * jsvalue)) :=
           match l with
           | [] => Ok []
           | (k, e) :: l' =>
               e' <- internalize reviver k e ;;
               rest <- each l' ;;
               Ok (match e' with
                   | VUndefined => rest
                   | _ => (k, e') :: rest
                   end)
           end) properties ;;
      reviver name (VObject properties')
  | _ => reviver name val
  end.

(** [JSON.parse(text, reviver)] with a function for reviver. *)
Definition JSON_parse (E : engine) (text : jsstring) (reviver : callback)
  : result jsvalue :=
  match json_text text with
  | Parsed v _ => internalize reviver [] v
  | Rejected t => Throw (SyntaxError (syntax_text E text (jslength text - jslength t)))
  | Exhausted => Throw stack_overflow
  end.

(** ** JSON.stringify of the host (ECMA-262 25.5.2) *)

Definition hex_unit (d : Z) : code_unit :=
  Z.to_N (if d <? 10 then 48 + d else 87 + d).

(** UnicodeEscape: a backslash, [u] and four lower-case hexadecimal
    digits. *)
Definition unicode_escape (c : code_unit) : jsstring :=
  let z := Z.of_N c in
  js "\u" ++ [hex_unit (z / 4096 mod 16); hex_unit (z / 256 mod 16);
              hex_unit (z / 16 mod 16); hex_unit (z mod 16)].

Definition is_leading_surrogate (c : code_unit) : bool := (55296 <=? c)%N && (c <=? 56319)%N.
Definition is_trailing_surrogate (c : code_unit) : bool := (56320 <=? c)%N && (c <=? 57343)%N.

Definition backslash : code_unit := 92%N.

Fixpoint quote_units (s : jsstring) : jsstring :=
  match s with
  | [] => []
  | c :: r =>
      if unit_eqb c 8%N then js "\b" ++ quote_units r
      else if unit_eqb c 9%N then js "\t" ++ quote_units r
      else if unit_eqb c 10%N then js "\n" ++ quote_units r
      else if unit_eqb c 12%N then js "\f" ++ quote_units r
      else if unit_eqb c 13%N then js "\r" ++ quote_units r
      else if unit_eqb c quote_mark then backslash :: quote_mark :: quote_units r
      else if unit_eqb c backslash then backslash :: backslash :: quote_units r
      else if (c <? 32)%N then unicode_escape c ++ quote_units r
      else if is_leading_surrogate c then
        match r with
        | d :: r' =>
            if is_trailing_surrogate d then c :: d :: quote_units r'
            else unicode_escape c ++ quote_units r
        | [] => unicode_escape c
        end
      else if is_trailing_surrogate c then unicode_escape c ++ quote_units r
      else c :: quote_units r
  end.

(** QuoteJSONString *)
Definition QuoteJSONString (s : jsstring) : jsstring :=
  quote_mark :: quote_units s ++ [quote_mark].

(** The text of an array or object from the texts of its parts. *)
Definition enclose (opening closing : jsstring) (parts : list jsstring)
  (gap stepback indent : jsstring) : jsstring :=
  match parts with
  | [] => opening ++ closing
  | _ =>
      match gap with
      | [] => opening ++ join (js ",") parts ++ closing
      | _ =>
          opening ++ [line_feed] ++ indent
          ++ join (js "," ++ [line_feed] ++ indent) parts
          ++ [line_feed] ++ stepback ++ closing
      end
  end.

(** SerializeJSONProperty with a replacer function: the replacer sees the
    key and the value first; what it returns is serialized, its elements
    and properties going through the replacer in turn.  [undefined] yields
    no text.  Each level of nesting takes one frame of the stack. *)
Fixpoint serialize (depth : nat) (replacer : callback) (gap indent : jsstring)
  (key : jsstring) (held : jsvalue) : result (option jsstring) :=
  match depth with
  | O => Throw stack_overflow
  | S depth' =>
      v <- replacer key held ;;
      match v with
      | VUndefined => Ok None
      | VNull => Ok (Some (js "null"))
      | VBool true => Ok (Some (js "true"))
      | VBool false => Ok (Some (js "false"))
      | VString s => Ok (Some (QuoteJSONString s))
      | VNumber x =>
          Ok (Some match x with
                   | S754_zero _ | S754_finite _ _ _ => number_toString x
                   | _ => js "null"
                   end)
      | VBigInt _ => Throw (TypeError (js "Do not know how to serialize a BigInt"))
      | VArray elements =>
          let inner := indent ++ gap in
          parts <-
            (fix each (i : Z) (l : list jsvalue) : result (list jsstring) :=
               match l with
               | [] => Ok []
               | e :: l' =>
                   p <- serialize depth' replacer gap inner (decimal i) e ;;
                   rest <- each (i + 1) l' ;;
                   Ok (match p with Some t => t | None => js "null" end :: rest)
               end) 0 elements ;;
          Ok (Some (enclose (js "[") (js "]") parts gap indent inner))
      | VObject properties =>
          let inner := indent ++ gap in
          parts <-
            (fix each (l : list (jsstring * jsvalue)) : result (list jsstring) :=
               match l with
               | [] => Ok []
               | (k, e) :: l' =>
                   p <- serialize depth' replacer gap inner k e ;;
                   rest <- each l' ;;
                   Ok (match p with
                       | Some t =>
                           (QuoteJSONString k ++ js ":"
                            ++ match gap with [] => [] | _ => js " " end ++ t) :: rest
                       | None => rest
                       end)
               end) properties ;;
          Ok (Some (enclose (js "{") (js "}") parts gap indent inner))
      end
  end.

(** The indentation unit drawn from the [space] argument: up to ten spaces
    for a Number, up to ten code units of a String, nothing otherwise. *)
Definition gap_of (space : jsvalue) : jsstring :=
  match space with
  | VNumber x => repeat 32%N (Z.to_nat (to_position 10 x))
  | VString s => firstn 10 s
  | _ => []
  end.

(** [JSON.stringify(data, replacer, space)] with a function for replacer:
    a String, or [undefined] when the value yields no text. *)
Definition JSON_stringify (E : engine) (data : jsvalue) (replacer : callback)
  (space : jsvalue) : result jsvalue :=
  text <- serialize (stack_depth E) replacer (gap_of space) [] [] data ;;
  Ok (match text with Some t => VString t | None => VUndefined end).

(** * json.js *)

(** Helper to determine if value is a string. *)
Definition isString (value : jsvalue) : bool :=
  match value with
  | VString _ => true
  | _ => false
  end.

(** Helper to determine if value is a function. *)
Definition isFunction (value : argument) : bool :=
  match value with
  | Callable _ => true
  | Data _ => false
  end.

(** [Array.isArray] *)
Definition isArray (value : argument) : bool :=
  match value with
  | Data (VArray _) => true
  | _ => false
  end.

(** [f(key, value)] *)
Definition call (name : jsstring) (f : argument) (key : jsstring) (value : jsvalue)
  : result jsvalue :=
  match f with
  | Callable g => g key value
  | Data _ => Throw (not_a_function name)
  end.

(** [list.indexOf(key) === -1] for a string [key]: no element is strictly
    equal to it. *)
Definition indexOf_is_minus_one (list : argument) (key : jsstring) : bool :=
  match list with
  | Data (VArray elements) => negb (existsb (strict_eq (VString key)) elements)
  | _ => true
  end.

(** [value[name]] for a name that is neither an index nor [length]. *)
Definition get (value : jsvalue) (name : jsstring) : result jsvalue :=
  match value with
  | VUndefined => Throw (cannot_read (js "undefined") name)
  | VNull => Throw (cannot_read (js "null") name)
  | VObject properties =>
      Ok (match lookup name properties with Some v => v | None => VUndefined end)
  | _ => Ok VUndefined
  end.

(** Conversion function for converting from string to BigInt or Number
    depending on size. *)
Definition convertInt (string_value : jsvalue) : result jsvalue :=
  match string_value with
  | VString s =>
      let string_value := trim s in
      let number_value := parseInt string_value in
      (* When the big and normal numbers match, then return the normal number *)
      if loose_eq (VString string_value) (VString (number_toString number_value))
      then Ok (VNumber number_value)
      else BigInt string_value
  | VUndefined => Throw (cannot_read (js "undefined") (js "trim"))
  | VNull => Throw (cannot_read (js "null") (js "trim"))
  | _ => Throw (not_a_function (js "string_value.trim"))
  end.

Module SaferParser.

(** States representing QUOTED or UNQUOTED text. *)
Definition UNQUOTED : Z := 0.
Definition QUOTED : Z := 1.

(** A mapping tuple: string match, replacement type, and conversion
    function when the tuple has a third element. *)
Record mapping := {
  pattern : regex;
  mapper_type : jsvalue;
  converter : option (jsvalue -> result jsvalue)
}.

(** [/( -?\d{10,})/] *)
Definition digit_pattern : regex :=
  Group (Chars (js " ") >> Opt 45%N >> Rep is_digit 10).

(** List of mapping tuples for clean parsing. *)
Definition MAPPINGS : list mapping := [
  {| pattern := Group (Chars (js "-Infinity"));
     mapper_type := VNumber NegInfinity; converter := None |};
  {| pattern := Group (Chars (js "Infinity"));
     mapper_type := VNumber Infinity; converter := None |};
  {| pattern := Group (Chars (js "NaN"));
     mapper_type := VNumber NaN; converter := None |};
  {| pattern := Group (Chars (js "null"));
     mapper_type := VNull; converter := None |};
  {| pattern := digit_pattern;
     mapper_type := VString (js "bigint"); converter := Some convertInt |}
].

Definition replacement_key : jsstring := js "fprime{replacement".

(** [value.toString()] *)
Definition toString_method (value : jsvalue) : result jsstring :=
  match value with
  | VUndefined => Throw (cannot_read (js "undefined") (js "toString"))
  | VNull => Throw (cannot_read (js "null") (js "toString"))
  | VObject properties =>
      match lookup (js "toString") properties with
      | Some _ => Throw (not_a_function (js "value.toString"))
      | None => Ok (to_string value)
      end
  | _ => ToString value
  end.

(** Get replacement object from a JavaScript type.  The operator [==]
    converts an array or an object to a primitive, which can throw. *)
Fixpoint replaceFromObject_loop (mappings : list mapping) (value : jsvalue)
  : result jsvalue :=
  match mappings with
  | [] => Ok value
  | mapper :: rest =>
      let mapper_type := mapper_type mapper in
      let mapper_is_string := isString mapper_type in
      (* Check if the mapping matches the value, if so substitute a replacement object *)
      equal <- (if negb mapper_is_string then IsLooselyEqual value mapper_type
                else Ok false) ;;
      if equal || (mapper_is_string && loose_eq (VString (typeof value)) mapper_type)
      then
        text <- (if loose_eq value VNull then Ok (js "null") else toString_method value) ;;
        Ok (VObject [(replacement_key, VString text)])
      else replaceFromObject_loop rest value
  end.

Definition replaceFromObject (_ : jsstring) (value : jsvalue) : result jsvalue :=
  replaceFromObject_loop MAPPINGS value.

(** Replace JSON notation for fprime-replacement objects with the wider
    JSON specification. *)
Definition post_pattern : regex :=
  (Chars (js "{") >> Rep is_white_space 0 >> Chars (jq "'fprime{replacement'")
   >> Rep is_white_space 0 >> Chars (js ":") >> Rep is_white_space 0
   >> Chars (jq "'") >> Group (Rep (fun c => negb (unit_eqb c quote_mark)) 1)
   >> Chars (jq "'") >> Rep is_white_space 0 >> Chars (js "}"))%regex.

Definition postReplacer (json_string : jsvalue) : result jsvalue :=
  match json_string with
  | VString s => Ok (VString (replace_global s post_pattern (js "$1")))
  | VUndefined => Throw (cannot_read (js "undefined") (js "replace"))
  | VNull => Throw (cannot_read (js "null") (js "replace"))
  | _ => Throw (not_a_function (js "json_string.replace"))
  end.

(** Replace string occurrences of our gnarly types with a mapping
    equivalent. *)
Definition wrapper_template : jsstring := jq "{'fprime{replacement': '$1'}".

Definition replaceFromString (string_value : jsstring) : jsstring :=
  fold_left
    (fun string_value mapper => replace string_value (pattern mapper) wrapper_template)
    MAPPINGS string_value.

(** Apply process function to raw json string only for data that is not
    quoted: the loop of [processUnquoted], from a state, the text not yet
    processed and the text transformed so far. *)
Definition next_section (unprocessed : jsstring) : jsstring :=
  let next_quote := indexOf unprocessed [quote_mark] in
  if negb (next_quote =? -1) then substring unprocessed 0 (next_quote + 1)
  else substring_from unprocessed 0.

Definition toggle (state : Z) : Z :=
  if state =? QUOTED then UNQUOTED else QUOTED.

(** Facts about [substring] and [indexOf] that the loop of
    [processUnquoted] rests on. *)
Lemma substring_prefix (s : jsstring) (n : Z) :
  0 <= n -> substring s 0 n = firstn (Z.to_nat n) s.
Proof.
  intros Hn. unfold substring, clamp, jslength.
  replace (Z.min (Z.min (Z.max 0 0) (Z.of_nat (List.length s)))
             (Z.min (Z.max n 0) (Z.of_nat (List.length s)))) with 0 by lia.
  cbn [Z.to_nat skipn]. rewrite Z.sub_0_r.
  destruct (Z.le_gt_cases n (Z.of_nat (List.length s))) as [Hle|Hgt].
  - f_equal. lia.
  - rewrite !firstn_all2 by lia. reflexivity.
Qed.

Lemma substring_suffix (s : jsstring) (n : Z) :
  0 <= n -> substring_from s n = skipn (Z.to_nat n) s.
Proof.
  intros Hn. unfold substring_from, substring, clamp, jslength.
  destruct (Z.le_gt_cases n (Z.of_nat (List.length s))) as [Hle|Hgt].
  - replace (Z.min (Z.min (Z.max n 0) (Z.of_nat (List.length s)))
               (Z.min (Z.max (Z.of_nat (List.length s)) 0) (Z.of_nat (List.length s))))
      with n by lia.
    apply firstn_all2. rewrite length_skipn. lia.
  - replace (Z.min (Z.min (Z.max n 0) (Z.of_nat (List.length s)))
               (Z.min (Z.max (Z.of_nat (List.length s)) 0) (Z.of_nat (List.length s))))
      with (Z.of_nat (List.length s)) by lia.
    rewrite Nat2Z.id, !skipn_all2 by lia. apply firstn_nil.
Qed.

(** [indexOf] of one code unit: -1 when the unit does not occur, else the
    length of the text before its first occurrence. *)
Lemma indexOf_from_unit (q : code_unit) (s : jsstring) (from : Z) :
  0 <= from ->
  (indexOf_from from s [q] = -1 /\ ~ In q s)
  \/ (exists pre post, s = pre ++ q :: post /\ ~ In q pre
        /\ indexOf_from from s [q] = from + Z.of_nat (List.length pre)).
Proof.
  revert from. induction s as [|d s IH]; intros from Hfrom; cbn [indexOf_from strip_prefix].
  - left. split; [reflexivity | intros []].
  - unfold unit_eqb. destruct (N.eqb_spec q d) as [->|Hne].
    + right. exists [], s. cbn. split; [reflexivity|]. split; [intros []|lia].
    + destruct (IH (from + 1) ltac:(lia)) as [[H Hin]|(pre & post & -> & Hin & H)].
      * left. split; [exact H|]. intros [Heq|Hin']; [congruence|contradiction].
      * right. exists (d :: pre), post. cbn [app List.length]. split; [reflexivity|].
        split; [intros [Heq|Hin']; [congruence|contradiction]|]. rewrite H. lia.
Qed.

(** The number of code units of the section cut from a text. *)
Definition section_length (unprocessed : jsstring) : nat :=
  let next_quote := indexOf unprocessed [quote_mark] in
  if next_quote =? -1 then List.length unprocessed else Z.to_nat (next_quote + 1).

Lemma next_section_firstn (s : jsstring) :
  next_section s = firstn (section_length s) s.
Proof.
  unfold next_section, section_length.
  destruct (Z.eqb_spec (indexOf s [quote_mark]) (-1)) as [E|E]; cbn [negb].
  - rewrite substring_suffix by lia. cbn [Z.to_nat skipn]. symmetry. apply firstn_all.
  - apply substring_prefix. unfold indexOf in *.
    destruct (indexOf_from_unit quote_mark s 0 ltac:(lia)) as [[H _]|(pre & post & _ & _ & H)]; lia.
Qed.

Lemma section_length_bounds (c : code_unit) (r : jsstring) :
  (1 <= section_length (c :: r) <= List.length (c :: r))%nat.
Proof.
  unfold section_length, indexOf.
  destruct (indexOf_from_unit quote_mark (c :: r) 0 ltac:(lia))
    as [[H _]|(pre & post & Hs & _ & H)]; rewrite H.
  - rewrite Z.eqb_refl. cbn [List.length]. lia.
  - destruct (Z.eqb_spec (0 + Z.of_nat (List.length pre)) (-1)); [lia|].
    rewrite Hs, length_app. cbn [List.length]. lia.
Qed.

Lemma rest_after_section (s : jsstring) :
  substring_from s (jslength (next_section s)) = skipn (section_length s) s
  \/ s = [].
Proof.
  destruct s as [|c r]; [right; reflexivity|left].
  rewrite substring_suffix by (unfold jslength; lia).
  f_equal. unfold jslength. rewrite Nat2Z.id, next_section_firstn, length_firstn.
  pose proof (section_length_bounds c r). lia.
Qed.

(** The loop of [processUnquoted] stops: a section holds at least one code
    unit of a text that is not empty. *)
Lemma next_section_shrinks (c : code_unit) (r : jsstring) :
  (List.length (substring_from (c :: r) (jslength (next_section (c :: r))))
   < List.length (c :: r))%nat.
Proof.
  destruct (rest_after_section (c :: r)) as [->|H]; [|discriminate].
  rewrite length_skipn. pose proof (section_length_bounds c r). lia.
Qed.

Equations processUnquoted_loop (process_function : jsstring -> jsstring) (state : Z)
  (unprocessed transformed_data : jsstring) : jsstring
  by wf (List.length unprocessed) lt :=
  processUnquoted_loop process_function state [] transformed_data := transformed_data;
  processUnquoted_loop process_function state (c :: r) transformed_data :=
    let section := next_section (c :: r) in
    processUnquoted_loop process_function (toggle state)
      (substring_from (c :: r) (jslength section))
      (transformed_data
       ++ (if state =? QUOTED then section else process_function section)).
Next Obligation. apply next_section_shrinks. Qed.

Definition processUnquoted (json_string : jsstring)
  (process_function : jsstring -> jsstring) : jsstring :=
  (* The initial state of any JSON string is unquoted *)
  processUnquoted_loop process_function UNQUOTED json_string [].

(** The sections the loop of [processUnquoted] cuts, each with the state it
    was cut in: the segments of the text. *)
Record segment := { text : jsstring; quoted : bool }.

Equations scan_loop (state : Z) (unprocessed : jsstring) : list segment
  by wf (List.length unprocessed) lt :=
  scan_loop state [] := [];
  scan_loop state (c :: r) :=
    let section := next_section (c :: r) in
    {| text := section; quoted := state =? QUOTED |}
    :: scan_loop (toggle state) (substring_from (c :: r) (jslength section)).
Next Obligation. apply next_section_shrinks. Qed.

Definition scan (json_string : jsstring) : list segment :=
  scan_loop UNQUOTED json_string.

(** The scanner in the words of the specification, to compare [scan] with:
    a segment runs up to and including the next double quote that no
    backslash escapes, or to the end of the text. *)
Fixpoint unescaped_section_length (s : jsstring) : nat :=
  match s with
  | [] => 0
  | c :: r =>
      if unit_eqb c quote_mark then 1
      else if unit_eqb c backslash then
        match r with
        | [] => 1
        | _ :: r' => 2 + unescaped_section_length r'
        end
      else 1 + unescaped_section_length r
  end.

Fixpoint scan_unescaped_loop (fuel : nat) (quoted : bool) (s : jsstring) : list segment :=
  match fuel, s with
  | S fuel', _ :: _ =>
      let n := unescaped_section_length s in
      {| text := firstn n s; quoted := quoted |}
      :: scan_unescaped_loop fuel' (negb quoted) (skipn n s)
  | _, _ => []
  end.

Definition scan_unescaped (s : jsstring) : list segment :=
  scan_unescaped_loop (List.length s) false s.

(** Inverse of convert removing string and replacing back invalid JSON
    tokens. *)
Fixpoint reviver_loop (mappings : list mapping) (string_value value : jsvalue)
  : result jsvalue :=
  match mappings with
  | [] => Ok value
  | mapper :: rest =>
      text <- ToString string_value ;;
      if test (pattern mapper) text then
        (* Run the conversion function if it exists, otherwise return the
           mapped constant value *)
        match converter mapper with
        | Some convert => convert string_value
        | None => Ok (mapper_type mapper)
        end
      else reviver_loop rest string_value value
  end.

Definition reviver (key : jsstring) (value : jsvalue) : result jsvalue :=
  (* Look for fprime-replacement and quickly abort if not there *)
  string_value <- get value replacement_key ;;
  if strict_eq (VString (typeof string_value)) (VString (js "undefined")) then Ok value
  else reviver_loop MAPPINGS string_value value.

Section Codec.

Variable E : engine.

(** Store the language variants the first time. *)
Definition language_parse := JSON_parse E.
Definition language_stringify := JSON_stringify E.

(** [/line (\d+) column (\d+)/] *)
Definition matcher : regex :=
  (Chars (js "line ") >> Group (Rep is_digit 1) >> Chars (js " column ")
   >> Group (Rep is_digit 1))%regex.

(** [lines[index]] for a Number index. *)
Definition element (lines : list jsstring) (index : Z) : option jsstring :=
  if (0 <=? index) && (index <? Z.of_nat (List.length lines))
  then nth_error lines (Z.to_nat index) else None.

(** The integer [Number.parseInt] reads from a run of digits.  The sums
    and differences taken of it below are positions in a line: they are
    exact below 2^53, and beyond it every one of them is past the end of
    the line, so they are taken over the integers.  A run of 309 digits or
    more reads as Infinity, which stays Infinity in these sums and is past
    the end of every line as well: it is kept as 2^1024, which no Number
    and no length of a string reaches. *)
Definition parseInt_integer (digits : jsstring) : Z :=
  match integer_of_number (parseInt digits) with
  | Some z => z
  | None => 2 ^ 1024
  end.

(** The handler of the [catch] in [parse]. *)
Definition parse_catch (converted_data : jsstring) (e : error) : result jsvalue :=
  let message := error_toString e in
  (* Process the match *)
  match exec matcher message with
  | Some found =>
      let group i := nth i (captures found) [] in
      let lines := split_on line_feed converted_data in
      match element lines (parseInt_integer (group 0%nat) - 1) with
      | Some line =>
          let snippet :=
            substring line (parseInt_integer (group 1%nat) - 6)
                           (parseInt_integer (group 1%nat) + 5) in
          let message := message ++ js ". Offending snippet: " ++ snippet in
          Throw (SyntaxError message)
      | None => Throw (cannot_read (js "undefined") (js "substring"))
      end
  | None => Throw e
  end.

(** Set up a composite reviver of the one passed in and ours. *)
Definition full_reviver (reviver : argument) : callback :=
  let input_reviver :=
    match reviver with
    | Data v => if truthy v then reviver else Callable (fun key value => Ok value)
    | Callable _ => reviver
    end in
  fun key value =>
    revived <- SaferParser.reviver key value ;;
    call (js "input_reviver") input_reviver key revived.

(** Safely process F Prime JSON syntax: the method that replaces
    [JSON.parse]. *)
Definition parse (json_string : jsstring) (reviver : argument) : result jsvalue :=
  let converted_data := processUnquoted json_string replaceFromString in
  try_catch (language_parse converted_data (full_reviver reviver))
    (parse_catch converted_data).

(** Safely write the F Prime JSON syntax: the method that replaces
    [JSON.stringify]. *)
Definition full_replacer (replacer : argument) : callback := fun key value =>
  (* Handle array case for excluded field *)
  if isArray replacer && indexOf_is_minus_one replacer key then Ok VUndefined
  else
    (* Run input replacer first *)
    value <- (if isFunction replacer then call (js "replacer") replacer key value
              else Ok value) ;;
    (* Then run our safe replacer *)
    replaceFromObject key value.

Definition stringify (data : jsvalue) (replacer : argument) (space : jsvalue)
  : result jsvalue :=
  (* Stringify JSON using built-in JSON parser and the special replacer *)
  json_string <- language_stringify data (full_replacer replacer) space ;;
  (* Post-process JSON string to rework JSON into the wider specification *)
  postReplacer json_string.

(** The reduction callback in the words of the specification (3, 4.1 and
    4.5).  The Extended Values are negative infinity, positive infinity,
    not-a-number, the explicit null and the arbitrary-precision integers;
    the canonical of a Token Definition is a sentinel value or a type tag.
    A value matches an entry of the Mapping Table when it is the sentinel
    value of the entry, not-a-number being not-a-number, or when its type
    is the one the tag of the entry names. *)
Definition is_sentinel (sentinel value : jsvalue) : bool :=
  match sentinel, value with
  | VNull, VNull => true
  | VNumber S754_nan, VNumber S754_nan => true
  | VNumber (S754_infinity a), VNumber (S754_infinity b) => Bool.eqb a b
  | _, _ => false
  end.

Definition matches (value : jsvalue) (entry : mapping) : bool :=
  match mapper_type entry with
  | VString tag => jsstring_eqb (typeof value) tag
  | sentinel => is_sentinel sentinel value
  end.

Definition placeholder (payload : jsstring) : jsvalue :=
  VObject [(replacement_key, VString payload)].

(** The canonical textual form: a sentinel value gives its fixed literal,
    the explicit null the text [null], an arbitrary-precision integer its
    decimal digits. *)
Definition canonical_text (value : jsvalue) : jsstring :=
  match value with
  | VNull => js "null"
  | _ => to_string value
  end.

(** On the first entry that matches, a placeholder wrapper whose payload
    is the canonical text; a value that matches no entry passes through
    unchanged. *)
Definition substitute_placeholder (value : jsvalue) : jsvalue :=
  match find (matches value) MAPPINGS with
  | Some _ => placeholder (canonical_text value)
  | None => value
  end.

(** (1) a key that the allow-list lacks gives the field as absent; (2) a
    transform function is applied first; (3) the value is then tested
    against the table. *)
Definition reduction (external_replacer : argument) : callback := fun key value =>
  match external_replacer with
  | Data (VArray allow_list) =>
      if existsb (strict_eq (VString key)) allow_list
      then Ok (substitute_placeholder value)
      else Ok VUndefined
  | Callable transform =>
      transformed <- transform key value ;;
      Ok (substitute_placeholder transformed)
  | Data _ => Ok (substitute_placeholder value)
  end.

(** [decode(encode(data))] *)
Definition decode_encode (data : jsvalue) : result jsvalue :=
  json_string <- stringify data absent VUndefined ;;
  match json_string with
  | VString text => parse text absent
  | _ => Throw (not_a_function (js "json_string.length"))
  end.

End Codec.

End SaferParser.

(** ** Two hosts

    SpiderMonkey reports the line and the column at which [JSON.parse]
    gave up; V8 did, for a long time, report the offset only. *)

Fixpoint line_column (text : jsstring) (offset : nat) (line column : Z) : Z * Z :=
  match offset, text with
  | S offset', c :: text' =>
      if unit_eqb c line_feed then line_column text' offset' (line + 1) 1
      else line_column text' offset' line (column + 1)
  | _, _ => (line, column)
  end.

Definition spidermonkey : engine := {|
  stack_depth := 1000;
  syntax_text := fun text offset =>
    let '(line, column) := line_column text (Z.to_nat offset) 1 1 in
    js "JSON.parse: unexpected character at line " ++ decimal line
    ++ js " column " ++ decimal column ++ js " of the JSON data"
|}.

Definition v8 : engine := {|
  stack_depth := 1000;
  syntax_text := fun text offset =>
    js "Unexpected token in JSON at position " ++ decimal offset
|}.
(** * loader.js

    The loader pulls data from the REST layer: [load] sends one request
    and answers a promise, [poller] keeps one request at a time going for
    an endpoint, [registerPoller] puts a poller on a timer, [setup] loads
    the dictionaries.  The requests, the promises and the timers of the
    host are kept in an explicit state; what the host does between two
    calls of the loader is an event: a timer fires, or the request of an
    endpoint changes its ready state. *)

Module Loader.

(** An endpoint of the loader.  The properties that the table of the
    constructor leaves out are kept with the value they read as: [false]
    for [startup], [undefined] for [last] and [data], no timer for
    [interval]. *)
Record endpoint := {
  url : jsstring;
  startup : bool;
  last : jsvalue;
  running : bool;
  queued : bool;
  name : jsstring;
  data : jsvalue;
  interval : option nat
}.

Definition set_running (value : bool) (e : endpoint) : endpoint :=
  {| url := url e; startup := startup e; last := last e; running := value;
     queued := queued e; name := name e; data := data e; interval := interval e |}.

Definition set_queued (value : bool) (e : endpoint) : endpoint :=
  {| url := url e; startup := startup e; last := last e; running := running e;
     queued := value; name := name e; data := data e; interval := interval e |}.

Definition set_last (value : jsvalue) (e : endpoint) : endpoint :=
  {| url := url e; startup := startup e; last := value; running := running e;
     queued := queued e; name := name e; data := data e; interval := interval e |}.

Definition set_name (value : jsstring) (e : endpoint) : endpoint :=
  {| url := url e; startup := startup e; last := last e; running := running e;
     queued := queued e; name := value; data := data e; interval := interval e |}.

Definition set_data (value : jsvalue) (e : endpoint) : endpoint :=
  {| url := url e; startup := startup e; last := last e; running := running e;
     queued := queued e; name := name e; data := value; interval := interval e |}.

Definition set_interval (value : option nat) (e : endpoint) : endpoint :=
  {| url := url e; startup := startup e; last := last e; running := running e;
     queued := queued e; name := name e; data := data e; interval := value |}.

(** Dictionary endpoints and data endpoints as the constructor writes
    them. *)
Definition dictionary_endpoint (url : jsstring) : endpoint :=
  {| url := url; startup := true; last := VUndefined; running := false;
     queued := false; name := []; data := VUndefined; interval := None |}.

Definition data_endpoint (url : jsstring) : endpoint :=
  {| url := url; startup := false; last := VNull; running := false;
     queued := false; name := []; data := VUndefined; interval := None |}.

(** [this.endpoints[key]] and an assignment to a property of it.  The
    endpoints are objects shared by everything that holds them; they are
    kept in the table and named by their key. *)
Fixpoint find_endpoint (key : jsstring) (table : list (jsstring * endpoint))
  : option endpoint :=
  match table with
  | [] => None
  | (k, e) :: rest => if jsstring_eqb k key then Some e else find_endpoint key rest
  end.

Fixpoint update_endpoint (key : jsstring) (f : endpoint -> endpoint)
  (table : list (jsstring * endpoint)) : list (jsstring * endpoint) :=
  match table with
  | [] => []
  | (k, e) :: rest =>
      if jsstring_eqb k key then (k, f e) :: rest
      else (k, e) :: update_endpoint key f rest
  end.

Record loader := {
  session : jsstring;
  endpoints : list (jsstring * endpoint)
}.

(** Sets up the list of endpoints; [time] is [new Date().getTime()]. *)
Definition constructor (time : Z) : loader :=
  let endpoints := [
    (* Dictionary endpoints *)
    (js "command-dict", dictionary_endpoint (js "/dictionary/commands"));
    (js "event-dict", dictionary_endpoint (js "/dictionary/events"));
    (js "channel-dict", dictionary_endpoint (js "/dictionary/channels"));
    (* Data endpoints *)
    (js "commands", data_endpoint (js "/commands"));
    (js "events", data_endpoint (js "/events"));
    (js "channels", data_endpoint (js "/channels"));
    (js "logdata", data_endpoint (js "/logdata"));
    (js "upfiles", data_endpoint (js "/upload/files"));
    (js "downfiles", data_endpoint (js "/download/files"));
    (js "stats", data_endpoint (js "/stats"))
  ] in
  {| session := number_toString (number_of_Z time);
     (* Attach a name to each endpoint *)
     endpoints := map (fun '(key, e) => (key, set_name key e)) endpoints |}.

(** What a promise of [load] is rejected with, or what a handler of it
    threw: a value, or an exception. *)
Inductive reason :=
| Rejection (value : jsvalue)
| Exception (e : error).

(** What the loader does that the page or the server sees. *)
Inductive effect :=
| Sent (method : jsvalue) (url : jsstring) (content_type : option jsstring) (body : jsvalue)
| Called_back (data : jsvalue)
| Handled (endpoint : jsstring) (error : reason)
| Console_error (text : jsstring)
| Uncaught (e : error).

(** A function of the page that the loader calls: what it logs and
    whether it throws. *)
Definition action := (list effect * result unit)%type.

Definition done : action := ([], Ok tt).

Definition raise (e : error) : action := ([], Throw e).

Definition and_then (first second : action) : action :=
  match first with
  | (log, Ok _) => let '(log', r) := second in (log ++ log', r)
  | (log, Throw e) => (log, Throw e)
  end.

(** [promise.catch(handler)] on the outcome of a handler. *)
Definition or_catch (body : action) (handler : error -> action) : action :=
  match body with
  | (log, Ok _) => (log, Ok tt)
  | (log, Throw e) => let '(log', r) := handler e in (log ++ log', r)
  end.

Section Methods.

(** [JSON.parse] and [JSON.stringify] as they are bound when the loader
    runs, called with one argument; json.js binds them to the methods of
    [SaferParser]. *)
Variable JSON_parse : jsstring -> result jsvalue.
Variable JSON_stringify : jsvalue -> result jsvalue.

(** [config.dataPollIntervalsMs.default] *)
Variable default_interval : jsvalue.

Definition is_undefined (value : jsvalue) : bool :=
  strict_eq (VString (typeof value)) (VString (js "undefined")).

(** [a || b] *)
Definition or_else (a b : jsvalue) : jsvalue := if truthy a then a else b.

(** *** load *)

(** The request that [load] sends: [random] is the time of the call. *)
Definition load (self : loader) (random : Z) (endpoint : jsstring)
  (method data jsonify : jsvalue) : result effect :=
  (* Default method argument to GET *)
  let method := if is_undefined method then VString (js "GET") else method in
  (* JSONify data if supplied and jsonified data needed *)
  data <- (if negb (is_undefined data) && (is_undefined jsonify || truthy jsonify)
           then JSON_stringify data else Ok data) ;;
  let url := endpoint ++ js "?_no_cache=" ++ number_toString (number_of_Z random)
             ++ js "&session=" ++ session self in
  Ok (if is_undefined data then Sent method url None VUndefined
      else if is_undefined jsonify || truthy jsonify
           then Sent method url (Some (js "application/json")) data
           else Sent method url None data).

(** How a promise of [load] ends. *)
Inductive settlement :=
| Resolved (value : jsvalue)
| Rejected_with (value : jsvalue).

(** The handler of [onreadystatechange]: the promise is resolved or
    rejected when the request is done, and left alone otherwise; an
    exception of the handler leaves it pending. *)
Definition onreadystatechange (raw : jsvalue) (readyState status : Z)
  (responseText : jsstring) : result (option settlement) :=
  (* Parse as JSON or send back raw error *)
  if (readyState =? 4) && (status =? 200) && truthy raw then
    Ok (Some (Resolved (VString responseText)))
  else if (readyState =? 4) && (status =? 200) then
    dataObj <- JSON_parse responseText ;;
    Ok (Some (Resolved dataObj))
  else if readyState =? 4 then Ok (Some (Rejected_with (VString responseText)))
  else Ok None.

(** *** error_handler *)

(** [error.message] and [error.type] of what a handler is given. *)
Definition reason_property (error : reason) (property : jsstring) : result jsvalue :=
  match error with
  | Rejection value => get value property
  | Exception e =>
      if jsstring_eqb property (js "message")
      then Ok (VString match e with
                       | SyntaxError m | TypeError m | RangeError m => m
                       end)
      else Ok VUndefined
  end.

Definition reason_text (error : reason) : result jsstring :=
  match error with
  | Rejection value => ToString value
  | Exception e => Ok (error_toString e)
  end.

(** Default error handler that prints to console; the operator [+]
    converts what it is given to a string, which can throw. *)
Definition error_handler (endpoint : jsstring) (error : reason) : action :=
  let details :=
    message <- reason_property error (js "message") ;;
    shown <- (if truthy message then ToString message else reason_text error) ;;
    type <- reason_property error (js "type") ;;
    kind <- ToString (or_else type (VString (js "unknown"))) ;;
    Ok (js "'" ++ shown ++ js "' (" ++ kind ++ js ")") in
  match details with
  | Ok details =>
      ([Console_error (js "[ERROR] " ++ endpoint ++ js " erred with " ++ details)], Ok tt)
  | Throw e => raise e
  end.

(** *** poller *)

(** A request of [poller] that is under way, with what its promise will
    run: the endpoint, the time of the call and the two functions. *)
Record request := {
  context : jsstring;
  start_time : Z;
  callback : jsvalue -> action;
  on_error : jsstring -> reason -> action
}.

(** A timer of [setInterval] with the arguments bound to [poller]. *)
Record timer := {
  timer_context : jsstring;
  timer_callback : jsvalue -> action;
  timer_error_handler : jsstring -> reason -> action;
  period : jsvalue
}.

Record world := {
  self : loader;
  requests : list request;
  timers : list (nat * timer);
  next_timer : nat;
  trace : list effect
}.

Definition with_endpoint (key : jsstring) (f : endpoint -> endpoint) (w : world) : world :=
  {| self := {| session := session (self w);
                endpoints := update_endpoint key f (endpoints (self w)) |};
     requests := requests w; timers := timers w; next_timer := next_timer w;
     trace := trace w |}.

Definition with_trace (log : list effect) (w : world) : world :=
  {| self := self w; requests := requests w; timers := timers w;
     next_timer := next_timer w; trace := trace w ++ log |}.

Definition with_request (r : request) (w : world) : world :=
  {| self := self w; requests := requests w ++ [r]; timers := timers w;
     next_timer := next_timer w; trace := trace w |}.

Definition poller (context : jsstring) (callback : jsvalue -> action)
  (error_handler : jsstring -> reason -> action) (now : Z) (w : world) : world :=
  match find_endpoint context (endpoints (self w)) with
  | None => w
  | Some c =>
      (* If already running, mark as queued and bail *)
      if running c then with_endpoint context (set_queued true) w
      else
        (* Running, reset queue *)
        let w := with_endpoint context (fun c => set_queued false (set_running true c)) w in
        (* Load the endpoint and respond to the response *)
        match load (self w) now (url c) VUndefined VUndefined VUndefined with
        | Ok sent =>
            with_request {| context := context; start_time := now;
                            callback := callback; on_error := error_handler |}
              (with_trace [sent] w)
        | Throw e => with_trace [Uncaught e] w
        end
  end.

(** The handler of [then]: the errors of the data go to the error
    handler, one by one, and the data to the callback. *)
Definition on_data (name : jsstring) (callback : jsvalue -> action)
  (error_handler : jsstring -> reason -> action) (data : jsvalue) : action :=
  match get data (js "errors") with
  | Throw e => raise e
  | Ok errors =>
      and_then
        match or_else errors (VArray []) with
        | VArray elements =>
            fold_left
              (fun sofar error =>
                 and_then sofar
                   (and_then ([Handled name (Rejection error)], Ok tt)
                      (error_handler name (Rejection error))))
              elements done
        | _ => raise (not_a_function (js "(data.errors || []).map"))
        end
        (and_then ([Called_back data], Ok tt) (callback data))
  end.

(** The three handlers on the promise of a request: [then], [catch] and
    [finally]; an exception of the [catch] handler is left to the host. *)
Definition settle (r : request) (outcome : settlement) (now : Z) (w : world) : world :=
  match find_endpoint (context r) (endpoints (self w)) with
  | None => w
  | Some c =>
      let report error :=
        and_then ([Handled (name c) error], Ok tt) (on_error r (name c) error) in
      let '(log, thrown) :=
        match outcome with
        | Resolved data =>
            or_catch (on_data (name c) (callback r) (on_error r) data)
              (fun e => report (Exception e))
        | Rejected_with value => report (Rejection value)
        end in
      let w := with_trace
                 (log ++ match thrown with Throw e => [Uncaught e] | Ok _ => [] end) w in
      (* Context variables reset after finishing *)
      let elapsed := now - start_time r in
      let w := with_endpoint (context r)
                 (fun c => set_last (VNumber (number_of_ratio (elapsed <? 0)
                                                (Z.abs elapsed) 1000))
                             (set_running false c)) w in
      (* If a request has been asked, prepare a follow-up request *)
      if queued c then poller (context r) (callback r) (on_error r) now w else w
  end.

(** The request of an endpoint changes its ready state.  In state 4 the
    request is over; its promise is settled unless the handler threw. *)
Fixpoint take_request (key : jsstring) (queue : list request)
  : option (request * list request) :=
  match queue with
  | [] => None
  | r :: rest =>
      if jsstring_eqb (context r) key then Some (r, rest)
      else match take_request key rest with
           | Some (found, others) => Some (found, r :: others)
           | None => None
           end
  end.

Definition respond (key : jsstring) (readyState status : Z) (responseText : jsstring)
  (now : Z) (w : world) : world :=
  match take_request key (requests w) with
  | None => w
  | Some (r, others) =>
      if readyState =? 4 then
        let w := {| self := self w; requests := others; timers := timers w;
                    next_timer := next_timer w; trace := trace w |} in
        match onreadystatechange VUndefined readyState status responseText with
        | Ok (Some outcome) => settle r outcome now w
        | Ok None => w
        | Throw e => with_trace [Uncaught e] w
        end
      else w
  end.

(** *** registerPoller *)

(** [this.error_handler] and [current_endpoint.interval], which the
    parameters of [registerPoller] hide. *)
Definition this_error_handler := error_handler.
Definition endpoint_interval := interval.

Definition clearInterval (id : nat) (w : world) : world :=
  {| self := self w; requests := requests w;
     timers := filter (fun entry => negb (Nat.eqb (fst entry) id)) (timers w);
     next_timer := next_timer w; trace := trace w |}.

(** Register a polling function to receive updates and post updates to
    the callback function; [error_handler] is [None] for an argument that
    is no function. *)
Definition registerPoller (endpoint : jsstring) (callback : jsvalue -> action)
  (error_handler : option (jsstring -> reason -> action)) (interval : jsvalue)
  (w : world) : result world :=
  match find_endpoint endpoint (endpoints (self w)) with
  | None =>
      Throw (TypeError (js "Cannot use 'in' operator to search for 'interval' in undefined"))
  | Some current_endpoint =>
      let error_handler :=
        match error_handler with
        | Some f => f
        | None => this_error_handler
        end in
      (* Clear old intervals *)
      let w := match endpoint_interval current_endpoint with
               | Some id => clearInterval id w
               | None => w
               end in
      let interval := or_else (or_else interval default_interval)
                        (VNumber (number_of_Z 1000)) in
      let id := next_timer w in
      let w := with_endpoint endpoint (set_interval (Some id)) w in
      Ok {| self := self w; requests := requests w;
            timers := timers w
                      ++ [(id, {| timer_context := endpoint; timer_callback := callback;
                                  timer_error_handler := error_handler;
                                  period := interval |})];
            next_timer := S id; trace := trace w |}
  end.

(** A timer fires: the host calls the handler bound by [registerPoller]. *)
Definition fire (id : nat) (now : Z) (w : world) : world :=
  match find (fun entry => Nat.eqb (fst entry) id) (timers w) with
  | Some (_, t) => poller (timer_context t) (timer_callback t) (timer_error_handler t) now w
  | None => w
  end.

(** What happens between two calls of the loader. *)
Inductive event :=
| Fire (id : nat) (now : Z)
| ReadyState (key : jsstring) (readyState status : Z) (responseText : jsstring) (now : Z)
| Register (endpoint : jsstring) (callback : jsvalue -> action)
    (error_handler : option (jsstring -> reason -> action)) (interval : jsvalue).

Definition step (w : world) (e : event) : world :=
  match e with
  | Fire id now => fire id now w
  | ReadyState key readyState status responseText now =>
      respond key readyState status responseText now w
  | Register endpoint callback error_handler interval =>
      match registerPoller endpoint callback error_handler interval w with
      | Ok w' => w'
      | Throw e => with_trace [Uncaught e] w
      end
  end.

Definition run (events : list event) (w : world) : world := fold_left step events w.

(** The page after the loader is constructed. *)
Definition start (time : Z) : world :=
  {| self := constructor time; requests := []; timers := []; next_timer := 0;
     trace := [] |}.

(** *** setup *)

(** How the promise of [setup] ends. *)
Inductive setup_outcome :=
| Fulfilled
| Broken (error : reason).

(** The promise of [setup] with the count of its closure, the endpoints
    whose load it waits for, and the requests sent. *)
Record setup_state := {
  setup_self : loader;
  pending : Z;
  waiting : list jsstring;
  promise : option setup_outcome;
  sent : list effect
}.

(** A promise is settled once. *)
Definition settle_once (outcome : setup_outcome) (promise : option setup_outcome)
  : option setup_outcome :=
  match promise with
  | Some first => Some first
  | None => Some outcome
  end.

Definition needs_loading (e : endpoint) : bool :=
  loose_eq (VBool (startup e)) (VBool true) && is_undefined (data e).

(** The loop of the executor over the endpoints; an exception ends it and
    rejects the promise. *)
Fixpoint setup_loop (now : Z) (table : list (jsstring * endpoint)) (state : setup_state)
  : setup_state :=
  match table with
  | [] => state
  | (key, endpoint) :: rest =>
      (* Send out request if not loaded, and update the pending count *)
      if needs_loading endpoint then
        match load (setup_self state) now (url endpoint) VUndefined VUndefined VUndefined with
        | Ok request =>
            setup_loop now rest
              {| setup_self := setup_self state; pending := pending state + 1;
                 waiting := waiting state ++ [key]; promise := promise state;
                 sent := sent state ++ [request] |}
        | Throw e =>
            {| setup_self := setup_self state; pending := pending state + 1;
               waiting := waiting state;
               promise := settle_once (Broken (Exception e)) (promise state);
               sent := sent state |}
        end
      else setup_loop now rest state
  end.

(** Sets up the loader by issuing the initial requests for the dictionary
    endpoints. *)
Definition setup (self : loader) (now : Z) : setup_state :=
  setup_loop now (endpoints self)
    {| setup_self := self; pending := 0; waiting := []; promise := None; sent := [] |}.

(** The request of an endpoint that [setup] waits for is over, with a
    status and a text. *)
Definition setup_respond (state : setup_state) (response : jsstring * Z * jsstring)
  : setup_state :=
  let '(key, status, responseText) := response in
  if existsb (jsstring_eqb key) (waiting state) then
    let waiting' := filter (fun k => negb (jsstring_eqb key k)) (waiting state) in
    match onreadystatechange VUndefined 4 status responseText with
    | Ok (Some (Resolved data)) =>
        (* Data successfully returned, lower pending count and set it *)
        let pending' := pending state - 1 in
        {| setup_self :=
             {| session := session (setup_self state);
                endpoints := update_endpoint key (set_data data)
                               (endpoints (setup_self state)) |};
           pending := pending';
           waiting := waiting';
           (* When there are no pending items, then resolve the promise *)
           promise := if pending' =? 0 then settle_once Fulfilled (promise state)
                      else promise state;
           sent := sent state |}
    | Ok (Some (Rejected_with value)) =>
        {| setup_self := setup_self state; pending := pending state;
           waiting := waiting';
           promise := settle_once (Broken (Rejection value)) (promise state);
           sent := sent state |}
    | Ok None => state
    | Throw e =>
        {| setup_self := setup_self state; pending := pending state;
           waiting := waiting'; promise := promise state; sent := sent state |}
    end
  else state.

End Methods.

End Loader.

(** * Vocabulary of the statements *)

Import SaferParser.

(** The text a segment contributes to the output of [processUnquoted]. *)
Definition emit (process_function : jsstring -> jsstring) (seg : segment) : jsstring :=
  if quoted seg then text seg else process_function (text seg).

(** The scanner cuts its segments at the double quotes that no backslash
    escapes, as the specification words it. *)
Definition toggles_only_at_unescaped_quotes (json_string : jsstring) : Prop :=
  scan json_string = scan_unescaped json_string.

(** A decimal literal, an optional minus sign and digits, and the same
    after a space, which is the text the digit expression matches. *)
Definition minus_text (negative : bool) : jsstring := if negative then js "-" else [].

Definition literal (negative : bool) (digits : jsstring) : jsstring :=
  minus_text negative ++ digits.

Definition digit_run (negative : bool) (digits : jsstring) : jsstring :=
  js " " ++ minus_text negative ++ digits.

Definition signed (negative : bool) (z : Z) : Z := if negative then - z else z.

(** Code units that a JSON string holds as they are. *)
Definition plain (c : code_unit) : bool :=
  negb (unit_eqb c quote_mark) && negb (unit_eqb c backslash) && negb (c <? 32)%N.

(** What the decoder does with an error [e] of the host: with a line and a
    column in its text, and that line in the rewritten text, a SyntaxError
    that adds the snippet around the column; without them, [e] itself. *)
Definition enriched (E : engine) (json_string : jsstring) (reviver : argument)
  (e : error) : Prop :=
  let converted_data := processUnquoted json_string replaceFromString in
  match exec matcher (error_toString e) with
  | Some found =>
      let line_number := parseInt_integer (nth 0 (captures found) []) in
      let column := parseInt_integer (nth 1 (captures found) []) in
      forall line,
        element (split_on line_feed converted_data) (line_number - 1) = Some line ->
        let snippet := substring line (column - 6) (column + 5) in
        parse E json_string reviver
        = Throw (SyntaxError (error_toString e ++ js ". Offending snippet: " ++ snippet))
        /\ (List.length snippet <= 11)%nat
        /\ (6 <= column -> column + 5 <= jslength line ->
            snippet = firstn 11 (skipn (Z.to_nat (column - 6)) line))
  | None => parse E json_string reviver = Throw e
  end.

(** The shift that brings a positive integer below 2^52 to the 53 bits of
    a mantissa. *)
Definition shift_of (v : positive) : positive := Z.to_pos (53 - Zpos (digits2_pos v)).

(** ** Vocabulary of the further properties *)

(** The text at which a run of a class stops. *)
Definition stops (cls : code_unit -> bool) (s : jsstring) : Prop :=
  hd_error s = None \/ (exists c, hd_error s = Some c /\ cls c = false).

(** What a match of the second expression of a sequence becomes when the
    first one matched [m1] and captured [g1]. *)
Definition after_match (m1 : jsstring) (g1 : list jsstring)
  (second : option (jsstring * list jsstring * jsstring))
  : option (jsstring * list jsstring * jsstring) :=
  match second with
  | Some (m2, g2, rest) => Some (m1 ++ m2, g1 ++ g2, rest)
  | None => None
  end.

(** The text of a placeholder wrapper with white space [w1] to [w4] where
    the expression of [postReplacer] allows it. *)
Definition wrapper_text (w1 w2 w3 w4 payload : jsstring) : jsstring :=
  js "{" ++ w1 ++ jq "'fprime{replacement'" ++ w2 ++ js ":" ++ w3
  ++ [quote_mark] ++ payload ++ [quote_mark] ++ w4 ++ js "}".

(** Any code unit but the double quote. *)
Definition not_quote (c : code_unit) : bool := negb (unit_eqb c quote_mark).

(** Code units that [QuoteJSONString] writes as they are. *)
Definition ordinary (c : code_unit) : bool :=
  (32 <=? c)%N && (c <? 55296)%N && negb (unit_eqb c quote_mark)
  && negb (unit_eqb c backslash).

(** The integers whose nearest Number is finite. *)
Definition in_number_range (z : Z) : bool :=
  match number_of_Z z with
  | S754_infinity _ => false
  | _ => true
  end.

(** A placeholder as the host lays it out at an indentation. *)
Definition laid_out (gap indent payload : jsstring) : jsstring :=
  match gap with
  | [] => wrapper_text [] [] [] [] payload
  | _ => wrapper_text (line_feed :: indent ++ gap) [] (js " ") (line_feed :: indent) payload
  end.

(** The text of an array of [n] nulls. *)
Definition nulls_text (n : nat) : jsstring :=
  js "[" ++ join (js ",") (repeat (js "null") n) ++ js "]".

(** What follows the first null in the text of an array of nulls. *)
Definition nulls_tail (n : nat) : jsstring :=
  match n with
  | O => js "]"
  | S k => js "," ++ join (js ",") (repeat (js "null") (S k)) ++ js "]"
  end.

(** A value that holds neither [undefined] nor [null] and no object with
    the placeholder key. *)
Fixpoint ordinary_value (v : jsvalue) : bool :=
  match v with
  | VUndefined | VNull => false
  | VArray elements => forallb ordinary_value elements
  | VObject properties =>
      negb (has_property replacement_key properties)
      && forallb (fun property => ordinary_value (snd property)) properties
  | _ => true
  end.

(** The three TypeErrors of the reviver: a reviver that cannot be called,
    and the placeholder key read of [null] or of [undefined]. *)
Definition reviver_type_error (r : result jsvalue) : Prop :=
  r = Throw (TypeError (js "input_reviver is not a function"))
  \/ r = Throw (cannot_read (js "null") replacement_key)
  \/ r = Throw (cannot_read (js "undefined") replacement_key).

(** Each expression of the table is one group around an expression
    without groups: a match captures itself. *)
Definition captures_itself (r : regex) : Prop :=
  forall s m g rest, match_here r s = Some (m, g, rest) -> g = [m].

(** A value that the callback of the encoder replaces by a placeholder:
    one that [==] finds equal to an infinity or to [null], and an
    arbitrary-precision integer. *)
Definition replaced (value : jsvalue) : bool :=
  loose_eq value (VNumber NegInfinity) || loose_eq value (VNumber Infinity)
  || loose_eq value VNull
  || match value with VBigInt _ => true | _ => false end.

(** Data that the callback of the encoder leaves as it is at every depth:
    every value converts to a primitive (no object has a property of its
    own named [toString], which the conversion of [==] would call), none is
    replaced, and no object has the placeholder key. *)
Fixpoint kept (value : jsvalue) : bool :=
  converts value && negb (replaced value)
  && match value with
     | VArray elements => forallb kept elements
     | VObject properties =>
         negb (has_property replacement_key properties)
         && forallb (fun property => kept (snd property)) properties
     | _ => true
     end.

(** What the expression of [postReplacer] asks for after the opening
    brace. *)
Definition after_brace : regex :=
  (Rep is_white_space 0 >> Chars (jq "'fprime{replacement'")
   >> Rep is_white_space 0 >> Chars (js ":") >> Rep is_white_space 0
   >> Chars (jq "'") >> Group (Rep (fun c => negb (unit_eqb c quote_mark)) 1)
   >> Chars (jq "'") >> Rep is_white_space 0 >> Chars (js "}"))%regex.

(** No placeholder wrapper starts in [text] when [rest] follows it. *)
Fixpoint unwrapped (text rest : jsstring) : Prop :=
  match text with
  | [] => True
  | c :: text' =>
      match_here post_pattern (c :: text' ++ rest) = None /\ unwrapped text' rest
  end.

(** Every double quote of [text], with [previous] before it, follows a
    backslash. *)
Fixpoint escaped (previous : code_unit) (text : jsstring) : bool :=
  match text with
  | [] => true
  | c :: text' =>
      (negb (unit_eqb c quote_mark) || unit_eqb previous backslash) && escaped c text'
  end.

(** A text in which no wrapper starts when what follows it does not
    begin with the letter f. *)
Definition sealed (text : jsstring) : Prop :=
  forall rest, hd_error rest <> Some 102%N -> unwrapped text rest.

(** The text of a property of an object: sealed, and no wrapper starts at
    a brace and white space before it. *)
Definition sealed_property (text : jsstring) : Prop :=
  sealed text
  /\ forall space rest,
       forallb is_white_space space = true ->
       match_here post_pattern (123%N :: space ++ text ++ rest) = None.






(** ** Vocabulary of the loader *)

(** The requests of an endpoint that are under way, and the timers set
    for it. *)
Definition in_flight (key : jsstring) (requests : list Loader.request) : nat :=
  List.length (filter (fun r => jsstring_eqb (Loader.context r) key) requests).


(** An endpoint of the loader has at most one request under way, has one
    whenever it is marked as running with nothing more to come, and is
    queued only while it is running. *)
Definition one_request_at_a_time (w : Loader.world) : Prop :=
  forall key c,
    Loader.find_endpoint key (Loader.endpoints (Loader.self w)) = Some c ->
    (in_flight key (Loader.requests w) <= 1)%nat
    /\ (Loader.running c = false -> in_flight key (Loader.requests w) = 0%nat)
    /\ (Loader.queued c = true -> Loader.running c = true).

(** An endpoint whose poller waits for a promise that nothing will
    settle. *)
Definition stuck (key : jsstring) (w : Loader.world) : Prop :=
  exists c,
    Loader.find_endpoint key (Loader.endpoints (Loader.self w)) = Some c
    /\ Loader.running c = true
    /\ in_flight key (Loader.requests w) = 0%nat.


(** The first answer to the request of an endpoint, among the answers in
    the order of their arrival, has status 200 and a text that
    [JSON.parse] reads. *)
Fixpoint answered_with_data (JSON_parse : jsstring -> result jsvalue)
  (key : jsstring) (responses : list (jsstring * Z * jsstring)) : bool :=
  match responses with
  | [] => false
  | (k, status, responseText) :: rest =>
      if jsstring_eqb key k then
        (status =? 200)
        && match JSON_parse responseText with Ok _ => true | Throw _ => false end
      else answered_with_data JSON_parse key rest
  end.




(** * Properties of the host model *)

Lemma strip_prefix_some (p s r : jsstring) :
  strip_prefix p s = Some r -> s = p ++ r.
Proof.
  revert s. induction p as [|c p IH]; intros s H; cbn in H.
  - now injection H as ->.
  - destruct s as [|d s]; [discriminate|].
    unfold unit_eqb in H. destruct (N.eqb_spec c d) as [->|]; [|discriminate].
    cbn. f_equal. now apply IH.
Qed.

Lemma span_split (cls : code_unit -> bool) (s run rest : jsstring) :
  span cls s = (run, rest) -> s = run ++ rest.
Proof.
  revert run rest. induction s as [|c s IH]; intros run rest H; cbn in H.
  - now injection H as <- <-.
  - destruct (cls c).
    + destruct (span cls s) as [run' rest']. injection H as <- <-.
      cbn. f_equal. now apply IH.
    + now injection H as <- <-.
Qed.

(** A match is a prefix of the text it is found at. *)
Lemma match_here_split (r : regex) :
  forall s m g rest, match_here r s = Some (m, g, rest) -> s = m ++ rest.
Proof.
  induction r as [p|c|cls n|r1 IH1 r2 IH2|r IH]; intros s m g rest H; cbn in H.
  - destruct (strip_prefix p s) eqn:Hp; [|discriminate].
    injection H as <- <- <-. now apply strip_prefix_some.
  - destruct s as [|d s]; [now injection H as <- <- <-|].
    destruct (unit_eqb c d); now injection H as <- <- <-.
  - destruct (span cls s) as [run rest'] eqn:Hs.
    destruct (n <=? List.length run)%nat; [|discriminate].
    injection H as <- <- <-. exact (span_split cls s run rest' Hs).
  - destruct (match_here r1 s) as [[[m1 g1] rest1]|] eqn:H1; [|discriminate].
    destruct (match_here r2 rest1) as [[[m2 g2] rest2]|] eqn:H2; [|discriminate].
    injection H as <- <- <-. apply IH1 in H1. apply IH2 in H2.
    now rewrite H1, H2, app_assoc.
  - destruct (match_here r s) as [[[m' g'] rest']|] eqn:H1; [|discriminate].
    injection H as <- <- <-. now apply IH in H1.
Qed.

(** The result of [exec] cuts the text in three. *)
Lemma exec_split (r : regex) (s : jsstring) (f : found) :
  exec r s = Some f -> s = before f ++ whole f ++ after f.
Proof.
  revert f. induction s as [|c s IH]; intros f H; cbn [exec] in H.
  - destruct (match_here r []) as [[[m g] rest]|] eqn:Hm; [|discriminate].
    injection H as <-. now apply match_here_split in Hm.
  - destruct (match_here r (c :: s)) as [[[m g] rest]|] eqn:Hm.
    + injection H as <-. now apply match_here_split in Hm.
    + destruct (exec r s) as [f'|]; [|discriminate]. injection H as <-.
      cbn [before whole after app]. f_equal. now apply IH.
Qed.

(** [replace_global] comes to the end of the text: more fuel than the text
    has code units changes nothing. *)
Lemma replace_global_loop_fuel (r : regex) (template : jsstring) (f1 : nat) :
  forall f2 s, (List.length s < f1)%nat -> (List.length s < f2)%nat ->
    replace_global_loop f1 s r template = replace_global_loop f2 s r template.
Proof.
  induction f1 as [|f1 IH]; intros f2 s H1 H2; [lia|].
  destruct f2 as [|f2]; [lia|]. cbn [replace_global_loop].
  destruct (exec r s) as [f|] eqn:Hf; [|reflexivity].
  apply exec_split in Hf. apply (f_equal (@List.length _)) in Hf.
  rewrite !length_app in Hf.
  destruct (whole f) as [|w ws], (after f) as [|c s']; cbn [List.length] in Hf.
  - reflexivity.
  - do 3 f_equal. apply IH; lia.
  - do 2 f_equal. apply IH; cbn [List.length]; lia.
  - do 2 f_equal. apply IH; cbn [List.length]; lia.
Qed.

(** ** The JSON grammar stops without running out of fuel *)

Lemma skip_space_length (s : jsstring) :
  (List.length (skip_space s) <= List.length s)%nat.
Proof.
  induction s as [|c s IH]; cbn; [lia|].
  destruct (is_json_space c); cbn; lia.
Qed.

Lemma skip_space_cons (s r : jsstring) (c : code_unit) :
  skip_space s = c :: r -> (List.length r < List.length s)%nat.
Proof.
  intros H. pose proof (skip_space_length s) as Hl. rewrite H in Hl. cbn in Hl. lia.
Qed.

Lemma parsed_map_parsed {A B} (f : A -> B) (p : parsed A) (b : B) (r : jsstring) :
  parsed_map f p = Parsed b r -> exists a, p = Parsed a r.
Proof. destruct p; cbn; intros [= <- <-] || discriminate. eauto. Qed.

Lemma parsed_map_exhausted {A B} (f : A -> B) (p : parsed A) :
  parsed_map f p = Exhausted -> p = Exhausted.
Proof. destruct p; cbn; congruence. Qed.

Lemma string_body_shrinks (n : nat) :
  forall s k r, (List.length s <= n)%nat -> string_body s = Parsed k r ->
    (List.length r < List.length s)%nat.
Proof.
  induction n as [|n IH]; intros s k r Hn H; destruct s as [|c s]; try discriminate.
  - cbn in Hn. lia.
  - cbn [string_body] in H. cbn [List.length] in *.
    destruct (unit_eqb c quote_mark); [injection H as <- <-; lia|].
    destruct (is_char "\" c).
    + destruct s as [|e s]; [discriminate|].
      destruct (is_char "u" e).
      * destruct s as [|h1 [|h2 [|h3 [|h4 s]]]]; try discriminate.
        destruct (forallb is_hex_digit [h1; h2; h3; h4]); [|discriminate].
        apply parsed_map_parsed in H as [a H]. apply IH in H; cbn [List.length] in *; lia.
      * destruct (escape_unit e); [|discriminate].
        apply parsed_map_parsed in H as [a H]. apply IH in H; cbn [List.length] in *; lia.
    + destruct (c <? 32)%N; [discriminate|].
      apply parsed_map_parsed in H as [a H]. apply IH in H; lia.
Qed.

Lemma string_body_total (n : nat) :
  forall s, (List.length s <= n)%nat -> string_body s <> Exhausted.
Proof.
  induction n as [|n IH]; intros s Hn H; destruct s as [|c s]; try discriminate.
  - cbn in Hn. lia.
  - cbn [string_body] in H. cbn [List.length] in *.
    destruct (unit_eqb c quote_mark); [discriminate|].
    destruct (is_char "\" c).
    + destruct s as [|e s]; [discriminate|].
      destruct (is_char "u" e).
      * destruct s as [|h1 [|h2 [|h3 [|h4 s]]]]; try discriminate.
        destruct (forallb is_hex_digit [h1; h2; h3; h4]); [|discriminate].
        apply parsed_map_exhausted in H. apply IH in H; cbn [List.length] in *; lia.
      * destruct (escape_unit e); [|discriminate].
        apply parsed_map_exhausted in H. apply IH in H; cbn [List.length] in *; lia.
    + destruct (c <? 32)%N; [discriminate|].
      apply parsed_map_exhausted in H. apply IH in H; lia.
Qed.

Lemma span_length (cls : code_unit -> bool) (s run rest : jsstring) :
  span cls s = (run, rest) -> List.length s = (List.length run + List.length rest)%nat.
Proof. intros H. apply span_split in H. subst s. apply length_app. Qed.

Lemma split_sign_length (s r : jsstring) (neg sgn : bool) :
  split_sign s = (neg, sgn, r) -> (List.length r <= List.length s)%nat.
Proof.
  destruct s as [|c s]; cbn; [intros [= <- <- <-]; cbn; lia|].
  destruct (is_char "-" c); [intros [= <- <- <-]; cbn; lia|].
  destruct (is_char "+" c); intros [= <- <- <-]; cbn; lia.
Qed.

Lemma json_number_cases (s : jsstring) :
  (exists x r, json_number s = Parsed x r /\ (List.length r < List.length s)%nat)
  \/ (exists t, json_number s = Rejected t).
Proof.
  unfold json_number.
  destruct (match s with
            | [] => (false, s)
            | c :: r => if is_char "-" c then (true, r) else (false, s)
            end) as [neg s1] eqn:Hs1.
  assert (H1 : (List.length s1 <= List.length s)%nat).
  { destruct s as [|c r]; [injection Hs1 as <- <-; lia|].
    destruct (is_char "-" c); injection Hs1 as <- <-; cbn; lia. }
  destruct (match s1 with
            | [] => ([], [])
            | c :: r => if is_char "0" c then ([c], r) else span is_digit s1
            end) as [int_part r1] eqn:Hint.
  assert (Hr1 : List.length s1 = (List.length int_part + List.length r1)%nat).
  { destruct s1 as [|c r]; [injection Hint as <- <-; reflexivity|].
    destruct (is_char "0" c); [injection Hint as <- <-; reflexivity|].
    now apply span_length in Hint. }
  destruct int_part as [|i0 int_rest]; [right; eauto|].
  cbn [List.length] in Hr1.
  destruct (match r1 with
            | [] => Some ([], [])
            | c :: r =>
                if is_char "." c
                then match span is_digit r with
                     | ([], _) => None
                     | (frac_part, r2) => Some (frac_part, r2)
                     end
                else Some ([], r1)
            end) as [[frac_part r2]|] eqn:Hfrac; [|right; eauto].
  assert (Hr2 : (List.length r2 <= List.length r1)%nat).
  { destruct r1 as [|c r]; [injection Hfrac as <- <-; lia|].
    destruct (is_char "." c); [|injection Hfrac as <- <-; lia].
    destruct (span is_digit r) as [fp rr] eqn:Hsp. apply span_length in Hsp.
    destruct fp; [discriminate|]. injection Hfrac as <- <-. cbn [List.length] in *. lia. }
  destruct r2 as [|c r]; [left; do 2 eexists; split; [reflexivity|cbn; lia]|].
  destruct (is_char "e" c || is_char "E" c);
    [|left; do 2 eexists; split; [reflexivity|cbn [List.length] in *; lia]].
  destruct (split_sign r) as [[eneg sgn] r3] eqn:Hsign.
  apply split_sign_length in Hsign.
  destruct (span is_digit r3) as [ds r4] eqn:Hsp. apply span_length in Hsp.
  destruct ds; [right; eauto|].
  left. do 2 eexists. split; [reflexivity|]. cbn [List.length] in *. lia.
Qed.

Lemma keyword_cases (s : jsstring) :
  (exists v r, keyword s = Parsed v r /\ (List.length r < List.length s)%nat)
  \/ (exists t, keyword s = Rejected t).
Proof.
  unfold keyword.
  destruct (strip_prefix (js "true") s) eqn:H1;
    [apply strip_prefix_some in H1; subst s; left; do 2 eexists; split;
     [reflexivity | rewrite length_app; cbn; lia]|].
  destruct (strip_prefix (js "false") s) eqn:H2;
    [apply strip_prefix_some in H2; subst s; left; do 2 eexists; split;
     [reflexivity | rewrite length_app; cbn; lia]|].
  destruct (strip_prefix (js "null") s) eqn:H3;
    [apply strip_prefix_some in H3; subst s; left; do 2 eexists; split;
     [reflexivity | rewrite length_app; cbn; lia]|].
  right. eauto.
Qed.

(** What is read is taken from the text. *)
Lemma json_shrinks (fuel : nat) :
  (forall s v r, json_value fuel s = Parsed v r -> (List.length r < List.length s)%nat)
  /\ (forall s done v r, json_elements fuel s done = Parsed v r ->
        (List.length r < List.length s)%nat)
  /\ (forall s done v r, json_members fuel s done = Parsed v r ->
        (List.length r < List.length s)%nat).
Proof.
  induction fuel as [|fuel (IHv & IHe & IHm)]; [repeat split; discriminate|].
  split; [|split].
  - intros s v r H. cbn [json_value] in H.
    destruct (skip_space s) as [|c r0] eqn:Hs; [discriminate|].
    apply skip_space_cons in Hs.
    destruct (is_char "{" c).
    { destruct (skip_space r0) as [|d r'] eqn:Hr0; [discriminate|].
      pose proof (skip_space_length r0) as Hl. rewrite Hr0 in Hl.
      destruct (is_char "}" d); [injection H as <- <-; cbn in Hl; lia|].
      apply IHm in H. lia. }
    destruct (is_char "[" c).
    { destruct (skip_space r0) as [|d r'] eqn:Hr0; [discriminate|].
      pose proof (skip_space_length r0) as Hl. rewrite Hr0 in Hl.
      destruct (is_char "]" d); [injection H as <- <-; cbn in Hl; lia|].
      apply IHe in H. lia. }
    destruct (unit_eqb c quote_mark).
    { apply parsed_map_parsed in H as [k H].
      apply (string_body_shrinks (List.length r0)) in H; lia. }
    destruct (is_char "-" c || is_digit c).
    { apply parsed_map_parsed in H as [x H].
      destruct (json_number_cases (c :: r0)) as [(x' & r' & Hn & Hl)|[t Hn]];
        rewrite Hn in H; [|discriminate].
      injection H as <- <-. cbn [List.length] in Hl. lia. }
    destruct (keyword_cases (c :: r0)) as [(v' & r' & Hk & Hl)|[t Hk]];
      rewrite Hk in H; [|discriminate].
    injection H as <- <-. cbn [List.length] in Hl. lia.
  - intros s done v r H. cbn [json_elements] in H.
    destruct (json_value fuel s) as [v1 r1| |] eqn:Hv; try discriminate.
    apply IHv in Hv.
    destruct (skip_space r1) as [|d r'] eqn:Hr1; [discriminate|].
    apply skip_space_cons in Hr1.
    destruct (is_char "," d); [apply IHe in H; lia|].
    destruct (is_char "]" d); [injection H as <- <-; lia | discriminate].
  - intros s done v r H. cbn [json_members] in H.
    destruct (skip_space s) as [|q r0] eqn:Hs; [discriminate|].
    apply skip_space_cons in Hs.
    destruct (unit_eqb q quote_mark); [|discriminate].
    destruct (string_body r0) as [k r1| |] eqn:Hk; try discriminate.
    apply (string_body_shrinks (List.length r0)) in Hk; [|lia].
    destruct (skip_space r1) as [|colon r2] eqn:Hr1; [discriminate|].
    apply skip_space_cons in Hr1.
    destruct (is_char ":" colon); [|discriminate].
    destruct (json_value fuel r2) as [v1 r3| |] eqn:Hv; try discriminate.
    apply IHv in Hv.
    destruct (skip_space r3) as [|d r4] eqn:Hr3; [discriminate|].
    apply skip_space_cons in Hr3.
    destruct (is_char "," d); [apply IHm in H; lia|].
    destruct (is_char "}" d); [injection H as <- <-; lia | discriminate].
Qed.

(** Twice the length of the text is fuel enough. *)
Lemma json_total (fuel : nat) :
  (forall s, (2 * List.length s + 1 <= fuel)%nat -> json_value fuel s <> Exhausted)
  /\ (forall s done, (2 * List.length s + 2 <= fuel)%nat ->
        json_elements fuel s done <> Exhausted)
  /\ (forall s done, (2 * List.length s + 2 <= fuel)%nat ->
        json_members fuel s done <> Exhausted).
Proof.
  induction fuel as [|fuel (IHv & IHe & IHm)]; [repeat split; intros; lia|].
  destruct (json_shrinks fuel) as (Sv & Se & Sm).
  split; [|split].
  - intros s Hf H. cbn [json_value] in H.
    destruct (skip_space s) as [|c r0] eqn:Hs; [discriminate|].
    apply skip_space_cons in Hs.
    destruct (is_char "{" c).
    { destruct (skip_space r0) as [|d r'] eqn:Hr0; [discriminate|].
      pose proof (skip_space_length r0) as Hl. rewrite Hr0 in Hl.
      destruct (is_char "}" d); [discriminate|].
      apply IHm in H; [assumption|lia]. }
    destruct (is_char "[" c).
    { destruct (skip_space r0) as [|d r'] eqn:Hr0; [discriminate|].
      pose proof (skip_space_length r0) as Hl. rewrite Hr0 in Hl.
      destruct (is_char "]" d); [discriminate|].
      apply IHe in H; [assumption|lia]. }
    destruct (unit_eqb c quote_mark).
    { apply parsed_map_exhausted in H.
      now apply (string_body_total (List.length r0)) in H. }
    destruct (is_char "-" c || is_digit c).
    { apply parsed_map_exhausted in H.
      destruct (json_number_cases (c :: r0)) as [(x' & r' & Hn & _)|[t Hn]];
        rewrite Hn in H; discriminate. }
    destruct (keyword_cases (c :: r0)) as [(v' & r' & Hk & _)|[t Hk]];
      rewrite Hk in H; discriminate.
  - intros s done Hf H. cbn [json_elements] in H.
    destruct (json_value fuel s) as [v1 r1| |] eqn:Hv; try discriminate.
    + apply Sv in Hv.
      destruct (skip_space r1) as [|d r'] eqn:Hr1; [discriminate|].
      apply skip_space_cons in Hr1.
      destruct (is_char "," d); [apply IHe in H; [assumption|lia]|].
      destruct (is_char "]" d); discriminate.
    + apply IHv in Hv; [assumption|lia].
  - intros s done Hf H. cbn [json_members] in H.
    destruct (skip_space s) as [|q r0] eqn:Hs; [discriminate|].
    apply skip_space_cons in Hs.
    destruct (unit_eqb q quote_mark); [|discriminate].
    destruct (string_body r0) as [k r1| |] eqn:Hk; try discriminate.
    + apply (string_body_shrinks (List.length r0)) in Hk; [|lia].
      destruct (skip_space r1) as [|colon r2] eqn:Hr1; [discriminate|].
      apply skip_space_cons in Hr1.
      destruct (is_char ":" colon); [|discriminate].
      destruct (json_value fuel r2) as [v1 r3| |] eqn:Hv; try discriminate.
      * apply Sv in Hv.
        destruct (skip_space r3) as [|d r4] eqn:Hr3; [discriminate|].
        apply skip_space_cons in Hr3.
        destruct (is_char "," d); [apply IHm in H; [assumption|lia]|].
        destruct (is_char "}" d); discriminate.
      * apply IHv in Hv; [assumption|lia].
    + now apply (string_body_total (List.length r0)) in Hk.
Qed.

(** The host reads or rejects every text: [JSON_parse] raises its
    RangeError for no text at all. *)
Lemma json_text_total (text : jsstring) : json_text text <> Exhausted.
Proof.
  unfold json_text.
  destruct (json_value (2 * List.length text + 2) text) as [v r| |] eqn:H.
  - destruct (skip_space r); discriminate.
  - discriminate.
  - apply (proj1 (json_total _)) in H; [contradiction|lia].
Qed.

(** * Properties of the codec *)

(** ** The quote-state scanner *)

Lemma jsstring_eqb_eq (a b : jsstring) : jsstring_eqb a b = true <-> a = b.
Proof.
  revert b. induction a as [|x a IH]; intros [|y b]; cbn; try easy.
  unfold unit_eqb. rewrite andb_true_iff, N.eqb_eq, IH.
  split; [intros [-> ->]; reflexivity | intros [= -> ->]; auto].
Qed.

Lemma jsstring_eqb_refl (a : jsstring) : jsstring_eqb a a = true.
Proof. apply jsstring_eqb_eq. reflexivity. Qed.

(** What one turn of the loop leaves to process. *)
Lemma rest_after_section_cons (c : code_unit) (r : jsstring) :
  substring_from (c :: r) (jslength (next_section (c :: r)))
  = skipn (section_length (c :: r)) (c :: r).
Proof. destruct (rest_after_section (c :: r)) as [H|H]; [exact H | discriminate]. Qed.

(** [processUnquoted] applies the process function to the unquoted segments
    of [scan] and joins the results in order. *)
Lemma processUnquoted_loop_scan (f : jsstring -> jsstring) (n : nat) :
  forall state s acc, (List.length s <= n)%nat ->
    processUnquoted_loop f state s acc = acc ++ flat_map (emit f) (scan_loop state s).
Proof.
  induction n as [|n IH]; intros state [|c r] acc Hlen;
    simp processUnquoted_loop scan_loop; cbn [flat_map];
    rewrite ?app_nil_r; try reflexivity.
  - cbn in Hlen. lia.
  - cbv zeta. rewrite IH.
    + unfold emit at 2. cbn [quoted text]. rewrite app_assoc. reflexivity.
    + pose proof (next_section_shrinks c r). lia.
Qed.

Lemma processUnquoted_scan (f : jsstring -> jsstring) (s : jsstring) :
  processUnquoted s f = flat_map (emit f) (scan s).
Proof.
  unfold processUnquoted, scan.
  now rewrite (processUnquoted_loop_scan f (List.length s)).
Qed.

Lemma scan_loop_concat (n : nat) :
  forall state s, (List.length s <= n)%nat -> flat_map text (scan_loop state s) = s.
Proof.
  induction n as [|n IH]; intros state [|c r] Hlen; simp scan_loop; try reflexivity.
  - cbn in Hlen. lia.
  - cbv zeta. cbn [flat_map text]. rewrite IH.
    + rewrite rest_after_section_cons, next_section_firstn. apply firstn_skipn.
    + pose proof (next_section_shrinks c r). lia.
Qed.

(** C3. Segment identity: the texts of the segments of the scanner,
    concatenated in order, are the input, whatever the number of double
    quotes in it; and [processUnquoted] with the identity for process
    function returns its input unchanged. *)
Theorem segment_identity (json_string : jsstring) :
  flat_map text (scan json_string) = json_string
  /\ processUnquoted json_string (fun section => section) = json_string.
Proof.
  assert (H : flat_map text (scan json_string) = json_string)
    by (apply (scan_loop_concat (List.length json_string)); lia).
  split; [exact H|].
  rewrite processUnquoted_scan. rewrite <- H at 2.
  apply flat_map_ext. intros seg. unfold emit. now destruct (quoted seg).
Qed.

(** C4 fails on the text ['a\'b'] (apostrophes for double quotes): the
    quoted segment that opens at [a] ends at the escaped quote, and [b']
    is scanned as unquoted text. *)
Lemma scan_splits_at_escaped_quote :
  scan (jq "'a\'b'")
  = [ {| text := jq "'"; quoted := false |};
      {| text := jq "a\'"; quoted := true |};
      {| text := jq "b'"; quoted := false |} ]
  /\ ~ toggles_only_at_unescaped_quotes (jq "'a\'b'").
Proof.
  split; [reflexivity|].
  unfold toggles_only_at_unescaped_quotes. vm_compute. discriminate.
Qed.

(** What the decoder throws is thrown by the handler of its [catch]. *)
Lemma parse_catch_throws (converted_data : jsstring) (e : error) :
  exists e', parse_catch converted_data e = Throw e'.
Proof.
  unfold parse_catch. destruct (exec matcher (error_toString e)) as [found|].
  - destruct (element _ _); eexists; reflexivity.
  - eexists; reflexivity.
Qed.

(** C4 fails on the JSON text [{'a': 'x\'null'}] (apostrophes for double
    quotes), whose string holds an escaped quote: the scanner leaves the quoted state at that quote, the
    rest of the string is rewritten as unquoted text, and the decoder
    rejects a text that the host alone reads. *)
Theorem escaped_quote_ends_quoted_segment (E : engine) :
  map text (scan (jq "{'a': 'x\'null'}"))
  = [jq "{'"; jq "a'"; jq ": '"; jq "x\'"; jq "null'"; js "}"]
  /\ map quoted (scan (jq "{'a': 'x\'null'}")) = [false; true; false; true; false; true]
  /\ processUnquoted (jq "{'a': 'x\'null'}") replaceFromString
     = jq "{'a': 'x\'{'fprime{replacement': 'null'}'}"
  /\ json_text (jq "{'a': 'x\'null'}") = Parsed (VObject [(js "a", VString (jq "x'null"))]) []
  /\ exists e, parse E (jq "{'a': 'x\'null'}") absent = Throw e.
Proof.
  do 4 (split; [vm_compute; reflexivity|]).
  unfold parse, language_parse, JSON_parse.
  replace (json_text (processUnquoted (jq "{'a': 'x\'null'}") replaceFromString))
    with (@Rejected jsvalue (jq "fprime{replacement': 'null'}'}"))
    by (vm_compute; reflexivity).
  cbn [try_catch]. apply parse_catch_throws.
Qed.

Lemma section_of_text (s : jsstring) :
  (exists body post, s = body ++ quote_mark :: post /\ ~ In quote_mark body
     /\ next_section s = body ++ [quote_mark] /\ skipn (section_length s) s = post)
  \/ (~ In quote_mark s /\ next_section s = s /\ skipn (section_length s) s = []).
Proof.
  rewrite next_section_firstn. unfold section_length, indexOf.
  destruct (indexOf_from_unit quote_mark s 0 ltac:(lia))
    as [[H Hin]|(body & post & Hs & Hin & H)]; rewrite H.
  - right. rewrite Z.eqb_refl. split; [exact Hin|]. split; [apply firstn_all | apply skipn_all].
  - left. exists body, post. destruct (Z.eqb_spec (0 + Z.of_nat (List.length body)) (-1)); [lia|].
    replace (Z.to_nat (0 + Z.of_nat (List.length body) + 1)) with (List.length body + 1)%nat by lia.
    subst s. repeat split; trivial.
    + rewrite firstn_app, firstn_all2 by lia.
      replace (List.length body + 1 - List.length body)%nat with 1%nat by lia. reflexivity.
    + rewrite skipn_app, skipn_all2 by lia.
      replace (List.length body + 1 - List.length body)%nat with 1%nat by lia. reflexivity.
Qed.

(** What the scanner does: the flag toggles at every double quote, escaped
    or not.  From a text that is not empty the scanner emits, with the
    current flag, the segment that runs up to and including the next
    double quote (or to the end of the text when there is none), toggles
    the flag and goes on with what follows that segment. *)
Lemma scan_boundaries (state : Z) (unprocessed : jsstring) :
  unprocessed <> [] ->
  exists section rest,
    unprocessed = section ++ rest
    /\ scan_loop state unprocessed
       = {| text := section; quoted := state =? QUOTED |}
         :: scan_loop (toggle state) rest
    /\ ((exists body, section = body ++ [quote_mark] /\ ~ In quote_mark body)
        \/ (rest = [] /\ ~ In quote_mark section)).
Proof.
  destruct unprocessed as [|c r]; [congruence|intros _].
  exists (next_section (c :: r)), (skipn (section_length (c :: r)) (c :: r)).
  split; [rewrite next_section_firstn; symmetry; apply firstn_skipn|].
  split; [simp scan_loop; cbv zeta; now rewrite rest_after_section_cons|].
  destruct (section_of_text (c :: r))
    as [(body & post & _ & Hin & Hsec & _)|(Hin & Hsec & Hrest)].
  - left. exists body. split; assumption.
  - right. rewrite Hsec. split; assumption.
Qed.

(** The states of the scanner are the two of [STATES], one after the
    other. *)
Lemma toggle_states : toggle UNQUOTED = QUOTED /\ toggle QUOTED = UNQUOTED.
Proof. split; reflexivity. Qed.

(** ** The pre-decode rewriter *)

(** C2 fails on the segment [[null, null]]: each expression of the table
    is applied without the global flag, and the second [null] stays as it
    is. *)
Theorem replaceFromString_first_match_only :
  replaceFromString (jq "[null, null]") = jq "[{'fprime{replacement': 'null'}, null]".
Proof. reflexivity. Qed.

Lemma replaceFromString_second_token_kept :
  replaceFromString (jq "[NaN, NaN, Infinity, Infinity]")
  = jq "[{'fprime{replacement': 'NaN'}, NaN, {'fprime{replacement': 'Infinity'}, Infinity]".
Proof. reflexivity. Qed.

(** ** The encoder *)

Lemma loose_eq_null (value : jsvalue) :
  loose_eq value VNull = match value with VUndefined | VNull => true | _ => false end.
Proof. destruct value as [| |[|]|x|z|s|l|l]; reflexivity. Qed.

Lemma IsLooselyEqual_null (value : jsvalue) :
  IsLooselyEqual value VNull
  = Ok match value with VUndefined | VNull => true | _ => false end.
Proof. destruct value as [| |[|]|x|z|s|l|l]; reflexivity. Qed.

Lemma IsLooselyEqual_number (value : jsvalue) (x : number) :
  IsLooselyEqual value (VNumber x)
  = if converts value then Ok (loose_eq value (VNumber x)) else Throw cannot_convert.
Proof.
  unfold loose_eq.
  destruct value as [| |b|y|z|s|l|l]; try reflexivity;
    unfold IsLooselyEqual, ToString; cbn [is_object];
    destruct (converts _); reflexivity.
Qed.

Lemma number_eqb_nan (x : number) : number_eqb x NaN = false.
Proof. destruct x as [s|s| |s m e]; try destruct s; reflexivity. Qed.

Lemma loose_eq_nan (value : jsvalue) : loose_eq value (VNumber NaN) = false.
Proof.
  destruct value as [| |b|x|z|s|l|l]; try reflexivity;
    unfold loose_eq, IsLooselyEqual, ToString; cbn [is_object];
    try destruct (converts _); cbn [bind loose_eq_primitive strict_eq];
    try reflexivity; apply number_eqb_nan.
Qed.

Lemma toString_method_converts (value : jsvalue) :
  converts value = true -> loose_eq value VNull = false ->
  toString_method value = Ok (to_string value).
Proof.
  intros Hc Hn. destruct value as [| |b|y|z|s|l|l]; try discriminate; try reflexivity.
  - unfold toString_method, ToString. now rewrite Hc.
  - unfold toString_method. cbn [converts] in Hc.
    destruct (lookup (js "toString") l); [discriminate | reflexivity].
Qed.

(** What [replaceFromObject] answers: the TypeError of the conversion for
    an array or object that does not convert; the placeholder wrapper for a
    value that [==] finds equal to an infinity or to [null] and for an
    arbitrary-precision integer; the value itself otherwise.  No value is
    [==] to not-a-number. *)
Lemma replaceFromObject_cases (key : jsstring) (value : jsvalue) :
  replaceFromObject key value
  = if converts value then
      if replaced value
      then Ok (placeholder (if loose_eq value VNull then js "null" else to_string value))
      else Ok value
    else Throw cannot_convert.
Proof.
  unfold replaceFromObject, MAPPINGS, replaceFromObject_loop, replaced.
  cbn [mapper_type isString negb andb].
  rewrite !IsLooselyEqual_number, IsLooselyEqual_null, loose_eq_nan.
  destruct (converts value) eqn:Hc; [|reflexivity]. cbn [bind].
  assert (Hwrap : (text <- (if loose_eq value VNull then Ok (js "null")
                            else toString_method value) ;;
                   Ok (VObject [(replacement_key, VString text)]))
                  = Ok (placeholder (if loose_eq value VNull then js "null"
                                     else to_string value))).
  { destruct (loose_eq value VNull) eqn:Hn; [reflexivity|].
    now rewrite toString_method_converts. }
  rewrite !orb_false_r, !Hwrap.
  replace (match value with VUndefined | VNull => true | _ => false end)
    with (loose_eq value VNull) by (destruct value as [| |[|]|y|z|s|l|l]; reflexivity).
  destruct (loose_eq value (VNumber NegInfinity)); cbn [orb bind]; [reflexivity|].
  destruct (loose_eq value (VNumber Infinity)); cbn [orb bind]; [reflexivity|].
  destruct (loose_eq value VNull); cbn [orb bind]; [reflexivity|].
  destruct value as [| |b|y|z|s|l|l]; reflexivity.
Qed.

(** The three steps of the callback of [stringify]. *)
Lemma full_replacer_steps (replacer : argument) (key : jsstring) (value : jsvalue) :
  full_replacer replacer key value
  = match replacer with
    | Data (VArray allow_list) =>
        if existsb (strict_eq (VString key)) allow_list
        then replaceFromObject key value
        else Ok VUndefined
    | Callable transform =>
        transformed <- transform key value ;;
        replaceFromObject key transformed
    | Data _ => replaceFromObject key value
    end.
Proof.
  unfold full_replacer.
  destruct replacer as [f|v]; cbn [isArray isFunction andb call]; [reflexivity|].
  destruct v; cbn [isArray andb indexOf_is_minus_one bind]; try reflexivity.
  destruct (existsb (strict_eq (VString key)) elements); reflexivity.
Qed.

(** The Extended Values, which the table of the specification matches. *)
Lemma substitute_placeholder_extended (value : jsvalue) :
  substitute_placeholder value
  = match value with
    | VNull | VBigInt _ | VNumber S754_nan | VNumber (S754_infinity _) =>
        placeholder (canonical_text value)
    | _ => value
    end.
Proof.
  destruct value as [| |b|x|z|s|l|l]; try reflexivity.
  destruct x as [s|s| |s m e]; try destruct s; reflexivity.
Qed.

(** Steps (1) and (2) are those of the specification, and so is step (3)
    on every Number but not-a-number, on the arbitrary-precision integers,
    the Booleans and the explicit null, and on the strings, arrays and
    objects that convert to a primitive which is not equal to an
    infinity. *)
Lemma replaceFromObject_is_substitution (key : jsstring) (value : jsvalue) :
  match value with
  | VUndefined | VNumber S754_nan => False
  | VString _ | VArray _ | VObject _ => converts value = true /\ replaced value = false
  | _ => True
  end ->
  replaceFromObject key value = Ok (substitute_placeholder value).
Proof.
  intros H. rewrite replaceFromObject_cases, substitute_placeholder_extended.
  destruct value as [| |b|x|z|s|l|l]; try contradiction; try reflexivity.
  - destruct b; reflexivity.
  - destruct x as [s|s| |s m e]; try contradiction; try destruct s; reflexivity.
  - destruct H as [-> ->]. reflexivity.
  - destruct H as [-> ->]. reflexivity.
  - destruct H as [-> ->]. reflexivity.
Qed.

(** Where the callback and the reduction differ besides: [undefined] and
    a string that spells an infinity match no entry of the table and are
    wrapped by the code; an object with a property [toString] makes the
    test of the code throw. *)
Lemma callback_and_reduction_differ (key : jsstring) :
  full_replacer absent key VUndefined = Ok (placeholder (js "null"))
  /\ reduction absent key VUndefined = Ok VUndefined
  /\ full_replacer absent key (VString (js "Infinity")) = Ok (placeholder (js "Infinity"))
  /\ reduction absent key (VString (js "Infinity")) = Ok (VString (js "Infinity"))
  /\ full_replacer absent key (VObject [(js "toString", VNumber (number_of_Z 1))])
     = Throw cannot_convert
  /\ reduction absent key (VObject [(js "toString", VNumber (number_of_Z 1))])
     = Ok (VObject [(js "toString", VNumber (number_of_Z 1))]).
Proof. repeat split; reflexivity. Qed.

(** C8 fails at step (3) on not-a-number.  The table holds an entry for
    not-a-number, so the reduction of the specification, which tests the
    value against the entries in order, replaces not-a-number by the
    placeholder wrapper of the text [NaN].  The callback of the code tests
    with [==], which no value passes against not-a-number: it answers the
    value unchanged under every key, and the host writes [null] for it. *)
Theorem nan_passes_the_callback (key : jsstring) :
  full_replacer absent key (VNumber NaN) = Ok (VNumber NaN)
  /\ reduction absent key (VNumber NaN) = Ok (placeholder (js "NaN"))
  /\ stringify v8 (VObject [(js "a", VNumber NaN)]) absent VUndefined
     = Ok (VString (jq "{'a':null}")).
Proof. repeat split; vm_compute; reflexivity. Qed.

(** Unfolds an engine whose stack holds at least [n] frames and computes. *)
Tactic Notation "with_stack" ident(E) ident(H) integer(n) :=
  destruct E as [depth msg]; cbn [stack_depth] in H;
  do n (destruct depth as [|depth]; [lia|]);
  clear H; vm_compute; reflexivity.

(** A field dropped by the callback leaves no text in its object. *)
Lemma dropped_field_is_absent (E : engine) :
  (2 <= stack_depth E)%nat ->
  stringify E (VObject [(js "a", VNumber (number_of_Z 1)); (js "b", VNumber (number_of_Z 2))])
    (Data (VArray [VString []; VString (js "a")])) VUndefined
  = Ok (VString (jq "{'a':1}")).
Proof. intros H. with_stack E H 2. Qed.

(** ** Round trips *)

(** C1 fails on not-a-number: no value is loosely equal to NaN, so the
    encoder leaves NaN to the host, which writes [null]; decoding gives
    the explicit null. *)
Theorem roundtrip_nan_is_null (E : engine) :
  (1 <= stack_depth E)%nat ->
  stringify E (VNumber NaN) absent VUndefined = Ok (VString (js "null"))
  /\ decode_encode E (VNumber NaN) = Ok VNull.
Proof. intros H. split; with_stack E H 1. Qed.

Lemma roundtrip_nan_is_null_witness :
  (1 <= stack_depth spidermonkey)%nat
  /\ stringify spidermonkey (VNumber NaN) absent VUndefined = Ok (VString (js "null"))
  /\ decode_encode spidermonkey (VNumber NaN) = Ok VNull.
Proof.
  split; [vm_compute; lia|].
  apply (roundtrip_nan_is_null spidermonkey). vm_compute. lia.
Defined.

(** The explicit null does make the round trip. *)
Lemma roundtrip_null (E : engine) :
  (2 <= stack_depth E)%nat -> decode_encode E VNull = Ok VNull.
Proof. intros H. with_stack E H 2. Qed.

(** An infinity is loosely equal to the text of its own placeholder: the
    callback wraps the payload of the wrapper again, at every depth, and
    the encoder ends with the stack of the host. *)
Lemma payload_of_infinity_overflows (negative : bool) (depth : nat) :
  forall gap indent key,
    serialize depth (full_replacer absent) gap indent key
      (VString (number_toString (S754_infinity negative)))
    = Throw stack_overflow.
Proof.
  induction depth as [|depth IH]; intros gap indent key; [reflexivity|].
  cbn [serialize].
  replace (full_replacer absent key (VString (number_toString (S754_infinity negative))))
    with (Ok (placeholder (number_toString (S754_infinity negative))))
    by (destruct negative; reflexivity).
  cbn [bind placeholder]. rewrite IH. reflexivity.
Qed.

Lemma stringify_infinity_overflows (E : engine) (negative : bool) :
  stringify E (VNumber (S754_infinity negative)) absent VUndefined = Throw stack_overflow.
Proof.
  unfold stringify, language_stringify, JSON_stringify.
  destruct (stack_depth E) as [|depth]; [reflexivity|].
  cbn [serialize].
  replace (full_replacer absent [] (VNumber (S754_infinity negative)))
    with (Ok (placeholder (number_toString (S754_infinity negative))))
    by (destruct negative; reflexivity).
  cbn [bind placeholder]. rewrite payload_of_infinity_overflows. reflexivity.
Qed.

(** An arbitrary-precision integer is written without a space before it
    and comes back as a Number, rounded. *)
Lemma roundtrip_bigint_is_number (E : engine) :
  (2 <= stack_depth E)%nat ->
  stringify E (VBigInt 12345678901234567890) absent VUndefined
  = Ok (VString (js "12345678901234567890"))
  /\ decode_encode E (VBigInt 12345678901234567890)
     = Ok (VNumber (number_of_Z 12345678901234567168)).
Proof. intros H. split; with_stack E H 2. Qed.

(** The text [-Infinity] cannot be decoded: the expression for [Infinity]
    matches inside the placeholder written for [-Infinity]. *)
Lemma negative_infinity_rewritten_twice :
  replaceFromString (js "-Infinity")
  = jq "{'fprime{replacement': '-{'fprime{replacement': 'Infinity'}'}".
Proof. reflexivity. Qed.

(** ** The decoder *)

(** C9 fails on the text [[null, null]]: the rewritten text is valid JSON,
    but only the first [null] was wrapped; the reviver reads the
    placeholder key of the second, a null of the host, and the decoder
    ends with a TypeError. *)
Theorem parse_throws_on_second_null (E : engine) :
  json_text (processUnquoted (jq "[null, null]") replaceFromString)
  = Parsed (VArray [placeholder (js "null"); VNull]) []
  /\ parse E (jq "[null, null]") absent
     = Throw (TypeError (js "Cannot read properties of null (reading 'fprime{replacement')")).
Proof. split; vm_compute; reflexivity. Qed.

(** One [null] in a segment is decoded. *)
Lemma parse_one_null (E : engine) :
  parse E (jq "{'a': null, 'b': null}") absent
  = Ok (VObject [(js "a", VNull); (js "b", VNull)]).
Proof. vm_compute. reflexivity. Qed.

(** ** Digit runs *)

(** A literal with a code unit that the text lacks is found nowhere in
    it. *)
Lemma exec_literal_none (literal s : jsstring) (c : code_unit) :
  In c literal -> ~ In c s -> exec (Group (Chars literal)) s = None.
Proof.
  intros Hlit Hs. induction s as [|d s IH]; cbn [exec match_here].
  - destruct (strip_prefix literal []) eqn:H; [|reflexivity].
    apply strip_prefix_some in H. destruct literal; [destruct Hlit | discriminate].
  - destruct (strip_prefix literal (d :: s)) eqn:H.
    + apply strip_prefix_some in H. exfalso. apply Hs. rewrite H.
      apply in_or_app. now left.
    + rewrite IH; [reflexivity|]. intros Hin. apply Hs. now right.
Qed.

Lemma span_all (cls : code_unit -> bool) (s : jsstring) :
  forallb cls s = true -> span cls s = (s, []).
Proof.
  induction s as [|c s IH]; cbn; [reflexivity|].
  destruct (cls c); [|discriminate]. cbn. intros H. now rewrite IH.
Qed.

Lemma digit_is (c : code_unit) :
  is_digit c = true -> (48 <= c <= 57)%N.
Proof. unfold is_digit. rewrite andb_true_iff, !N.leb_le. tauto. Qed.

Lemma digits_lack (digits : jsstring) (c : code_unit) :
  forallb is_digit digits = true -> (c < 48 \/ 57 < c)%N -> ~ In c digits.
Proof.
  rewrite forallb_forall. intros H Hc Hin. apply H, digit_is in Hin. lia.
Qed.

Lemma digit_run_lacks (negative : bool) (digits : jsstring) (c : code_unit) :
  forallb is_digit digits = true -> (57 < c)%N -> ~ In c (digit_run negative digits).
Proof.
  intros H Hc Hin. unfold digit_run in Hin.
  apply in_app_or in Hin as [Hin|Hin]; [cbn in Hin; lia|].
  apply in_app_or in Hin as [Hin|Hin].
  - destruct negative; cbn in Hin; lia.
  - revert Hin. apply digits_lack; [assumption | lia].
Qed.



Lemma replace_none (s : jsstring) (r : regex) (template : jsstring) :
  exec r s = None -> replace s r template = s.
Proof. unfold replace. now intros ->. Qed.

Lemma replace_some (s : jsstring) (r : regex) (template : jsstring)
  (b w a : jsstring) (g : list jsstring) :
  exec r s = Some {| before := b; whole := w; captures := g; after := a |} ->
  replace s r template
  = b ++ substitute template {| before := b; whole := w; captures := g; after := a |} ++ a.
Proof. unfold replace. now intros ->. Qed.

Lemma replaceFromString_steps (s : jsstring) :
  replaceFromString s
  = replace (replace (replace (replace (replace s
      (Group (Chars (js "-Infinity"))) wrapper_template)
      (Group (Chars (js "Infinity"))) wrapper_template)
      (Group (Chars (js "NaN"))) wrapper_template)
      (Group (Chars (js "null"))) wrapper_template)
      digit_pattern wrapper_template.
Proof. reflexivity. Qed.



(** A text without double quotes is one unquoted segment. *)
Lemma processUnquoted_unquoted (f : jsstring -> jsstring) (s : jsstring) :
  s <> [] -> ~ In quote_mark s -> processUnquoted s f = f s.
Proof.
  intros Hne Hq. rewrite processUnquoted_scan. unfold scan.
  destruct s as [|c r]; [congruence|]. simp scan_loop. cbv zeta.
  rewrite rest_after_section_cons.
  destruct (section_of_text (c :: r)) as [(body & post & Hs & _)|(_ & Hsec & Hrest)].
  - exfalso. apply Hq. rewrite Hs. apply in_or_app. right. now left.
  - rewrite Hsec, Hrest. simp scan_loop. cbn. apply app_nil_r.
Qed.

Lemma string_body_plain (s rest : jsstring) :
  forallb plain s = true -> string_body (s ++ quote_mark :: rest) = Parsed s rest.
Proof.
  induction s as [|c s IH]; intros H.
  - reflexivity.
  - cbn in H. apply andb_true_iff in H as [Hc Hs].
    unfold plain in Hc. apply andb_true_iff in Hc as [Hc H32].
    apply andb_true_iff in Hc as [Hq Hb].
    apply negb_true_iff in Hq, Hb, H32.
    cbn [app string_body]. rewrite Hq.
    change (is_char "\" c) with (unit_eqb c backslash). rewrite Hb, H32.
    now rewrite IH.
Qed.


(** Steps of the host through the text of a placeholder wrapper. *)
Lemma json_value_object (fuel : nat) (r : jsstring) :
  json_value (S fuel) (123%N :: quote_mark :: r) = json_members fuel (quote_mark :: r) [].
Proof. reflexivity. Qed.

Lemma json_value_string (fuel : nat) (s : jsstring) :
  json_value (S fuel) (32%N :: quote_mark :: s) = parsed_map VString (string_body s).
Proof. reflexivity. Qed.

Lemma json_members_single (fuel : nat) (s r2 r4 k : jsstring) (v : jsvalue) :
  string_body s = Parsed k (58%N :: r2) ->
  json_value fuel r2 = Parsed v (125%N :: r4) ->
  json_members (S fuel) (quote_mark :: s) [] = Parsed (VObject (set_property k v [])) r4.
Proof.
  intros Hk Hv. cbn [json_members skip_space is_json_space quote_mark].
  change (unit_eqb 34%N quote_mark) with true. cbv iota. rewrite Hk.
  cbn [skip_space is_json_space]. change (is_char ":" 58%N) with true. cbv iota.
  rewrite Hv. reflexivity.
Qed.

Lemma wrapper_text_units (payload : jsstring) :
  jq "{'fprime{replacement': '" ++ payload ++ jq "'}"
  = 123%N :: quote_mark
    :: (replacement_key ++ quote_mark :: 58%N :: 32%N :: quote_mark
        :: (payload ++ quote_mark :: [125%N])).
Proof. vm_compute. reflexivity. Qed.



Lemma full_reviver_absent (key : jsstring) (value : jsvalue) :
  full_reviver absent key value = reviver key value.
Proof.
  unfold full_reviver, absent. cbn [truthy call].
  destruct (reviver key value); reflexivity.
Qed.

Lemma reviver_string (key payload : jsstring) :
  reviver key (VString payload) = Ok (VString payload).
Proof. reflexivity. Qed.


Lemma trim_start_stops (c : code_unit) (s : jsstring) :
  is_white_space c = false -> trim_start (c :: s) = c :: s.
Proof. intros H. cbn. now rewrite H. Qed.

Lemma digit_not_white (c : code_unit) : is_digit c = true -> is_white_space c = false.
Proof.
  intros H. apply digit_is in H. unfold is_white_space.
  destruct c as [|p]; [lia|].
  do 6 (destruct p as [p|p|]; try reflexivity; try lia).
Qed.

Lemma trim_end_stops (s : jsstring) (c : code_unit) :
  is_white_space c = false -> trim_end (s ++ [c]) = s ++ [c].
Proof.
  intros H. unfold trim_end. rewrite rev_unit, trim_start_stops by assumption.
  change (c :: rev s) with ([c] ++ rev s). rewrite rev_app_distr, rev_involutive.
  reflexivity.
Qed.

Lemma minus_not_white : is_white_space 45%N = false.
Proof. reflexivity. Qed.

Lemma trim_literal (negative : bool) (digits : jsstring) :
  forallb is_digit digits = true -> digits <> [] ->
  trim (literal negative digits) = literal negative digits.
Proof.
  intros Hd Hne. unfold trim, literal.
  destruct (exists_last Hne) as (ds & c & ->).
  assert (Hc : is_white_space c = false).
  { apply digit_not_white. rewrite forallb_app in Hd.
    apply andb_true_iff in Hd as [_ Hd]. cbn in Hd. now rewrite andb_true_r in Hd. }
  assert (Hstart : trim_start (minus_text negative ++ ds ++ [c])
                   = minus_text negative ++ ds ++ [c]).
  { destruct negative; [apply trim_start_stops, minus_not_white|].
    cbn [minus_text app]. destruct ds as [|d ds]; cbn [app].
    - now apply trim_start_stops.
    - apply trim_start_stops, digit_not_white. cbn in Hd.
      now apply andb_true_iff in Hd as [Hd _]. }
  rewrite Hstart, app_assoc. now apply trim_end_stops.
Qed.

Lemma trim_digit_run (negative : bool) (digits : jsstring) :
  forallb is_digit digits = true -> digits <> [] ->
  trim (digit_run negative digits) = literal negative digits.
Proof.
  intros Hd Hne. unfold digit_run.
  change (trim (js " " ++ minus_text negative ++ digits))
    with (trim_end (trim_start (literal negative digits))).
  now apply trim_literal.
Qed.

Lemma BigInt_literal (negative : bool) (digits : jsstring) :
  forallb is_digit digits = true -> digits <> [] ->
  BigInt (literal negative digits) = Ok (VBigInt (signed negative (decimal_value digits))).
Proof.
  intros Hd Hne. unfold BigInt, StringToBigInt. rewrite trim_literal by assumption.
  unfold literal. destruct negative; cbn [minus_text app signed].
  - change (js "-" ++ digits) with (45%N :: digits). cbn [split_sign].
    change (is_char "-" 45%N) with true. cbv iota.
    destruct digits as [|d ds]; [congruence|]. now rewrite Hd.
  - destruct digits as [|d ds]; [congruence|]. cbn [split_sign].
    assert (Hd0 : (48 <= d <= 57)%N).
    { cbn in Hd. apply andb_true_iff in Hd as [Hd _]. now apply digit_is. }
    unfold is_char. destruct (N.eqb_spec d (N_of_ascii "-")); [cbn in *; lia|].
    destruct (N.eqb_spec d (N_of_ascii "+")); [cbn in *; lia|].
    now rewrite Hd.
Qed.

(** The converter on a digit run: the Number of the literal when its text
    comes back from it, else the integer of its digits. *)
Lemma convertInt_digit_run (negative : bool) (digits : jsstring) :
  forallb is_digit digits = true -> digits <> [] ->
  convertInt (VString (digit_run negative digits))
  = if jsstring_eqb (literal negative digits)
         (number_toString (parseInt (literal negative digits)))
    then Ok (VNumber (parseInt (literal negative digits)))
    else Ok (VBigInt (signed negative (decimal_value digits))).
Proof.
  intros Hd Hne. unfold convertInt. rewrite trim_digit_run by assumption.
  change (loose_eq (VString ?a) (VString ?b)) with (jsstring_eqb a b).
  destruct (jsstring_eqb _ _); [reflexivity|]. now apply BigInt_literal.
Qed.


(** Both outcomes of the converter occur after a space. *)
Lemma digit_run_examples (E : engine) :
  parse E (jq "[1, 12345678901234567890]") absent
  = Ok (VArray [VNumber (number_of_Z 1); VBigInt 12345678901234567890])
  /\ parse E (jq "{'a': -9007199254740993}") absent
     = Ok (VObject [(js "a", VBigInt (-9007199254740993))])
  /\ parse E (jq "{'a': 1234567890}") absent
     = Ok (VObject [(js "a", VNumber (number_of_Z 1234567890))]).
Proof. repeat split; vm_compute; reflexivity. Qed.


(** *** A digit run inside a segment *)

Lemma span_app (cls : code_unit -> bool) (a b : jsstring) :
  forallb cls a = true -> hd_error b = None \/ (exists c, hd_error b = Some c /\ cls c = false) ->
  span cls (a ++ b) = (a, b).
Proof.
  intros Ha Hb. induction a as [|c a IH]; cbn [app].
  - destruct b as [|c b]; [reflexivity|].
    destruct Hb as [Hb|(c' & [= <-] & Hc)]; [discriminate|]. cbn. now rewrite Hc.
  - cbn in Ha. apply andb_true_iff in Ha as [Hc Ha]. cbn. now rewrite Hc, IH.
Qed.

Lemma substitute_wrapper_found (b w a : jsstring) :
  substitute wrapper_template {| before := b; whole := w; captures := [w]; after := a |}
  = jq "{'fprime{replacement': '" ++ w ++ jq "'}".
Proof. vm_compute. reflexivity. Qed.

Lemma match_digit_run_app (negative : bool) (digits post : jsstring) :
  forallb is_digit digits = true -> (10 <= List.length digits)%nat ->
  hd_error post = None \/ (exists c, hd_error post = Some c /\ is_digit c = false) ->
  match_here digit_pattern (digit_run negative digits ++ post)
  = Some (digit_run negative digits, [digit_run negative digits], post).
Proof.
  intros Hd Hlen Hpost. apply Nat.leb_le in Hlen.
  pose proof (span_app is_digit digits post Hd Hpost) as Hspan.
  destruct negative; unfold digit_pattern, digit_run, minus_text.
  - cbn -[span Nat.leb]. rewrite Hspan, Hlen. reflexivity.
  - destruct digits as [|d0 ds]; [discriminate|].
    assert (H0 : (45 =? d0)%N = false).
    { cbn in Hd. apply andb_true_iff in Hd as [Hd0 _]. apply digit_is in Hd0.
      apply N.eqb_neq. lia. }
    cbn -[span Nat.leb unit_eqb]. unfold unit_eqb at 1 2. rewrite N.eqb_refl, H0.
    cbn [app] in Hspan. rewrite Hspan, Hlen. reflexivity.
Qed.

Lemma exec_digit_run_in (pre post : jsstring) (negative : bool) (digits : jsstring) :
  forallb is_digit digits = true -> (10 <= List.length digits)%nat ->
  ~ In 32%N pre ->
  hd_error post = None \/ (exists c, hd_error post = Some c /\ is_digit c = false) ->
  exec digit_pattern (pre ++ digit_run negative digits ++ post)
  = Some {| before := pre; whole := digit_run negative digits;
            captures := [digit_run negative digits]; after := post |}.
Proof.
  intros Hd Hlen Hpre Hpost. induction pre as [|c pre IH].
  - pose proof (match_digit_run_app negative digits post Hd Hlen Hpost) as H.
    cbn [app]. destruct (digit_run negative digits ++ post); cbn [exec]; now rewrite H.
  - cbn [app exec].
    assert (Hc : match_here digit_pattern (c :: pre ++ digit_run negative digits ++ post) = None).
    { unfold digit_pattern. cbn [match_here]. 
      assert (Hs : strip_prefix (js " ") (c :: pre ++ digit_run negative digits ++ post) = None).
      { change (js " ") with [32%N]. cbn [strip_prefix]. unfold unit_eqb.
        destruct (N.eqb_spec 32 c) as [<-|]; [|reflexivity].
        exfalso. apply Hpre. now left. }
      now rewrite Hs. }
    rewrite Hc, IH; [reflexivity|]. intros Hin. apply Hpre. now right.
Qed.

(** The rewriter wraps a digit run after a space wherever it stands in a
    segment that holds no other token and no space before the run. *)
Lemma replaceFromString_digit_run_in (pre post : jsstring) (negative : bool)
  (digits : jsstring) :
  forallb is_digit digits = true -> (10 <= List.length digits)%nat ->
  ~ In 32%N pre ->
  hd_error post = None \/ (exists c, hd_error post = Some c /\ is_digit c = false) ->
  (forall c, In c (pre ++ post) -> c <> 73%N /\ c <> 78%N /\ c <> 110%N) ->
  replaceFromString (pre ++ digit_run negative digits ++ post)
  = pre ++ jq "{'fprime{replacement': '" ++ digit_run negative digits ++ jq "'}" ++ post.
Proof.
  intros Hd Hlen Hpre Hpost Hfree.
  assert (Hlack : forall c, (c = 73 \/ c = 78 \/ c = 110)%N ->
                    ~ In c (pre ++ digit_run negative digits ++ post)).
  { intros c Hc Hin. apply in_app_or in Hin as [Hin|Hin].
    - destruct (Hfree c) as (? & ? & ?); [apply in_or_app; now left | lia].
    - apply in_app_or in Hin as [Hin|Hin].
      + revert Hin. apply digit_run_lacks; [assumption|lia].
      + destruct (Hfree c) as (? & ? & ?); [apply in_or_app; now right | lia]. }
  rewrite replaceFromString_steps.
  rewrite (replace_none _ (Group (Chars (js "-Infinity"))));
    [|apply (exec_literal_none _ _ 73%N); [vm_compute; tauto | apply Hlack; lia]].
  rewrite (replace_none _ (Group (Chars (js "Infinity"))));
    [|apply (exec_literal_none _ _ 73%N); [vm_compute; tauto | apply Hlack; lia]].
  rewrite (replace_none _ (Group (Chars (js "NaN"))));
    [|apply (exec_literal_none _ _ 78%N); [vm_compute; tauto | apply Hlack; lia]].
  rewrite (replace_none _ (Group (Chars (js "null"))));
    [|apply (exec_literal_none _ _ 110%N); [vm_compute; tauto | apply Hlack; lia]].
  rewrite (replace_some _ _ _ _ _ _ _
             (exec_digit_run_in pre post negative digits Hd Hlen Hpre Hpost)).
  rewrite substitute_wrapper_found, <- !app_assoc. reflexivity.
Qed.

Lemma replaceFromString_digit_run_in_example :
  replaceFromString (jq ": 12345678901234567890, '")
  = jq ":{'fprime{replacement': ' 12345678901234567890'}, '".
Proof. reflexivity. Qed.

(** *** The first run of a segment *)







(** ** Errors of the decoder *)

(** C7 fails on the text [{'a': ,}] (apostrophes for double quotes), which
    the rewriter leaves as it is:
    SpiderMonkey reports line 1, column 7, and the snippet is cut off at
    both ends of a line of 8 code units; it holds 7 of them, not 11. *)
Lemma snippet_shorter_than_eleven :
  processUnquoted (jq "{'a': ,}") replaceFromString = jq "{'a': ,}"
  /\ parse spidermonkey (jq "{'a': ,}") absent
     = Throw (SyntaxError
         (js "SyntaxError: JSON.parse: unexpected character at line 1 column 7 of the JSON data. Offending snippet: "
          ++ jq "'a': ,}"))
  /\ List.length (jq "{'a': ,}") = 8%nat
  /\ List.length (jq "'a': ,}") = 7%nat.
Proof. repeat split; vm_compute; reflexivity. Qed.

(** Away from the ends of the line the snippet has 11 code units, five on
    each side of the reported column, and they are those of the rewritten
    text: in the text given to the decoder column 52 lies elsewhere. *)
Lemma snippet_of_rewritten_text :
  parse spidermonkey (jq "{'value': null, 'other': , 'more': 12}") absent
  = Throw (SyntaxError
      (js "SyntaxError: JSON.parse: unexpected character at line 1 column 52 of the JSON data. Offending snippet: "
       ++ jq "er': , 'mor")).
Proof. vm_compute. reflexivity. Qed.

(** A host that reports no line and column: its error goes through
    unchanged. *)
Lemma error_without_position_is_kept :
  parse v8 (jq "{'a': ,}") absent
  = Throw (SyntaxError (js "Unexpected token in JSON at position 6")).
Proof. vm_compute. reflexivity. Qed.

Lemma substring_length_bound (line : jsstring) (column : Z) :
  (List.length (substring line (column - 6) (column + 5)) <= 11)%nat.
Proof.
  unfold substring, clamp. rewrite length_firstn. lia.
Qed.

Lemma substring_inside (line : jsstring) (column : Z) :
  6 <= column -> column + 5 <= jslength line ->
  substring line (column - 6) (column + 5)
  = firstn 11 (skipn (Z.to_nat (column - 6)) line).
Proof.
  intros Hlo Hhi. unfold substring, clamp.
  replace (Z.min (Z.min (Z.max (column - 6) 0) (jslength line))
             (Z.min (Z.max (column + 5) 0) (jslength line))) with (column - 6) by lia.
  f_equal. lia.
Qed.

(** C7, amended. When the host rejects the rewritten text with an error
    whose text holds [line L column C], and the rewritten text has a line
    L, the decoder fails with a SyntaxError whose message is the text of
    that error, [. Offending snippet: ] and the part of line L of the
    rewritten text from position C - 6 up to position C + 5, cut off at
    the ends of the line: at most 11 code units, and the 11 around column
    C when the line reaches five code units to both sides of it.  When
    the text of the error holds no line and column, the error goes through
    unchanged. *)
Theorem parse_error_enrichment (E : engine) (json_string : jsstring)
  (reviver : argument) (e : error) :
  language_parse E (processUnquoted json_string replaceFromString) (full_reviver reviver)
  = Throw e ->
  enriched E json_string reviver e.
Proof.
  intros H. unfold enriched, parse. rewrite H.
  cbn [try_catch]. unfold parse_catch.
  destruct (exec matcher (error_toString e)) as [found|]; [|reflexivity].
  cbv zeta. intros line Hline. rewrite Hline.
  split; [reflexivity|]. split.
  - apply substring_length_bound.
  - apply substring_inside.
Qed.

Lemma parse_error_enrichment_witness :
  language_parse spidermonkey (processUnquoted (jq "{'a': ,}") replaceFromString)
    (full_reviver absent)
  = Throw (SyntaxError
      (js "JSON.parse: unexpected character at line 1 column 7 of the JSON data"))
  /\ enriched spidermonkey (jq "{'a': ,}") absent
       (SyntaxError
          (js "JSON.parse: unexpected character at line 1 column 7 of the JSON data")).
Proof.
  split; [vm_compute; reflexivity|].
  apply (parse_error_enrichment spidermonkey (jq "{'a': ,}") absent).
  vm_compute. reflexivity.
Defined.

(** ** The big-integer converter *)

Lemma loose_eq_strings (a b : jsstring) :
  loose_eq (VString a) (VString b) = jsstring_eqb a b.
Proof. reflexivity. Qed.

(** The three steps of the converter. *)
Lemma convertInt_steps (string_value : jsstring) :
  convertInt (VString string_value)
  = if jsstring_eqb (trim string_value) (number_toString (parseInt (trim string_value)))
    then Ok (VNumber (parseInt (trim string_value)))
    else BigInt (trim string_value).
Proof. unfold convertInt. now rewrite loose_eq_strings. Qed.

(** The converter answers a Number exactly when the text of that Number is
    the trimmed input, and then that Number is the native parse. *)
Lemma convertInt_number (string_value : jsstring) (x : number) :
  convertInt (VString string_value) = Ok (VNumber x)
  <-> number_toString (parseInt (trim string_value)) = trim string_value
      /\ x = parseInt (trim string_value).
Proof.
  rewrite convertInt_steps.
  destruct (jsstring_eqb _ _) eqn:Heq.
  - apply jsstring_eqb_eq in Heq. split.
    + intros [= <-]. now split.
    + intros [_ ->]. reflexivity.
  - split.
    + unfold BigInt. destruct (StringToBigInt _); discriminate.
    + intros [H _]. symmetry in H. apply jsstring_eqb_eq in H. congruence.
Qed.

(** Otherwise it answers what [BigInt] makes of the trimmed input. *)
Lemma convertInt_bigint (string_value : jsstring) :
  number_toString (parseInt (trim string_value)) <> trim string_value ->
  convertInt (VString string_value) = BigInt (trim string_value).
Proof.
  intros H. rewrite convertInt_steps.
  destruct (jsstring_eqb _ _) eqn:Heq; [|reflexivity].
  apply jsstring_eqb_eq in Heq. congruence.
Qed.

Lemma convertInt_examples :
  convertInt (VString (js " 1234567890")) = Ok (VNumber (number_of_Z 1234567890))
  /\ convertInt (VString (js " 9999999999")) = Ok (VNumber (number_of_Z 9999999999))
  /\ convertInt (VString (js " 2147483648")) = Ok (VNumber (number_of_Z 2147483648))
  /\ convertInt (VString (js " 9007199254740992")) = Ok (VNumber (number_of_Z 9007199254740992))
  /\ convertInt (VString (js " 9007199254740993")) = Ok (VBigInt 9007199254740993)
  /\ convertInt (VString (js " 0000000001")) = Ok (VBigInt 1).
Proof. repeat split; vm_compute; reflexivity. Qed.

(** ** Decimal numerals *)

Lemma digit_unit_value (c : code_unit) :
  is_digit c = true -> digit_unit (digit_value c) = c.
Proof. intros H. apply digit_is in H. unfold digit_unit, digit_value. lia. Qed.

Lemma digit_value_range (c : code_unit) :
  is_digit c = true -> 0 <= digit_value c < 10.
Proof. intros H. apply digit_is in H. unfold digit_value. lia. Qed.

Lemma digits_value_acc (radix : Z) (value_of : code_unit -> Z) (s : jsstring) (acc : Z) :
  fold_left (fun a c => a * radix + value_of c) s acc
  = acc * radix ^ Z.of_nat (List.length s) + digits_value radix value_of s.
Proof.
  unfold digits_value. revert acc. induction s as [|c s IH]; intros acc.
  - cbn. lia.
  - cbn [fold_left List.length]. rewrite IH, (IH (0 * radix + value_of c)).
    rewrite Nat2Z.inj_succ, Z.pow_succ_r by lia. ring.
Qed.

Lemma decimal_value_snoc (s : jsstring) (c : code_unit) :
  decimal_value (s ++ [c]) = decimal_value s * 10 + digit_value c.
Proof. unfold decimal_value, digits_value. now rewrite fold_left_app. Qed.

Lemma decimal_value_cons (c : code_unit) (s : jsstring) :
  decimal_value (c :: s) = digit_value c * 10 ^ Z.of_nat (List.length s) + decimal_value s.
Proof.
  unfold decimal_value at 1. unfold digits_value. cbn [fold_left].
  rewrite digits_value_acc. fold (decimal_value s). ring.
Qed.

Lemma decimal_value_range (s : jsstring) :
  forallb is_digit s = true -> 0 <= decimal_value s < 10 ^ Z.of_nat (List.length s).
Proof.
  induction s as [|c s IH]; intros H.
  - cbn. lia.
  - cbn in H. apply andb_true_iff in H as [Hc Hs]. specialize (IH Hs).
    apply digit_value_range in Hc. rewrite decimal_value_cons.
    cbn [List.length]. rewrite Nat2Z.inj_succ, Z.pow_succ_r by lia. nia.
Qed.

(** A numeral without a leading zero is at least the power of ten of its
    length. *)
Lemma decimal_value_lower (c : code_unit) (s : jsstring) :
  forallb is_digit (c :: s) = true -> c <> 48%N ->
  10 ^ Z.of_nat (List.length s) <= decimal_value (c :: s).
Proof.
  intros H Hc. cbn in H. apply andb_true_iff in H as [Hd Hs].
  pose proof (decimal_value_range s Hs). rewrite decimal_value_cons.
  apply digit_is in Hd. unfold digit_value.
  assert (1 <= Z.of_N c - 48) by lia.
  assert (0 < 10 ^ Z.of_nat (List.length s)) by (apply Z.pow_pos_nonneg; lia). nia.
Qed.

Lemma decimal_loop_acc (fuel : nat) (z : Z) (acc : jsstring) :
  decimal_loop fuel z acc = decimal_loop fuel z [] ++ acc.
Proof.
  revert z acc. induction fuel as [|fuel IH]; intros z acc; cbn [decimal_loop]; [reflexivity|].
  destruct (z <? 10); [reflexivity|].
  rewrite IH, (IH _ [_]), <- app_assoc. reflexivity.
Qed.

(** The fuel of [decimal] does not matter once it covers the digits. *)
Lemma decimal_loop_fuel (f1 f2 : nat) (z : Z) (acc : jsstring) :
  0 <= z -> z < 10 ^ Z.of_nat (S f1) -> z < 10 ^ Z.of_nat (S f2) ->
  decimal_loop (S f1) z acc = decimal_loop (S f2) z acc.
Proof.
  revert f2 z acc. induction f1 as [|f1 IH]; intros f2 z acc Hz H1 H2.
  - cbn [decimal_loop]. cbn in H1. destruct (Z.ltb_spec z 10); [reflexivity|lia].
  - cbn [decimal_loop]. destruct (Z.ltb_spec z 10) as [Hlt|Hge]; [reflexivity|].
    destruct f2 as [|f2]; [cbn in H2; lia|].
    change (decimal_loop (S f1) (z / 10) (digit_unit (z mod 10) :: acc)
            = decimal_loop (S f2) (z / 10) (digit_unit (z mod 10) :: acc)).
    rewrite !Nat2Z.inj_succ, !Z.pow_succ_r in H1, H2 by lia.
    apply IH.
    + apply Z.div_pos; lia.
    + rewrite Nat2Z.inj_succ, Z.pow_succ_r by lia. apply Z.div_lt_upper_bound; lia.
    + rewrite Nat2Z.inj_succ, Z.pow_succ_r by lia. apply Z.div_lt_upper_bound; lia.
Qed.

Lemma decimal_fuel_enough (z : Z) :
  0 <= z -> z < 10 ^ Z.of_nat (S (Z.to_nat (Z.log2 z))).
Proof.
  intros Hz. destruct (Z.eq_dec z 0) as [->|Hne]; [cbn; lia|].
  pose proof (Z.log2_nonneg z).
  rewrite Nat2Z.inj_succ, Z2Nat.id by lia.
  destruct (Z.log2_spec z ltac:(lia)) as [_ Hlt].
  apply Z.lt_le_trans with (1 := Hlt).
  apply Z.pow_le_mono_l. lia.
Qed.

Lemma decimal_step (v d : Z) :
  0 < v -> 0 <= d < 10 -> decimal (10 * v + d) = decimal v ++ [digit_unit d].
Proof.
  intros Hv Hd. unfold decimal at 1.
  cbn [decimal_loop]. destruct (Z.ltb_spec (10 * v + d) 10) as [Hlt|_]; [lia|].
  replace ((10 * v + d) / 10) with v by (apply Z.div_unique with d; lia).
  replace ((10 * v + d) mod 10) with d by (apply Z.mod_unique with v; lia).
  rewrite decimal_loop_acc. f_equal. unfold decimal.
  assert (Hlog : 0 < Z.log2 (10 * v + d)) by (apply Z.log2_pos; lia).
  destruct (Z.to_nat (Z.log2 (10 * v + d))) as [|f] eqn:Hf; [lia|].
  apply decimal_loop_fuel; [lia| |apply decimal_fuel_enough; lia].
  assert (H : 10 * v + d < 10 ^ Z.of_nat (S (S f))).
  { rewrite <- Hf. apply decimal_fuel_enough. lia. }
  rewrite (Nat2Z.inj_succ (S f)), Z.pow_succ_r in H by lia. lia.
Qed.

Lemma decimal_digit (d : Z) : 0 <= d < 10 -> decimal d = [digit_unit d].
Proof.
  intros Hd. unfold decimal. cbn [decimal_loop].
  destruct (Z.ltb_spec d 10); [|lia]. now rewrite Z.mod_small by lia.
Qed.

(** Printing the value of a numeral without a leading zero gives the
    numeral back. *)
Lemma decimal_of_value (s : jsstring) :
  forallb is_digit s = true -> hd 48%N s <> 48%N -> decimal (decimal_value s) = s.
Proof.
  induction s as [|c s IH] using rev_ind; intros H Hhd; [cbn in Hhd; congruence|].
  rewrite forallb_app in H. apply andb_true_iff in H as [Hs Hc].
  cbn in Hc. rewrite andb_true_r in Hc.
  rewrite decimal_value_snoc. destruct s as [|c0 s].
  - change (decimal_value []) with 0. rewrite Z.mul_0_l, Z.add_0_l.
    rewrite decimal_digit by now apply digit_value_range.
    now rewrite digit_unit_value.
  - cbn [hd app] in Hhd.
    pose proof (decimal_value_lower c0 s Hs Hhd) as Hlow.
    assert (0 < 10 ^ Z.of_nat (List.length s)) by (apply Z.pow_pos_nonneg; lia).
    rewrite Z.mul_comm, decimal_step; [|lia|now apply digit_value_range].
    rewrite IH by assumption. now rewrite digit_unit_value.
Qed.

Lemma zeros_succ (t : Z) : 0 <= t -> zeros (t + 1) = zeros t ++ [48%N].
Proof.
  intros Ht. unfold zeros. rewrite Z2Nat.inj_add by lia.
  change (Z.to_nat 1) with 1%nat. rewrite repeat_app. reflexivity.
Qed.

Lemma decimal_mul_pow10 (s t : Z) :
  0 < s -> 0 <= t -> decimal (s * 10 ^ t) = decimal s ++ zeros t.
Proof.
  intros Hs Ht. pattern t. apply natlike_ind; [| |exact Ht].
  - rewrite Z.mul_1_r. cbn. now rewrite app_nil_r.
  - intros n Hn IH. rewrite Z.pow_succ_r by lia.
    replace (s * (10 * 10 ^ n)) with (10 * (s * 10 ^ n) + 0) by ring.
    assert (0 < 10 ^ n) by (apply Z.pow_pos_nonneg; lia).
    rewrite decimal_step by nia. rewrite IH. unfold Z.succ.
    rewrite zeros_succ by lia. now rewrite app_assoc.
Qed.

(** ** Numbers that are exact *)

Lemma digits2_pos_size (p : positive) : digits2_pos p = Pos.size p.
Proof. induction p; cbn; congruence. Qed.

Lemma digits2_pos_log2 (p : positive) : Zpos (digits2_pos p) = Z.log2 (Zpos p) + 1.
Proof.
  rewrite digits2_pos_size. destruct p; cbn [Z.log2 Pos.size]; lia.
Qed.

Lemma digits2_pos_iter (m sh : positive) :
  digits2_pos (Pos.iter xO m sh) = (digits2_pos m + sh)%positive.
Proof.
  induction sh as [|sh IH] using Pos.peano_ind.
  - cbn. lia.
  - rewrite Pos.iter_succ. cbn [digits2_pos]. rewrite IH. lia.
Qed.

Lemma iter_xO_value (m sh : positive) :
  Zpos (Pos.iter xO m sh) = Zpos m * 2 ^ Zpos sh.
Proof.
  induction sh as [|sh IH] using Pos.peano_ind.
  - cbn. lia.
  - rewrite Pos.iter_succ, Pos2Z.inj_xO, IH, Pos2Z.inj_succ, Z.pow_succ_r by lia. ring.
Qed.

(** An integer of fewer than 53 bits is a Number: its mantissa is the
    integer shifted up to 53 bits. *)
Lemma binary_round_exact (s : bool) (v sh : positive) :
  Zpos (digits2_pos v) + Zpos sh = 53 ->
  binary_round prec emax s v 0 = S754_finite s (Pos.iter xO v sh) (Zneg sh).
Proof.
  intros H. unfold binary_round, fexp, emin, prec, emax.
  replace (Z.max (Zpos (digits2_pos v) + 0 - 53) (3 - 1024 - 53)) with (Zneg sh) by lia.
  unfold shl_align. rewrite Z.sub_0_r.
  unfold binary_round_aux, shr_fexp, fexp, emin, Zdigits2.
  rewrite digits2_pos_iter, Pos2Z.inj_add.
  replace (Z.max (Zpos (digits2_pos v) + Zpos sh + Zneg sh - 53) (3 - 1024 - 53) - Zneg sh)
    with 0 by lia.
  cbn [shr shr_record_of_loc shr_m loc_of_shr_record round_nearest_even Zdigits2].
  rewrite digits2_pos_iter, Pos2Z.inj_add.
  replace (Z.max (Zpos (digits2_pos v) + Zpos sh + Zneg sh - 53) (3 - 1024 - 53) - Zneg sh)
    with 0 by lia.
  cbn [shr shr_record_of_loc shr_m].
  destruct (Z.leb_spec (Zneg sh) (1024 - 53)); [reflexivity|lia].
Qed.

Lemma shift_of_spec (v : positive) :
  Zpos v < 2 ^ 52 -> Zpos (digits2_pos v) + Zpos (shift_of v) = 53.
Proof.
  intros H. unfold shift_of. rewrite digits2_pos_log2.
  assert (Z.log2 (Zpos v) < 52) by (apply Z.log2_lt_pow2; lia).
  rewrite Z2Pos.id; lia.
Qed.

Lemma number_of_Z_exact (negative : bool) (v : positive) :
  Zpos v < 2 ^ 52 ->
  number_of_Z (signed negative (Zpos v))
  = S754_finite negative (Pos.iter xO v (shift_of v)) (Zneg (shift_of v)).
Proof.
  intros H. unfold number_of_Z, binary_normalize.
  destruct negative; cbn [signed Z.opp]; apply binary_round_exact, shift_of_spec, H.
Qed.

(** Two integers below 2^52 with one Number are one integer. *)
Lemma exact_mantissa_inj (v w : positive) :
  Zpos v < 2 ^ 52 -> Zpos w < 2 ^ 52 ->
  Pos.eqb (Pos.iter xO v (shift_of v)) (Pos.iter xO w (shift_of w))
  && Z.eqb (Zneg (shift_of v)) (Zneg (shift_of w)) = true ->
  v = w.
Proof.
  intros Hv Hw H. apply andb_true_iff in H as [Hm He].
  apply Pos.eqb_eq in Hm. apply Z.eqb_eq in He. injection He as He.
  rewrite He in Hm. apply (f_equal Zpos) in Hm. rewrite !iter_xO_value in Hm.
  assert (0 < 2 ^ Zpos (shift_of w)) by (apply Z.pow_pos_nonneg; lia).
  apply Pos2Z.inj. nia.
Qed.

Lemma trim_start_literal (negative : bool) (digits : jsstring) :
  forallb is_digit digits = true -> trim_start (literal negative digits) = literal negative digits.
Proof.
  intros Hd. unfold literal. destruct negative; [apply trim_start_stops, minus_not_white|].
  cbn [minus_text app]. destruct digits as [|d ds]; [reflexivity|].
  apply trim_start_stops, digit_not_white. cbn in Hd.
  now apply andb_true_iff in Hd as [Hd _].
Qed.

Lemma split_sign_literal (negative : bool) (digits : jsstring) :
  forallb is_digit digits = true -> digits <> [] ->
  split_sign (literal negative digits) = (negative, negative, digits).
Proof.
  intros Hd Hne. unfold literal. destruct negative; cbn [minus_text app]; [reflexivity|].
  destruct digits as [|d ds]; [congruence|]. cbn [split_sign].
  cbn in Hd. apply andb_true_iff in Hd as [Hd _]. apply digit_is in Hd.
  unfold is_char. destruct (N.eqb_spec d (N_of_ascii "-")); [cbn in *; lia|].
  destruct (N.eqb_spec d (N_of_ascii "+")); [cbn in *; lia|]. reflexivity.
Qed.

(** The native parse of a decimal literal is the Number of its value. *)
Lemma parseInt_literal (negative : bool) (digits : jsstring) :
  forallb is_digit digits = true -> decimal_value digits <> 0 ->
  parseInt (literal negative digits)
  = number_of_Z (signed negative (decimal_value digits)).
Proof.
  intros Hd Hv.
  assert (Hne : digits <> []) by (intros ->; now apply Hv).
  unfold parseInt. rewrite trim_start_literal, split_sign_literal by assumption.
  assert (Hhex : match digits with
                 | z :: x :: r =>
                     if is_char "0" z && (is_char "x" x || is_char "X" x) then Some r else None
                 | _ => None
                 end = None).
  { destruct digits as [|z [|x r]]; try reflexivity.
    cbn in Hd. apply andb_true_iff in Hd as [_ Hd].
    apply andb_true_iff in Hd as [Hx _]. apply digit_is in Hx.
    unfold is_char. destruct (N.eqb_spec x (N_of_ascii "x")); [cbn in *; lia|].
    destruct (N.eqb_spec x (N_of_ascii "X")); [cbn in *; lia|].
    now rewrite andb_false_r. }
  rewrite Hhex, (span_all is_digit digits Hd). cbn [fst].
  destruct digits as [|d ds]; [congruence|].
  destruct (Z.eqb_spec (decimal_value (d :: ds)) 0); [contradiction|].
  now destruct negative.
Qed.

(** The Number of a decimal without fraction is the Number of its
    integer. *)
Lemma number_of_decimal_integer (s j : Z) :
  0 < s -> 0 <= j <= 9 -> number_of_decimal false s j = number_of_Z (s * 10 ^ j).
Proof.
  intros Hs Hj. unfold number_of_decimal.
  destruct (Z.eqb_spec s 0); [lia|].
  destruct (Z.ltb_spec 310 j); [lia|].
  pose proof (Z.log2_nonneg s).
  destruct (Z.ltb_spec (Z.log2 s + 1 + j) (-330)); [lia|].
  destruct (Z.leb_spec 0 j); [reflexivity|lia].
Qed.

(** ** The text of a ten-digit Number *)

(** A positive integer is a multiple of a power of ten by an integer that
    does not end in zero. *)
Lemma trailing_zeros (n : nat) :
  forall v, 0 < v < 10 ^ Z.of_nat n ->
    exists t s0, v = s0 * 10 ^ t /\ s0 mod 10 <> 0 /\ 0 <= t < Z.of_nat n /\ 0 < s0.
Proof.
  induction n as [|n IH]; intros v Hv; [cbn in Hv; lia|].
  destruct (Z.eq_dec (v mod 10) 0) as [Hmod|Hmod].
  - assert (Hdiv : v = 10 * (v / 10)) by (apply Z_div_exact_full_2; lia).
    rewrite Nat2Z.inj_succ, Z.pow_succ_r in Hv by lia.
    destruct (IH (v / 10)) as (t & s0 & Hs & Hs0 & Ht & Hpos); [lia|].
    exists (t + 1), s0. rewrite Z.pow_add_r by lia. repeat split; lia.
  - exists 0, v. rewrite Z.mul_1_r. repeat split; lia.
Qed.

Section TenDigits.

Variables (v : positive) (t s0 : Z).
Hypothesis Hv : 10 ^ 9 <= Zpos v < 10 ^ 10.
Hypothesis Hs : Zpos v = s0 * 10 ^ t.
Hypothesis Hs0 : s0 mod 10 <> 0.
Hypothesis Ht : 0 <= t < 10.

Local Abbreviation x := (S754_finite false (Pos.iter xO v (shift_of v)) (Zneg (shift_of v))).
Local Abbreviation q := (2 ^ Zpos (shift_of v)).
Local Abbreviation p := (Zpos (Pos.iter xO v (shift_of v))).

Lemma ten_below_2_52 (w : Z) : w <= 2 * 10 ^ 10 -> w < 2 ^ 52.
Proof. intros H. eapply Z.le_lt_trans; [exact H|reflexivity]. Qed.

Lemma ten_p_value : p = Zpos v * q.
Proof. apply iter_xO_value. Qed.

Lemma ten_q_pos : 0 < q.
Proof. apply Z.pow_pos_nonneg; lia. Qed.

Lemma ten_represents (j s : Z) :
  0 <= j <= 9 -> 0 < s -> s * 10 ^ j <= 2 * 10 ^ 10 ->
  represents x 10 (10 - j) s
  = (10 ^ (9 - j) <=? s) && (s <=? 10 ^ (10 - j)) && (s * 10 ^ j =? Zpos v).
Proof.
  intros Hj Hpos Hle. unfold represents.
  replace (10 - (10 - j)) with j by lia. replace (10 - j - 1) with (9 - j) by lia.
  f_equal. rewrite number_of_decimal_integer by lia.
  assert (0 < 10 ^ j) by (apply Z.pow_pos_nonneg; lia).
  destruct (s * 10 ^ j) as [|w|w] eqn:Hw; try nia.
  assert (Hw52 : Zpos w < 2 ^ 52) by (apply ten_below_2_52; lia).
  assert (Hv52 : Zpos v < 2 ^ 52) by (apply ten_below_2_52; lia).
  pose proof (number_of_Z_exact false w Hw52) as Hex. cbn [signed] in Hex. rewrite Hex.
  destruct (Z.eqb_spec (Zpos w) (Zpos v)) as [Heq|Hne].
  - injection Heq as ->. now rewrite Pos.eqb_refl, Z.eqb_refl.
  - destruct (_ && _) eqn:Hb; [|reflexivity].
    apply exact_mantissa_inj in Hb; [congruence|assumption..].
Qed.

Lemma ten_lo (j : Z) : 0 <= j -> p / (q * 10 ^ j) = Zpos v / 10 ^ j.
Proof.
  intros Hj. rewrite ten_p_value, (Z.mul_comm q).
  assert (0 < 10 ^ j) by (apply Z.pow_pos_nonneg; lia).
  pose proof ten_q_pos. apply Z.div_mul_cancel_r; lia.
Qed.

Lemma ten_candidates (j : Z) :
  0 <= j <= 9 ->
  let lo := Zpos v / 10 ^ j in
  candidates p q 10 (10 - j) = [lo; lo + 1] \/ candidates p q 10 (10 - j) = [lo + 1; lo].
Proof.
  intros Hj lo. unfold candidates. replace (10 - (10 - j)) with j by lia.
  destruct (Z.leb_spec 0 j); [|lia]. rewrite ten_lo by lia. fold lo.
  destruct (_ ?= _); [destruct (Z.even lo)|..]; auto.
Qed.

Lemma ten_lo_bounds (j : Z) :
  0 <= j <= 9 ->
  let lo := Zpos v / 10 ^ j in
  0 < lo /\ lo * 10 ^ j <= Zpos v < (lo + 1) * 10 ^ j.
Proof.
  intros Hj lo.
  assert (Hp : 0 < 10 ^ j) by (apply Z.pow_pos_nonneg; lia).
  assert (H9 : 10 ^ j <= 10 ^ 9) by (apply Z.pow_le_mono_r; lia).
  pose proof (Z.div_mod (Zpos v) (10 ^ j) ltac:(lia)) as Hdm.
  pose proof (Z.mod_pos_bound (Zpos v) (10 ^ j) Hp) as Hm.
  fold lo in Hdm. split; [|nia].
  apply Z.div_str_pos. lia.
Qed.

(** With fewer digits than the integer has, no decimal comes back to
    it. *)
Lemma ten_no_candidate (j : Z) :
  t < j <= 9 ->
  filter (represents x 10 (10 - j)) (candidates p q 10 (10 - j)) = [].
Proof.
  intros Hj. pose proof (ten_lo_bounds j ltac:(lia)) as [Hlo Hb].
  assert (Hp : 0 < 10 ^ j) by (apply Z.pow_pos_nonneg; lia).
  assert (H9 : 10 ^ j <= 10 ^ 9) by (apply Z.pow_le_mono_r; lia).
  assert (Hnot : forall s, s * 10 ^ j <> Zpos v).
  { intros s Heq. apply Hs0. rewrite Hs in Heq.
    assert (Ht0 : 0 < 10 ^ t) by (apply Z.pow_pos_nonneg; lia).
    replace j with (t + 1 + (j - t - 1)) in Heq by lia.
    rewrite !Z.pow_add_r in Heq by lia.
    assert (Hs0' : s0 = s * 10 ^ (j - t - 1) * 10) by (change (10 ^ 1) with 10 in Heq; nia).
    rewrite Hs0'. apply Z.mod_mul. lia. }
  assert (Hrep : forall s, 0 < s -> s * 10 ^ j <= 2 * 10 ^ 10 ->
                   represents x 10 (10 - j) s = false).
  { intros s Hpos Hle. rewrite ten_represents by lia.
    destruct (Z.eqb_spec (s * 10 ^ j) (Zpos v)) as [Heq|_]; [now apply Hnot in Heq|].
    apply andb_false_r. }
  destruct (ten_candidates j ltac:(lia)) as [-> | ->]; cbn [filter];
    rewrite !Hrep by nia; reflexivity.
Qed.

(** With as many digits as the integer has before its zeros, the integer
    without the zeros does. *)
Lemma ten_exact_candidate :
  exists rest,
    filter (represents x 10 (10 - t)) (candidates p q 10 (10 - t)) = s0 :: rest.
Proof.
  assert (Hp : 0 < 10 ^ t) by (apply Z.pow_pos_nonneg; lia).
  assert (Hlo : Zpos v / 10 ^ t = s0) by (rewrite Hs; apply Z.div_mul; lia).
  assert (Hcand : candidates p q 10 (10 - t) = [s0; s0 + 1]).
  { unfold candidates. replace (10 - (10 - t)) with t by lia.
    destruct (Z.leb_spec 0 t); [|lia]. rewrite ten_lo, Hlo by lia.
    assert (Hlt : 2 * p < (2 * s0 + 1) * 10 ^ t * q).
    { rewrite ten_p_value, Hs. pose proof ten_q_pos. nia. }
    apply Z.compare_lt_iff in Hlt. now rewrite Hlt. }
  assert (Hpos : 0 < s0) by nia.
  assert (Hrep : represents x 10 (10 - t) s0 = true).
  { rewrite ten_represents by lia. rewrite <- Hs, Z.eqb_refl, andb_true_r.
    apply andb_true_iff. split; apply Z.leb_le.
    - apply Z.mul_le_mono_pos_r with (10 ^ t); [lia|].
      rewrite <- Z.pow_add_r by lia. replace (9 - t + t) with 9 by lia. lia.
    - apply Z.mul_le_mono_pos_r with (10 ^ t); [lia|].
      rewrite <- Z.pow_add_r by lia. replace (10 - t + t) with 10 by lia. lia. }
  rewrite Hcand. cbn [filter]. rewrite Hrep. eauto.
Qed.

Lemma ten_shortest_loop (i : nat) :
  forall fuel k, 10 - t = k + Z.of_nat i -> 1 <= k -> (i < fuel)%nat ->
    shortest_loop fuel x p q 10 k = (10, 10 - t, s0).
Proof.
  induction i as [|i IH]; intros fuel k Hk Hk1 Hfuel;
    (destruct fuel as [|fuel]; [lia|]); cbn [shortest_loop].
  - replace k with (10 - t) by lia.
    destruct ten_exact_candidate as [rest ->].
    assert (Hp : 0 < 10 ^ t) by (apply Z.pow_pos_nonneg; lia).
    destruct (Z.eqb_spec s0 (10 ^ (10 - t))) as [Heq|_]; [|reflexivity].
    exfalso. rewrite Heq, <- Z.pow_add_r in Hs by lia.
    replace (10 - t + t) with 10 in Hs by lia. lia.
  - replace k with (10 - (10 - k)) at 1 2 by lia.
    rewrite ten_no_candidate by lia.
    apply IH; lia.
Qed.

Lemma ten_magnitude : magnitude p q = 10.
Proof.
  unfold magnitude.
  assert (HL : Z.log2 p - Z.log2 q = Z.log2 (Zpos v)).
  { rewrite ten_p_value, Z.log2_mul_pow2, Z.log2_pow2 by lia. lia. }
  rewrite HL.
  assert (H29 : 29 <= Z.log2 (Zpos v)).
  { change 29 with (Z.log2 (10 ^ 9)). apply Z.log2_le_mono. lia. }
  assert (H33 : Z.log2 (Zpos v) <= 33).
  { change 33 with (Z.log2 (10 ^ 10 - 1)). apply Z.log2_le_mono. lia. }
  assert (Hest : exists est, Z.log2 (Zpos v) * 30103 / 100000 - 2 = est /\ 6 <= est <= 7).
  { assert (Hc : Z.log2 (Zpos v) = 29 \/ Z.log2 (Zpos v) = 30 \/ Z.log2 (Zpos v) = 31
                 \/ Z.log2 (Zpos v) = 32 \/ Z.log2 (Zpos v) = 33) by lia.
    destruct Hc as [-> | [-> | [-> | [-> | ->]]]];
      [exists 6 | exists 7 | exists 7 | exists 7 | exists 7]; (split; [reflexivity|lia]). }
  destruct Hest as (est & -> & Hest).
  pose proof ten_p_value as Hp. pose proof ten_q_pos as Hq.
  assert (Hclimb : forall (i : nat) fuel n, 10 = n + Z.of_nat i -> 0 <= n -> (i < fuel)%nat ->
                     magnitude_loop fuel p q n = 10).
  { induction i as [|i IH]; intros fuel n Hn Hn0 Hfuel;
      (destruct fuel as [|fuel]; [lia|]); cbn [magnitude_loop]; unfold at_least_pow10;
      (destruct (Z.leb_spec 0 n); [|lia]).
    - replace n with 10 by lia. destruct (Z.leb_spec (q * 10 ^ 10) p); [nia|reflexivity].
    - assert (10 ^ n <= 10 ^ 9) by (apply Z.pow_le_mono_r; lia).
      destruct (Z.leb_spec (q * 10 ^ n) p); [|nia].
      apply IH; lia. }
  apply (Hclimb (Z.to_nat (10 - est))); lia.
Qed.

(** The text of the Number of a ten-digit integer is the decimal numeral
    of the integer. *)
Lemma ten_toString (negative : bool) :
  number_toString (number_of_Z (signed negative (Zpos v)))
  = minus_text negative ++ decimal (Zpos v).
Proof.
  rewrite number_of_Z_exact by (apply ten_below_2_52; lia).
  unfold number_toString, shortest.
  change (0 <=? Zneg (shift_of v)) with false. cbv iota.
  change (- Zneg (shift_of v)) with (Zpos (shift_of v)).
  rewrite ten_magnitude, (ten_shortest_loop (Z.to_nat (9 - t))) by lia.
  unfold format_number.
  destruct (Z.leb_spec (10 - t) 10); [|lia]. cbn [andb].
  change (10 <=? 21) with true. cbv iota.
  replace (10 - (10 - t)) with t by lia.
  assert (Hp : 0 < 10 ^ t) by (apply Z.pow_pos_nonneg; lia).
  rewrite Hs, decimal_mul_pow10 by nia.
  now destruct negative.
Qed.

End TenDigits.

(** A literal of ten digits without a leading zero is a Number, and the
    converter answers that Number. *)
Lemma ten_digit_literal_is_number (negative : bool) (digits : jsstring) :
  List.length digits = 10%nat -> forallb is_digit digits = true -> hd 48%N digits <> 48%N ->
  convertInt (VString (digit_run negative digits))
  = Ok (VNumber (number_of_Z (signed negative (decimal_value digits)))).
Proof.
  intros Hlen Hd Hhd.
  destruct digits as [|c s]; [discriminate|]. cbn [hd] in Hhd.
  pose proof (decimal_value_lower c s Hd Hhd) as Hlow.
  pose proof (decimal_value_range (c :: s) Hd) as Hup.
  rewrite Hlen in Hup. injection Hlen as Hlen. rewrite Hlen in Hlow.
  change (Z.of_nat 9) with 9 in Hlow. change (Z.of_nat 10) with 10 in Hup.
  rewrite convertInt_digit_run by (assumption || discriminate).
  rewrite parseInt_literal by (assumption || lia).
  destruct (decimal_value (c :: s)) as [|v|v] eqn:Hv; try lia.
  destruct (trailing_zeros 10 (Zpos v) ltac:(change (Z.of_nat 10) with 10; lia))
    as (t & s0 & Hs & Hs0 & Ht & _).
  rewrite (ten_toString v t s0) by (assumption || (change (Z.of_nat 10) with 10 in Ht; lia)).
  rewrite <- Hv, decimal_of_value by assumption.
  fold (literal negative (c :: s)). now rewrite jsstring_eqb_refl.
Qed.

(** C5 fails for want of its second case: the literals of ten digits one
    unit beyond the 32-bit integers, and the largest of ten digits, come
    back from the native parse and decode to Numbers; no literal of ten
    digits is one unit beyond exact representability, which is 2^53 + 1
    and has sixteen digits. *)
Lemma ten_digit_literals_are_exact :
  convertInt (VString (js " 2147483648")) = Ok (VNumber (number_of_Z 2147483648))
  /\ convertInt (VString (js " 4294967296")) = Ok (VNumber (number_of_Z 4294967296))
  /\ convertInt (VString (js " 9999999999")) = Ok (VNumber (number_of_Z 9999999999))
  /\ decimal (2 ^ 53 + 1) = js "9007199254740993"
  /\ ~ exists digits, List.length digits = 10%nat /\ forallb is_digit digits = true
                      /\ decimal_value digits = 2 ^ 53 + 1.
Proof.
  do 4 (split; [vm_compute; reflexivity|]).
  intros (digits & Hlen & Hd & Hv).
  pose proof (decimal_value_range digits Hd) as H. rewrite Hlen, Hv in H.
  change (Z.of_nat 10) with 10 in H. lia.
Qed.

(** C5, amended. The converter trims the payload, parses it natively and
    answers the Number exactly when the text of that Number is the trimmed
    payload, else the BigInt of the trimmed payload.  So every literal of
    ten digits without a leading zero, with or without a minus sign,
    decodes to the Number of its value; the literal of sixteen digits
    9007199254740993, one unit beyond exact representability, decodes to
    the arbitrary-precision integer, and 9007199254740992 before it to a
    Number. *)
Theorem convertInt_exact_or_big :
  (forall string_value,
     convertInt (VString string_value)
     = if jsstring_eqb (trim string_value) (number_toString (parseInt (trim string_value)))
       then Ok (VNumber (parseInt (trim string_value)))
       else BigInt (trim string_value))
  /\ (forall negative digits,
        List.length digits = 10%nat -> forallb is_digit digits = true ->
        hd 48%N digits <> 48%N ->
        convertInt (VString (digit_run negative digits))
        = Ok (VNumber (number_of_Z (signed negative (decimal_value digits)))))
  /\ convertInt (VString (js " 9007199254740993")) = Ok (VBigInt 9007199254740993)
  /\ convertInt (VString (js " 9007199254740992"))
     = Ok (VNumber (number_of_Z 9007199254740992)).
Proof.
  split; [exact convertInt_steps|].
  split; [exact ten_digit_literal_is_number|].
  split; vm_compute; reflexivity.
Qed.

Lemma convertInt_exact_or_big_witness :
  convertInt (VString (digit_run true (js "1234567890")))
  = Ok (VNumber (number_of_Z (signed true (decimal_value (js "1234567890"))))).
Proof.
  apply (proj1 (proj2 convertInt_exact_or_big) true (js "1234567890"));
    [reflexivity | reflexivity | vm_compute; lia].
Defined.

(** * Further properties of json.js *)

(** ** Sections of the scanner *)

(** The text before the first occurrence of a code unit is determined by
    the text. *)
Lemma first_occurrence_unique (q : code_unit) (a a' b b' : jsstring) :
  ~ In q a -> ~ In q a' -> a ++ q :: b = a' ++ q :: b' -> a = a' /\ b = b'.
Proof.
  revert a'. induction a as [|x a IH]; intros [|y a'] Ha Ha' H; cbn in H.
  - injection H as ->. split; reflexivity.
  - injection H as -> _. exfalso. apply Ha'. now left.
  - injection H as -> _. exfalso. apply Ha. now left.
  - injection H as -> H. destruct (IH a') as [-> ->]; trivial.
    + intros Hin. apply Ha. now right.
    + intros Hin. apply Ha'. now right.
    + split; reflexivity.
Qed.

(** One turn of the loop on a text with a double quote. *)
Lemma scan_loop_section (state : Z) (body post : jsstring) :
  ~ In quote_mark body ->
  scan_loop state (body ++ quote_mark :: post)
  = {| text := body ++ [quote_mark]; quoted := state =? QUOTED |}
    :: scan_loop (toggle state) post.
Proof.
  intros Hbody.
  destruct (body ++ quote_mark :: post) as [|c r] eqn:Hs; [now destruct body|].
  simp scan_loop. cbv zeta. rewrite rest_after_section_cons.
  destruct (section_of_text (c :: r))
    as [(body' & post' & Hs' & Hin & Hsec & Hrest)|(Hin & _)].
  - rewrite <- Hs in Hs'.
    destruct (first_occurrence_unique quote_mark body body' post post') as [<- <-]; trivial.
    now rewrite Hsec, Hrest.
  - exfalso. apply Hin. rewrite <- Hs. apply in_or_app. right. now left.
Qed.

(** One turn of the loop on a text without double quotes. *)
Lemma scan_loop_tail (state : Z) (s : jsstring) :
  s <> [] -> ~ In quote_mark s ->
  scan_loop state s = [{| text := s; quoted := state =? QUOTED |}].
Proof.
  intros Hne Hq. destruct s as [|c r]; [congruence|].
  simp scan_loop. cbv zeta. rewrite rest_after_section_cons.
  destruct (section_of_text (c :: r)) as [(body & post & Hs & _)|(_ & Hsec & Hrest)].
  - exfalso. apply Hq. rewrite Hs. apply in_or_app. right. now left.
  - rewrite Hsec, Hrest. now simp scan_loop.
Qed.

(** The loop on an opening quote, a quoted text and what follows its
    closing quote. *)
Lemma processUnquoted_quoted (f : jsstring -> jsstring) (outside inside rest : jsstring) :
  ~ In quote_mark outside -> ~ In quote_mark inside ->
  processUnquoted (outside ++ quote_mark :: inside ++ quote_mark :: rest) f
  = f (outside ++ [quote_mark]) ++ inside ++ quote_mark :: processUnquoted rest f.
Proof.
  intros Ho Hi. rewrite !processUnquoted_scan. unfold scan.
  rewrite scan_loop_section by assumption.
  rewrite scan_loop_section by assumption.
  cbn [flat_map emit quoted text toggle]. unfold emit at 1 2. cbn [quoted text].
  change (UNQUOTED =? QUOTED) with false. change (toggle UNQUOTED) with QUOTED.
  change (QUOTED =? QUOTED) with true. change (toggle QUOTED) with UNQUOTED.
  cbv iota. now rewrite <- !app_assoc.
Qed.

(** X1. What [processUnquoted] hands to the process function: the text
    up to and including an opening double quote goes through the function,
    the text after it up to and including the closing double quote is
    copied as it is, and the loop goes on in the same way with what
    follows; a quoted text that is not closed is copied to the end; of the
    empty text nothing is processed, the function is not called. *)
Theorem processUnquoted_copies_quoted_text (f : jsstring -> jsstring)
  (outside inside rest : jsstring) :
  ~ In quote_mark outside -> ~ In quote_mark inside ->
  processUnquoted (outside ++ quote_mark :: inside ++ quote_mark :: rest) f
  = f (outside ++ [quote_mark]) ++ inside ++ quote_mark :: processUnquoted rest f
  /\ processUnquoted (outside ++ quote_mark :: inside) f
     = f (outside ++ [quote_mark]) ++ inside
  /\ processUnquoted [] f = [].
Proof.
  intros Ho Hi. split; [now apply processUnquoted_quoted|]. split; [|reflexivity].
  rewrite processUnquoted_scan. unfold scan. rewrite scan_loop_section by assumption.
  cbn [flat_map]. unfold emit at 1. cbn [quoted text].
  change (UNQUOTED =? QUOTED) with false. change (toggle UNQUOTED) with QUOTED. cbv iota.
  f_equal. destruct inside as [|c r]; [now simp scan_loop|].
  rewrite scan_loop_tail by (assumption || discriminate). cbn. f_equal. apply app_nil_r.
Qed.

Lemma processUnquoted_copies_quoted_text_witness :
  ~ In quote_mark (js "{") /\ ~ In quote_mark (js "null")
  /\ processUnquoted (js "{" ++ quote_mark :: js "null" ++ quote_mark :: js ": null}")
       (fun _ => js "_")
     = js "_" ++ js "null" ++ quote_mark :: processUnquoted (js ": null}") (fun _ => js "_")
  /\ processUnquoted (js "{" ++ quote_mark :: js "null") (fun _ => js "_")
     = js "_" ++ js "null"
  /\ processUnquoted [] (fun _ => js "_") = [].
Proof.
  assert (Ho : ~ In quote_mark (js "{")) by (vm_compute; intuition discriminate).
  assert (Hi : ~ In quote_mark (js "null")) by (vm_compute; intuition discriminate).
  split; [exact Ho|]. split; [exact Hi|].
  apply (processUnquoted_copies_quoted_text (fun _ => js "_") (js "{") (js "null")
           (js ": null}") Ho Hi).
Defined.

(** ** String literals *)

Lemma json_value_quote (fuel : nat) (s : jsstring) :
  json_value (S fuel) (quote_mark :: s) = parsed_map VString (string_body s).
Proof. reflexivity. Qed.

Lemma replaceFromString_quote : replaceFromString [quote_mark] = [quote_mark].
Proof. reflexivity. Qed.

(** The decoder on the literal of a string without escapes. *)
Lemma parse_plain_literal (E : engine) (characters : jsstring) :
  forallb plain characters = true ->
  parse E (quote_mark :: characters ++ [quote_mark]) absent = Ok (VString characters).
Proof.
  intros H. unfold parse. cbv zeta.
  assert (Hq : ~ In quote_mark characters).
  { intros Hin. rewrite forallb_forall in H. apply H in Hin. discriminate. }
  change (quote_mark :: characters ++ [quote_mark])
    with ([] ++ quote_mark :: characters ++ quote_mark :: []) at 1.
  rewrite (processUnquoted_quoted replaceFromString [] characters []) by (easy || assumption).
  change (processUnquoted [] replaceFromString) with (@nil code_unit).
  cbn [app]. rewrite replaceFromString_quote. cbn [app].
  unfold language_parse, JSON_parse, json_text.
  destruct (2 * List.length (quote_mark :: characters ++ [quote_mark]) + 2)%nat
    as [|fuel] eqn:Hfuel; [lia|].
  rewrite json_value_quote, string_body_plain by assumption.
  cbn [parsed_map skip_space try_catch internalize].
  now rewrite full_reviver_absent.
Qed.

(** X2. A JSON string whose characters need no escape is decoded to the
    string of those characters, whatever they spell: the tokens of the
    table are not rewritten inside it. *)
Theorem parse_string_literal (E : engine) (characters : jsstring) :
  forallb plain characters = true ->
  parse E (quote_mark :: characters ++ [quote_mark]) absent = Ok (VString characters).
Proof. apply parse_plain_literal. Qed.

Lemma parse_string_literal_witness :
  parse spidermonkey (jq "'null, NaN and -Infinity 12345678901'") absent
  = Ok (VString (js "null, NaN and -Infinity 12345678901")).
Proof.
  apply (parse_string_literal spidermonkey (js "null, NaN and -Infinity 12345678901")).
  reflexivity.
Defined.

(** ** The encoder with a list of keys *)

(** X3. With an array for replacer that does not list the empty key, the
    encoder raises a TypeError on every value: the callback drops the
    value itself, which the host passes under the empty key, the host
    answers [undefined], and [postReplacer] calls [replace] on it. *)
Theorem stringify_key_list_drops_the_root (E : engine) (data : jsvalue)
  (keys : list jsvalue) (space : jsvalue) :
  (1 <= stack_depth E)%nat ->
  existsb (strict_eq (VString [])) keys = false ->
  language_stringify E data (full_replacer (Data (VArray keys))) space = Ok VUndefined
  /\ stringify E data (Data (VArray keys)) space
     = Throw (TypeError (js "Cannot read properties of undefined (reading 'replace')")).
Proof.
  intros Hdepth Hkeys.
  assert (H : language_stringify E data (full_replacer (Data (VArray keys))) space
              = Ok VUndefined).
  { unfold language_stringify, JSON_stringify.
    destruct (stack_depth E) as [|depth]; [lia|].
    cbn [serialize]. unfold full_replacer at 1.
    cbn [isArray indexOf_is_minus_one andb]. rewrite Hkeys. reflexivity. }
  split; [exact H|]. unfold stringify. rewrite H. reflexivity.
Qed.

Lemma stringify_key_list_drops_the_root_witness :
  (1 <= stack_depth v8)%nat
  /\ existsb (strict_eq (VString [])) [VString (js "a")] = false
  /\ language_stringify v8 (VObject [(js "a", VBool true)])
       (full_replacer (Data (VArray [VString (js "a")]))) VUndefined = Ok VUndefined
  /\ stringify v8 (VObject [(js "a", VBool true)]) (Data (VArray [VString (js "a")])) VUndefined
     = Throw (TypeError (js "Cannot read properties of undefined (reading 'replace')")).
Proof.
  assert (H1 : (1 <= stack_depth v8)%nat) by (vm_compute; lia).
  assert (H2 : existsb (strict_eq (VString [])) [VString (js "a")] = false) by reflexivity.
  split; [exact H1|]. split; [exact H2|].
  apply (stringify_key_list_drops_the_root v8 (VObject [(js "a", VBool true)])
           [VString (js "a")] VUndefined H1 H2).
Defined.

(** ** Values that are loosely equal to an infinity *)

Lemma number_eqb_infinity (x : number) (negative : bool) :
  number_eqb x (S754_infinity negative) = true -> x = S754_infinity negative.
Proof.
  unfold number_eqb, SFeqb, SFcompare.
  destruct x as [s| s | | s m e], negative; try destruct s; try discriminate; reflexivity.
Qed.

(** A value that [==] finds equal to an infinity converts to a
    primitive, is neither [undefined] nor [null], and its text is equal to
    that infinity too. *)
Lemma loosely_infinite_text (value : jsvalue) (negative : bool) :
  loose_eq value (VNumber (S754_infinity negative)) = true ->
  loose_eq value VNull = false
  /\ loose_eq (VString (to_string value)) (VNumber (S754_infinity negative)) = true.
Proof.
  intros H. destruct value as [| |b|x|z|s|l|l]; try discriminate.
  - destruct b, negative; discriminate.
  - split; [reflexivity|].
    apply number_eqb_infinity in H. rewrite H. destruct negative; reflexivity.
  - split; [reflexivity | exact H].
  - split; [reflexivity|]. unfold loose_eq, IsLooselyEqual, ToString in H.
    cbn [is_object] in H. destruct (converts (VArray l)); [exact H | discriminate].
  - split; [reflexivity|]. unfold loose_eq, IsLooselyEqual, ToString in H.
    cbn [is_object] in H. destruct (converts (VObject l)); [exact H | discriminate].
Qed.

Lemma loosely_infinite_converts (value : jsvalue) (negative : bool) :
  loose_eq value (VNumber (S754_infinity negative)) = true -> converts value = true.
Proof.
  intros H. unfold loose_eq in H. rewrite IsLooselyEqual_number in H.
  destruct (converts value); [reflexivity | discriminate].
Qed.

Lemma replaceFromObject_infinite (key : jsstring) (value : jsvalue) (negative : bool) :
  loose_eq value (VNumber (S754_infinity negative)) = true ->
  replaceFromObject key value = Ok (placeholder (to_string value)).
Proof.
  intros H. destruct (loosely_infinite_text value negative H) as [Hnull _].
  rewrite replaceFromObject_cases, (loosely_infinite_converts value negative H), Hnull.
  unfold replaced. destruct negative.
  - change NegInfinity with (S754_infinity true). now rewrite H.
  - change Infinity with (S754_infinity false). rewrite H, orb_true_r. reflexivity.
Qed.

(** The callback wraps such a text again at every depth. *)
Lemma serialize_infinite_text (negative : bool) (payload : jsstring) (depth : nat) :
  loose_eq (VString payload) (VNumber (S754_infinity negative)) = true ->
  forall gap indent key,
    serialize depth (full_replacer absent) gap indent key (VString payload)
    = Throw stack_overflow.
Proof.
  intros H. induction depth as [|depth IH]; intros gap indent key; [reflexivity|].
  cbn [serialize]. unfold full_replacer at 1. cbn [absent isArray isFunction andb bind].
  rewrite (replaceFromObject_infinite key (VString payload) negative H).
  cbn [to_string placeholder bind]. rewrite IH. reflexivity.
Qed.

(** X4. A value that [==] finds equal to [Infinity] or to [-Infinity]
    (the two Numbers, a string such as [Infinity] or [1e999], an array
    that holds one of them) cannot be encoded: its placeholder carries a
    text that is again equal to the infinity, the callback wraps that text
    in turn, and the encoder ends with the RangeError of a full stack,
    whatever the depth of the stack and the indentation. *)
Theorem stringify_infinite_overflows (E : engine) (data space : jsvalue)
  (negative : bool) :
  loose_eq data (VNumber (S754_infinity negative)) = true ->
  stringify E data absent space = Throw stack_overflow.
Proof.
  intros H. unfold stringify, language_stringify, JSON_stringify.
  destruct (stack_depth E) as [|depth]; [reflexivity|].
  cbn [serialize]. unfold full_replacer at 1. cbn [absent isArray isFunction andb bind].
  rewrite (replaceFromObject_infinite [] data negative H). cbn [placeholder bind].
  rewrite (serialize_infinite_text negative);
    [reflexivity | apply (loosely_infinite_text data negative H)].
Qed.

Lemma stringify_infinite_overflows_witness :
  loose_eq (VArray [VString (js " -1e400 ")]) (VNumber (S754_infinity true)) = true
  /\ stringify spidermonkey (VArray [VString (js " -1e400 ")]) absent
       (VNumber (number_of_Z 2)) = Throw stack_overflow.
Proof.
  assert (H : loose_eq (VArray [VString (js " -1e400 ")]) (VNumber (S754_infinity true))
              = true) by (vm_compute; reflexivity).
  split; [exact H|].
  apply (stringify_infinite_overflows spidermonkey (VArray [VString (js " -1e400 ")])
           (VNumber (number_of_Z 2)) true H).
Defined.

(** ** Placeholder wrappers in the text of the host *)

Lemma strip_prefix_app (p s : jsstring) : strip_prefix p (p ++ s) = Some s.
Proof.
  induction p as [|c p IH]; cbn; [reflexivity|].
  unfold unit_eqb. now rewrite N.eqb_refl.
Qed.

Lemma match_chars_then (p : jsstring) (r : regex) (s : jsstring) :
  match_here (Chars p >> r) (p ++ s) = after_match p [] (match_here r s).
Proof. cbn [match_here]. now rewrite strip_prefix_app. Qed.

Lemma match_run_then (cls : code_unit -> bool) (min : nat) (r : regex) (run s : jsstring) :
  forallb cls run = true -> (min <= List.length run)%nat -> stops cls s ->
  match_here (Rep cls min >> r) (run ++ s) = after_match run [] (match_here r s).
Proof.
  intros Hrun Hmin Hs. cbn [match_here]. rewrite (span_app cls run s Hrun Hs).
  apply Nat.leb_le in Hmin. now rewrite Hmin.
Qed.

Lemma match_group_run_then (cls : code_unit -> bool) (min : nat) (r : regex)
  (run s : jsstring) :
  forallb cls run = true -> (min <= List.length run)%nat -> stops cls s ->
  match_here (Group (Rep cls min) >> r) (run ++ s) = after_match run [run] (match_here r s).
Proof.
  intros Hrun Hmin Hs. cbn [match_here]. rewrite (span_app cls run s Hrun Hs).
  apply Nat.leb_le in Hmin. now rewrite Hmin.
Qed.

Lemma match_chars_last (p s : jsstring) :
  match_here (Chars p) (p ++ s) = Some (p, [], s).
Proof. cbn [match_here]. now rewrite strip_prefix_app. Qed.

Lemma match_wrapper_text (w1 w2 w3 w4 payload rest : jsstring) :
  forallb is_white_space w1 = true -> forallb is_white_space w2 = true ->
  forallb is_white_space w3 = true -> forallb is_white_space w4 = true ->
  payload <> [] -> ~ In quote_mark payload ->
  match_here post_pattern (wrapper_text w1 w2 w3 w4 payload ++ rest)
  = Some (wrapper_text w1 w2 w3 w4 payload, [payload], rest).
Proof.
  intros H1 H2 H3 H4 Hne Hq.
  assert (Hp : forallb not_quote payload = true).
  { apply forallb_forall. intros c Hc. unfold not_quote, unit_eqb.
    destruct (N.eqb_spec c quote_mark) as [->|]; [contradiction | reflexivity]. }
  assert (Hlen : (1 <= List.length payload)%nat)
    by (destruct payload; [congruence | cbn; lia]).
  unfold wrapper_text, post_pattern. rewrite <- !app_assoc.
  change (fun c => negb (unit_eqb c quote_mark)) with not_quote.
  change (jq "'") with [quote_mark].
  rewrite match_chars_then.
  rewrite match_run_then; [|assumption | lia | right; eexists; split; reflexivity].
  rewrite match_chars_then.
  rewrite match_run_then; [|assumption | lia | right; eexists; split; reflexivity].
  rewrite match_chars_then.
  rewrite match_run_then; [|assumption | lia | right; eexists; split; reflexivity].
  rewrite match_chars_then.
  rewrite match_group_run_then; [|assumption | lia | right; eexists; split; reflexivity].
  rewrite match_chars_then.
  rewrite match_run_then; [|assumption | lia | right; eexists; split; reflexivity].
  rewrite match_chars_last. reflexivity.
Qed.

(** No wrapper starts at a code unit other than an opening brace. *)
Lemma match_post_pattern_brace (c : code_unit) (s : jsstring) :
  c <> 123%N -> match_here post_pattern (c :: s) = None.
Proof.
  intros Hc. unfold post_pattern. cbn [match_here].
  change (js "{") with [123%N]. cbn [strip_prefix]. unfold unit_eqb.
  destruct (N.eqb_spec 123 c); [congruence | reflexivity].
Qed.

Lemma exec_post_pattern_none (s : jsstring) :
  ~ In 123%N s -> exec post_pattern s = None.
Proof.
  induction s as [|c s IH]; intros H; [reflexivity|].
  cbn [exec]. rewrite match_post_pattern_brace by (intros ->; apply H; now left).
  rewrite IH; [reflexivity|]. intros Hin. apply H. now right.
Qed.

Lemma exec_wrapper_text (pre w1 w2 w3 w4 payload rest : jsstring) :
  ~ In 123%N pre ->
  forallb is_white_space w1 = true -> forallb is_white_space w2 = true ->
  forallb is_white_space w3 = true -> forallb is_white_space w4 = true ->
  payload <> [] -> ~ In quote_mark payload ->
  exec post_pattern (pre ++ wrapper_text w1 w2 w3 w4 payload ++ rest)
  = Some {| before := pre; whole := wrapper_text w1 w2 w3 w4 payload;
            captures := [payload]; after := rest |}.
Proof.
  intros Hpre H1 H2 H3 H4 Hne Hq.
  pose proof (match_wrapper_text w1 w2 w3 w4 payload rest H1 H2 H3 H4 Hne Hq) as Hm.
  induction pre as [|c pre IH]; cbn [app].
  - destruct (wrapper_text w1 w2 w3 w4 payload ++ rest) eqn:Ht; cbn [exec]; now rewrite Hm.
  - cbn [exec]. rewrite match_post_pattern_brace by (intros ->; apply Hpre; now left).
    rewrite IH; [reflexivity|]. intros Hin. apply Hpre. now right.
Qed.

Lemma substitute_first_group (f : found) (payload : jsstring) :
  captures f = [payload] -> substitute (js "$1") f = payload.
Proof.
  intros H. change (js "$1") with [dollar; 49%N]. cbn [substitute].
  change (unit_eqb dollar dollar) with true. cbv iota.
  change (unit_eqb 49%N dollar) with false. change (unit_eqb 49%N ampersand) with false.
  change (is_digit 49%N && negb (unit_eqb 49%N 48%N)) with true. cbv iota.
  rewrite H. change (Z.to_nat (digit_value 49%N) - 1)%nat with 0%nat.
  cbn [nth_error]. apply app_nil_r.
Qed.

(** One turn of the global replacement at a wrapper. *)
Lemma replace_global_loop_wrapper (fuel : nat)
  (pre w1 w2 w3 w4 payload rest : jsstring) :
  ~ In 123%N pre ->
  forallb is_white_space w1 = true -> forallb is_white_space w2 = true ->
  forallb is_white_space w3 = true -> forallb is_white_space w4 = true ->
  payload <> [] -> ~ In quote_mark payload ->
  replace_global_loop (S fuel) (pre ++ wrapper_text w1 w2 w3 w4 payload ++ rest)
    post_pattern (js "$1")
  = pre ++ payload ++ replace_global_loop fuel rest post_pattern (js "$1").
Proof.
  intros Hpre H1 H2 H3 H4 Hne Hq. cbn [replace_global_loop].
  rewrite (exec_wrapper_text pre w1 w2 w3 w4 payload rest) by assumption.
  cbn [before whole after captures].
  rewrite (substitute_first_group _ payload) by reflexivity.
  unfold wrapper_text at 1. change (js "{") with [123%N]. cbn [app]. reflexivity.
Qed.

Lemma replace_global_loop_none (fuel : nat) (s : jsstring) :
  ~ In 123%N s -> replace_global_loop fuel s post_pattern (js "$1") = s.
Proof.
  intros H. destruct fuel; [reflexivity|]. cbn [replace_global_loop].
  now rewrite exec_post_pattern_none.
Qed.

(** X5. [postReplacer] puts the payload in the place of a placeholder
    wrapper wherever the wrapper stands and however it is laid out: with
    any white space, line ends among it, after the brace, around the colon
    and before the closing brace, provided the payload is not empty and
    holds no double quote.  The text around the wrapper is searched for
    further wrappers; without an opening brace it stays as it is. *)
Theorem postReplacer_unwraps (pre w1 w2 w3 w4 payload rest : jsstring) :
  ~ In 123%N pre ->
  forallb is_white_space w1 = true -> forallb is_white_space w2 = true ->
  forallb is_white_space w3 = true -> forallb is_white_space w4 = true ->
  payload <> [] -> ~ In quote_mark payload ->
  postReplacer (VString (pre ++ wrapper_text w1 w2 w3 w4 payload ++ rest))
  = Ok (VString (pre ++ payload ++ replace_global rest post_pattern (js "$1")))
  /\ (~ In 123%N rest -> replace_global rest post_pattern (js "$1") = rest).
Proof.
  intros Hpre H1 H2 H3 H4 Hne Hq. split; [|apply replace_global_loop_none].
  unfold postReplacer, replace_global.
  rewrite replace_global_loop_wrapper by assumption.
  do 4 f_equal. unfold wrapper_text. change (js "{") with [123%N].
  apply replace_global_loop_fuel; rewrite ?length_app; cbn [List.length]; lia.
Qed.

Lemma postReplacer_unwraps_witness :
  ~ In 123%N (jq "[1, ")
  /\ forallb is_white_space [line_feed; 32%N] = true /\ forallb is_white_space [] = true
  /\ forallb is_white_space (js " ") = true /\ forallb is_white_space [line_feed] = true
  /\ js "NaN" <> [] /\ ~ In quote_mark (js "NaN") /\ ~ In 123%N (js "]")
  /\ postReplacer (VString (jq "[1, " ++ wrapper_text [line_feed; 32%N] [] (js " ") [line_feed]
                              (js "NaN") ++ js "]"))
     = Ok (VString (jq "[1, " ++ js "NaN" ++ replace_global (js "]") post_pattern (js "$1")))
  /\ replace_global (js "]") post_pattern (js "$1") = js "]".
Proof.
  assert (H0 : ~ In 123%N (jq "[1, ")) by (vm_compute; intuition discriminate).
  assert (H5 : js "NaN" <> []) by discriminate.
  assert (H6 : ~ In quote_mark (js "NaN")) by (vm_compute; intuition discriminate).
  assert (H7 : ~ In 123%N (js "]")) by (vm_compute; intuition discriminate).
  do 5 (split; [assumption || reflexivity|]). split; [exact H5|]. split; [exact H6|].
  split; [exact H7|].
  destruct (postReplacer_unwraps (jq "[1, ") [line_feed; 32%N] [] (js " ") [line_feed]
              (js "NaN") (js "]") H0 eq_refl eq_refl eq_refl eq_refl H5 H6)
    as [Hunwrap Hrest].
  split; [exact Hunwrap | exact (Hrest H7)].
Defined.

(** ** Arbitrary-precision integers in the encoder *)

Lemma quote_units_ordinary (s : jsstring) :
  forallb ordinary s = true -> quote_units s = s.
Proof.
  induction s as [|c s IH]; intros H; [reflexivity|].
  cbn [forallb] in H. apply andb_true_iff in H as [Hc Hs].
  unfold ordinary in Hc. rewrite !andb_true_iff, !negb_true_iff in Hc.
  destruct Hc as [[[H32 Hsur] Hq] Hb].
  apply N.leb_le in H32. apply N.ltb_lt in Hsur.
  cbn [quote_units]. rewrite Hq, Hb. unfold unit_eqb.
  destruct (N.eqb_spec c 8); [lia|]. destruct (N.eqb_spec c 9); [lia|].
  destruct (N.eqb_spec c 10); [lia|]. destruct (N.eqb_spec c 12); [lia|].
  destruct (N.eqb_spec c 13); [lia|]. destruct (N.ltb_spec c 32); [lia|].
  unfold is_leading_surrogate, is_trailing_surrogate.
  destruct (N.leb_spec 55296 c); [lia|]. destruct (N.leb_spec 56320 c); [lia|].
  cbn [andb]. now rewrite IH.
Qed.

Lemma digit_unit_digit (d : Z) :
  0 <= d < 10 -> is_digit (digit_unit d) = true /\ digit_value (digit_unit d) = d.
Proof.
  intros H. unfold is_digit, digit_unit, digit_value. split; [|lia].
  apply andb_true_iff. split; apply N.leb_le; lia.
Qed.

(** The digits of a natural number. *)
Lemma decimal_digits (z : Z) :
  0 <= z ->
  forallb is_digit (decimal z) = true /\ decimal z <> [] /\ decimal_value (decimal z) = z.
Proof.
  intros Hz. generalize Hz. pattern z. apply Z_lt_induction; [|exact Hz]. clear z Hz.
  intros z IH Hz. destruct (Z.ltb_spec z 10) as [Hlt|Hge].
  - rewrite decimal_digit by lia.
    destruct (digit_unit_digit z ltac:(lia)) as [Hd Hv].
    cbn [forallb]. rewrite Hd. repeat split; [discriminate|].
    unfold decimal_value, digits_value. cbn [fold_left]. lia.
  - pose proof (Z.div_mod z 10 ltac:(lia)) as Hdm.
    pose proof (Z.mod_pos_bound z 10 ltac:(lia)) as Hmod.
    destruct (IH (z / 10)) as (Hd & Hne & Hv);
      [split; [apply Z.div_pos; lia | apply Z.div_lt; lia] | apply Z.div_pos; lia |].
    destruct (digit_unit_digit (z mod 10) Hmod) as [Hd0 Hv0].
    rewrite Hdm at 1 2 3. rewrite decimal_step by (try lia; apply Z.div_str_pos; lia).
    rewrite forallb_app, Hd, decimal_value_snoc, Hv, Hv0.
    cbn [forallb]. rewrite Hd0. repeat split.
    + intros H. now apply app_eq_nil in H as [_ H].
    + lia.
Qed.

Lemma bigint_toString_literal (z : Z) :
  bigint_toString z = literal (z <? 0) (decimal (Z.abs z)).
Proof.
  unfold bigint_toString, literal. destruct (Z.ltb_spec z 0).
  - now rewrite Z.abs_neq by lia.
  - now rewrite Z.abs_eq by lia.
Qed.

(** The Number a decimal literal denotes as a string. *)
Lemma StringToNumber_literal (negative : bool) (digits : jsstring) :
  forallb is_digit digits = true -> digits <> [] ->
  StringToNumber (literal negative digits)
  = number_of_decimal negative (decimal_value digits) 0.
Proof.
  intros Hd Hne. unfold StringToNumber. rewrite trim_literal by assumption.
  destruct (literal negative digits) as [|c t] eqn:Ht.
  { unfold literal in Ht. apply app_eq_nil in Ht as [_ Ht]. congruence. }
  rewrite <- Ht, split_sign_literal by assumption.
  assert (Hinf : jsstring_eqb digits (js "Infinity") = false).
  { destruct digits as [|d ds]; [congruence|]. cbn in Hd.
    apply andb_true_iff in Hd as [Hd _]. apply digit_is in Hd.
    change (js "Infinity") with (73%N :: js "nfinity"). cbn [jsstring_eqb]. unfold unit_eqb.
    destruct (N.eqb_spec d 73); [lia | reflexivity]. }
  rewrite Hinf. unfold unsigned_decimal. rewrite (span_all is_digit digits Hd).
  rewrite app_nil_r. destruct digits as [|d ds]; [congruence|]. reflexivity.
Qed.

Lemma StringToNumber_bigint (z : Z) :
  StringToNumber (bigint_toString z) = number_of_Z z.
Proof.
  destruct (decimal_digits (Z.abs z) ltac:(lia)) as (Hd & Hne & Hv).
  rewrite bigint_toString_literal, StringToNumber_literal by assumption.
  rewrite Hv. unfold number_of_decimal.
  destruct (Z.eqb_spec (Z.abs z) 0) as [H0|H0].
  - assert (z = 0) by lia. subst z. reflexivity.
  - pose proof (Z.log2_nonneg (Z.abs z)).
    destruct (Z.ltb_spec 310 0); [lia|].
    destruct (Z.ltb_spec (Z.log2 (Z.abs z) + 1 + 0) (-330)); [lia|].
    cbn [Z.leb Z.compare]. rewrite Z.pow_0_r, Z.mul_1_r.
    destruct (Z.ltb_spec z 0); f_equal; lia.
Qed.

Lemma bigint_text_ordinary (z : Z) : forallb ordinary (bigint_toString z) = true.
Proof.
  destruct (decimal_digits (Z.abs z) ltac:(lia)) as (Hd & _ & _).
  rewrite bigint_toString_literal. unfold literal. rewrite forallb_app.
  apply andb_true_iff. split; [destruct (z <? 0); reflexivity|].
  apply forallb_forall. intros c Hc. rewrite forallb_forall in Hd.
  apply Hd, digit_is in Hc. unfold ordinary, unit_eqb, quote_mark, backslash.
  destruct (N.leb_spec 32 c); [|lia]. destruct (N.ltb_spec c 55296); [|lia].
  destruct (N.eqb_spec c 34); [lia|]. destruct (N.eqb_spec c 92); [lia|]. reflexivity.
Qed.

Lemma replaceFromObject_bigint (key : jsstring) (z : Z) :
  replaceFromObject key (VBigInt z) = Ok (placeholder (bigint_toString z)).
Proof. reflexivity. Qed.

(** The text of an integer in the range of Numbers matches no entry. *)
Lemma replaceFromObject_bigint_text (key : jsstring) (z : Z) :
  in_number_range z = true ->
  replaceFromObject key (VString (bigint_toString z)) = Ok (VString (bigint_toString z)).
Proof.
  intros H. rewrite replaceFromObject_cases. cbn [converts].
  unfold replaced, loose_eq, IsLooselyEqual.
  cbn [is_object loose_eq_primitive strict_eq].
  rewrite StringToNumber_bigint. unfold in_number_range in H.
  destruct (number_of_Z z) as [s|s| |s m e]; try discriminate; try destruct s; reflexivity.
Qed.

(** *** The text of a placeholder in the output of the host *)

Lemma serialize_placeholder (depth : nat) (gap indent key : jsstring) (value : jsvalue)
  (payload : jsstring) :
  replaceFromObject key value = Ok (placeholder payload) ->
  replaceFromObject replacement_key (VString payload) = Ok (VString payload) ->
  serialize (S (S depth)) (full_replacer absent) gap indent key value
  = Ok (Some (laid_out gap indent (quote_units payload))).
Proof.
  intros Hv Hp. cbn [serialize]. unfold full_replacer at 1.
  cbn [absent isArray isFunction andb bind]. rewrite Hv. cbn [placeholder bind].
  unfold full_replacer at 1. cbn [absent isArray isFunction andb bind]. rewrite Hp.
  cbn [bind]. unfold laid_out, wrapper_text, enclose, QuoteJSONString.
  change (quote_units replacement_key) with replacement_key.
  destruct gap as [|g gap]; cbn [join]; do 2 f_equal.
  - vm_compute (js "{"). vm_compute (js "}"). vm_compute (js ":").
    vm_compute (jq "'fprime{replacement'"). unfold replacement_key.
    vm_compute (js "fprime{replacement").
    cbn [app]. repeat (rewrite <- app_assoc; cbn [app]). reflexivity.
  - vm_compute (js "{"). vm_compute (js "}"). vm_compute (js ":"). vm_compute (js " ").
    vm_compute (jq "'fprime{replacement'"). unfold replacement_key.
    vm_compute (js "fprime{replacement").
    cbn [app]. repeat (rewrite <- app_assoc; cbn [app]). reflexivity.
Qed.

Lemma postReplacer_wrapper_text (w1 w2 w3 w4 payload : jsstring) :
  forallb is_white_space w1 = true -> forallb is_white_space w2 = true ->
  forallb is_white_space w3 = true -> forallb is_white_space w4 = true ->
  payload <> [] -> ~ In quote_mark payload ->
  postReplacer (VString (wrapper_text w1 w2 w3 w4 payload)) = Ok (VString payload).
Proof.
  intros H1 H2 H3 H4 Hne Hq. unfold postReplacer, replace_global.
  pose proof (replace_global_loop_wrapper
                (List.length (wrapper_text w1 w2 w3 w4 payload))
                [] w1 w2 w3 w4 payload [] ltac:(easy) H1 H2 H3 H4 Hne Hq) as H.
  cbn [app] in H. rewrite app_nil_r in H. rewrite H.
  rewrite replace_global_loop_none; [now rewrite app_nil_r | easy].
Qed.

Lemma postReplacer_laid_out (gap payload : jsstring) :
  forallb is_white_space gap = true -> payload <> [] -> ~ In quote_mark payload ->
  postReplacer (VString (laid_out gap [] payload)) = Ok (VString payload).
Proof.
  intros Hgap Hne Hq. unfold laid_out.
  destruct gap as [|g gap]; apply postReplacer_wrapper_text; trivial.
Qed.

Lemma ordinary_no_quote (s : jsstring) :
  forallb ordinary s = true -> ~ In quote_mark s.
Proof.
  intros H Hin. rewrite forallb_forall in H. apply H in Hin. discriminate.
Qed.

(** X6. An arbitrary-precision integer whose nearest Number is finite is
    encoded as its decimal digits, with a minus sign when negative,
    whatever the indentation asked for, as long as it is made of white
    space (as it is for a Number in [space]).  A greater integer cannot be
    encoded: its digits are, as a string, loosely equal to an infinity,
    the callback wraps the payload again and again, and the encoder ends
    with the RangeError of a full stack. *)
Theorem stringify_bigint (E : engine) (z : Z) (space : jsvalue) :
  (2 <= stack_depth E)%nat ->
  forallb is_white_space (gap_of space) = true ->
  stringify E (VBigInt z) absent space
  = if in_number_range z then Ok (VString (bigint_toString z)) else Throw stack_overflow.
Proof.
  intros Hdepth Hgap. unfold stringify, language_stringify, JSON_stringify.
  destruct (stack_depth E) as [|[|depth]]; try lia.
  destruct (in_number_range z) eqn:Hz.
  - rewrite (serialize_placeholder depth _ _ _ _ (bigint_toString z));
      [|apply replaceFromObject_bigint | now apply replaceFromObject_bigint_text].
    cbn [bind]. rewrite quote_units_ordinary by apply bigint_text_ordinary.
    apply postReplacer_laid_out; [assumption| |apply ordinary_no_quote, bigint_text_ordinary].
    rewrite bigint_toString_literal. unfold literal. intros H.
    apply app_eq_nil in H as [_ H].
    now destruct (decimal_digits (Z.abs z) ltac:(lia)) as (_ & Hne & _).
  - generalize (S depth). intros d. cbn [serialize]. unfold full_replacer at 1.
    cbn [absent isArray isFunction andb bind]. rewrite replaceFromObject_bigint.
    cbn [placeholder bind]. unfold in_number_range in Hz.
    destruct (number_of_Z z) as [s|s| |s m e] eqn:Hn; try discriminate.
    rewrite (serialize_infinite_text s); [reflexivity|].
    unfold loose_eq, IsLooselyEqual. cbn [is_object loose_eq_primitive].
    rewrite StringToNumber_bigint, Hn. destruct s; reflexivity.
Qed.

Lemma stringify_bigint_witness :
  (2 <= stack_depth v8)%nat
  /\ forallb is_white_space (gap_of (VNumber (number_of_Z 4))) = true
  /\ stringify v8 (VBigInt (- 2 ^ 64)) absent (VNumber (number_of_Z 4))
     = if in_number_range (- 2 ^ 64) then Ok (VString (bigint_toString (- 2 ^ 64)))
       else Throw stack_overflow.
Proof.
  assert (H1 : (2 <= stack_depth v8)%nat) by (vm_compute; lia).
  assert (H2 : forallb is_white_space (gap_of (VNumber (number_of_Z 4))) = true)
    by (vm_compute; reflexivity).
  split; [exact H1|]. split; [exact H2|].
  apply (stringify_bigint v8 (- 2 ^ 64) (VNumber (number_of_Z 4)) H1 H2).
Defined.

(** Both cases of the range occur. *)
Lemma in_number_range_examples :
  in_number_range (2 ^ 64) = true /\ in_number_range (10 ^ 309) = false
  /\ in_number_range (- 10 ^ 309) = false.
Proof. repeat split; vm_compute; reflexivity. Qed.

(** The indentation drawn from a Number is made of spaces. *)
Lemma gap_of_number (x : number) : forallb is_white_space (gap_of (VNumber x)) = true.
Proof.
  cbn [gap_of]. induction (Z.to_nat (to_position 10 x)) as [|n IH]; [reflexivity|].
  cbn [repeat forallb]. now rewrite IH.
Qed.

(** ** Arrays of nulls *)

Lemma join_repeat (sep x : jsstring) (n : nat) :
  join sep (repeat x (S (S n))) = x ++ sep ++ join sep (repeat x (S n)).
Proof. reflexivity. Qed.

Lemma join_repeat_length (sep x : jsstring) (n : nat) :
  (1 <= List.length x)%nat -> (S n <= List.length (join sep (repeat x (S n))))%nat.
Proof.
  intros Hx. induction n as [|n IH]; [exact Hx|].
  rewrite join_repeat, !length_app. lia.
Qed.

(** An array of nulls is, as a string, a run of commas, which is no
    Number of the table. *)
Lemma to_string_nulls (n : nat) :
  to_string (VArray (repeat VNull n)) = repeat 44%N (n - 1).
Proof.
  cbn [to_string].
  destruct n as [|n]; [reflexivity|]. cbn [repeat]. rewrite Nat.sub_succ, Nat.sub_0_r.
  induction n as [|n IH]; [reflexivity|].
  cbn [repeat] in *. rewrite <- IH. reflexivity.
Qed.

Lemma StringToNumber_commas (n : nat) :
  StringToNumber (repeat 44%N (S n)) = NaN.
Proof.
  unfold StringToNumber.
  assert (Ht : trim (repeat 44%N (S n)) = repeat 44%N (S n)).
  { unfold trim. cbn [repeat]. rewrite (trim_start_stops 44%N) by reflexivity.
    rewrite !repeat_cons. now apply trim_end_stops. }
  rewrite Ht. cbn [repeat split_sign]. change (is_char "-" 44%N) with false.
  change (is_char "+" 44%N) with false. cbv iota.
  change (jsstring_eqb (44%N :: repeat 44%N n) (js "Infinity")) with false. cbv iota.
  unfold unsigned_decimal. cbn [span]. change (is_digit 44%N) with false. cbv iota.
  change (is_char "." 44%N) with false. cbv iota. cbn [app].
  unfold non_decimal. destruct n as [|[|n]]; reflexivity.
Qed.

Lemma replaceFromObject_nulls (key : jsstring) (n : nat) :
  replaceFromObject key (VArray (repeat VNull n)) = Ok (VArray (repeat VNull n)).
Proof.
  assert (Hc : converts (VArray (repeat VNull n)) = true).
  { cbn [converts]. induction n as [|n IH]; [reflexivity | exact IH]. }
  rewrite replaceFromObject_cases, Hc.
  unfold replaced, loose_eq, IsLooselyEqual, ToString. cbn [is_object]. rewrite Hc.
  cbn [bind loose_eq_primitive strict_eq]. rewrite to_string_nulls.
  destruct (n - 1)%nat as [|k]; [reflexivity|].
  rewrite StringToNumber_commas. reflexivity.
Qed.

Lemma replaceFromObject_null_text (key : jsstring) :
  replaceFromObject key (VString (js "null")) = Ok (VString (js "null")).
Proof. vm_compute. reflexivity. Qed.

(** The host writes every null of an array as a placeholder. *)
Lemma serialize_nulls (depth : nat) (gap indent : jsstring) (n : nat) :
  forall i,
    (fix each (i : Z) (l : list jsvalue) : result (list jsstring) :=
       match l with
       | [] => Ok []
       | e :: l' =>
           p <- serialize (S (S depth)) (full_replacer absent) gap indent (decimal i) e ;;
           rest <- each (i + 1) l' ;;
           Ok (match p with Some t => t | None => js "null" end :: rest)
       end) i (repeat VNull n)
    = Ok (repeat (laid_out gap indent (js "null")) n).
Proof.
  induction n as [|n IH]; intros i; [reflexivity|].
  cbn [repeat]. rewrite (serialize_placeholder depth gap indent (decimal i) VNull (js "null"));
    [|reflexivity | apply replaceFromObject_null_text].
  cbn [bind]. rewrite IH. reflexivity.
Qed.

Lemma serialize_null_array (depth : nat) (n : nat) :
  serialize (S (S (S depth))) (full_replacer absent) [] [] [] (VArray (repeat VNull n))
  = Ok (Some (js "[" ++ join (js ",") (repeat (laid_out [] [] (js "null")) n) ++ js "]")).
Proof.
  pose proof (serialize_nulls depth [] [] n 0) as H. revert H.
  generalize (S (S depth)). intros d H.
  cbn [serialize]. unfold full_replacer at 1.
  cbn [absent isArray isFunction andb bind]. rewrite replaceFromObject_nulls.
  cbn [bind app]. rewrite H. cbn [bind]. unfold enclose.
  destruct n; reflexivity.
Qed.

(** Every wrapper of a list is replaced. *)
Lemma replace_global_loop_wrappers (payload closing : jsstring) (n : nat) :
  payload <> [] -> ~ In quote_mark payload -> ~ In 123%N closing ->
  forall fuel pre, (n < fuel)%nat -> ~ In 123%N pre ->
    replace_global_loop (S fuel)
      (pre ++ join (js ",") (repeat (wrapper_text [] [] [] [] payload) (S n)) ++ closing)
      post_pattern (js "$1")
    = pre ++ join (js ",") (repeat payload (S n)) ++ closing.
Proof.
  intros Hne Hq Hclosing. induction n as [|n IH]; intros fuel pre Hfuel Hpre.
  - cbn [repeat join].
    rewrite replace_global_loop_wrapper by (assumption || reflexivity).
    now rewrite replace_global_loop_none.
  - rewrite !join_repeat, <- !app_assoc.
    rewrite replace_global_loop_wrapper by (assumption || reflexivity).
    destruct fuel as [|fuel]; [lia|].
    rewrite IH; [reflexivity | lia | vm_compute; intuition discriminate].
Qed.

Lemma stringify_nulls (E : engine) (n : nat) :
  (3 <= stack_depth E)%nat ->
  stringify E (VArray (repeat VNull n)) absent VUndefined = Ok (VString (nulls_text n)).
Proof.
  intros Hdepth. unfold stringify, language_stringify, JSON_stringify.
  destruct (stack_depth E) as [|[|[|depth]]]; try lia.
  cbn [gap_of]. rewrite serialize_null_array. cbn [bind]. unfold nulls_text.
  destruct n as [|n]; [reflexivity|].
  unfold postReplacer, replace_global, laid_out. do 2 f_equal.
  apply replace_global_loop_wrappers; try discriminate; try (vm_compute; intuition discriminate).
  rewrite !length_app.
  pose proof (join_repeat_length (js ",") (wrapper_text [] [] [] [] (js "null")) n
                ltac:(cbn; lia)).
  lia.
Qed.

Lemma nulls_text_first (n : nat) :
  nulls_text (S n) = js "[" ++ js "null" ++ nulls_tail n.
Proof.
  unfold nulls_text, nulls_tail. destruct n as [|n]; [reflexivity|].
  now rewrite join_repeat, <- !app_assoc.
Qed.

Lemma nulls_units (n : nat) (c : code_unit) :
  In c (join (js ",") (repeat (js "null") n)) -> In c (js ",null").
Proof.
  destruct n as [|n]; [intros []|].
  induction n as [|n IH].
  - cbn [repeat join]. intros H. now right.
  - rewrite join_repeat. intros H.
    apply in_app_or in H as [H|H]; [now right|].
    apply in_app_or in H as [H|H]; [|exact (IH H)].
    destruct H as [<-|[]]. now left.
Qed.

Lemma nulls_tail_units (n : nat) (c : code_unit) :
  In c (nulls_tail n) -> In c (js ",null]").
Proof.
  unfold nulls_tail. destruct n as [|n]; intros H.
  - destruct H as [<-|[]]. vm_compute. tauto.
  - apply in_app_or in H as [H|H]; [destruct H as [<-|[]]; vm_compute; tauto|].
    apply in_app_or in H as [H|H]; [|destruct H as [<-|[]]; vm_compute; tauto].
    apply nulls_units in H. vm_compute in H. vm_compute. tauto.
Qed.

Lemma nulls_text_units (n : nat) (c : code_unit) :
  In c (nulls_text n) -> In c (js "[,null]").
Proof.
  unfold nulls_text. intros H.
  apply in_app_or in H as [H|H]; [destruct H as [<-|[]]; vm_compute; tauto|].
  apply in_app_or in H as [H|H]; [|destruct H as [<-|[]]; vm_compute; tauto].
  apply nulls_units in H. vm_compute in H. vm_compute. tauto.
Qed.

(** The first occurrence of a literal is where [exec] finds it. *)
Lemma exec_literal_first (c : code_unit) (literal pre post : jsstring) :
  ~ In c pre ->
  exec (Group (Chars (c :: literal))) (pre ++ (c :: literal) ++ post)
  = Some {| before := pre; whole := c :: literal; captures := [c :: literal];
            after := post |}.
Proof.
  intros Hpre. pose proof (strip_prefix_app (c :: literal) post) as Hs.
  change ((c :: literal) ++ post) with (c :: literal ++ post) in *.
  induction pre as [|d pre IH].
  - cbn [app]. unfold exec, match_here. rewrite Hs. reflexivity.
  - cbn [app exec match_here strip_prefix]. unfold unit_eqb.
    destruct (N.eqb_spec c d) as [->|_]; [exfalso; apply Hpre; now left|].
    rewrite IH; [reflexivity|]. intros Hin. apply Hpre. now right.
Qed.

(** The digit expression asks for a space, and after it for a minus sign
    or a digit. *)
Lemma match_digit_pattern_space (c : code_unit) (s : jsstring) :
  c <> 32%N -> match_here digit_pattern (c :: s) = None.
Proof.
  intros Hc. unfold digit_pattern. cbn [match_here]. change (js " ") with [32%N].
  cbn [strip_prefix]. unfold unit_eqb. destruct (N.eqb_spec 32 c); [congruence | reflexivity].
Qed.

Lemma exec_digit_pattern_no_space (s : jsstring) :
  ~ In 32%N s -> exec digit_pattern s = None.
Proof.
  induction s as [|c s IH]; intros H; [reflexivity|].
  cbn [exec]. rewrite match_digit_pattern_space by (intros ->; apply H; now left).
  rewrite IH; [reflexivity|]. intros Hin. apply H. now right.
Qed.

Lemma exec_cons (r : regex) (c : code_unit) (s : jsstring) :
  exec r (c :: s)
  = match match_here r (c :: s) with
    | Some (m, g, rest) =>
        Some {| before := []; whole := m; captures := g; after := rest |}
    | None =>
        match exec r s with
        | Some f =>
            Some {| before := c :: before f; whole := whole f;
                    captures := captures f; after := after f |}
        | None => None
        end
    end.
Proof. reflexivity. Qed.

Lemma exec_digit_pattern_one_space (a b : jsstring) (c : code_unit) :
  ~ In 32%N a -> ~ In 32%N (c :: b) -> is_digit c = false -> c <> 45%N ->
  exec digit_pattern (a ++ 32%N :: c :: b) = None.
Proof.
  intros Ha Hb Hc Hminus. induction a as [|d a IH].
  - cbn [app]. rewrite exec_cons, (exec_digit_pattern_no_space (c :: b) Hb).
    unfold digit_pattern. cbn [match_here]. change (js " ") with [32%N].
    cbn [strip_prefix]. change (unit_eqb 32%N 32%N) with true. cbv iota.
    unfold unit_eqb. destruct (N.eqb_spec 45 c); [congruence|].
    cbn [span]. rewrite Hc. reflexivity.
  - cbn [app exec]. rewrite match_digit_pattern_space by (intros ->; apply Ha; now left).
    rewrite IH; [reflexivity|]. intros Hin. apply Ha. now right.
Qed.

(** Of the nulls of an array the rewriter wraps the first. *)
Lemma replaceFromString_nulls (n : nat) :
  replaceFromString (nulls_text (S n))
  = js "[" ++ (jq "{'fprime{replacement': '" ++ js "null" ++ jq "'}") ++ nulls_tail n.
Proof.
  assert (Hlack : forall c, (c = 73 \/ c = 78)%N -> ~ In c (nulls_text (S n))).
  { intros c Hc Hin. apply nulls_text_units in Hin. vm_compute in Hin. lia. }
  rewrite replaceFromString_steps.
  rewrite (replace_none _ (Group (Chars (js "-Infinity"))));
    [|apply (exec_literal_none _ _ 73%N); [vm_compute; tauto | apply Hlack; lia]].
  rewrite (replace_none _ (Group (Chars (js "Infinity"))));
    [|apply (exec_literal_none _ _ 73%N); [vm_compute; tauto | apply Hlack; lia]].
  rewrite (replace_none _ (Group (Chars (js "NaN"))));
    [|apply (exec_literal_none _ _ 78%N); [vm_compute; tauto | apply Hlack; lia]].
  rewrite nulls_text_first.
  rewrite (replace_some _ _ _ _ _ _ _
             (exec_literal_first 110%N (js "ull") (js "[") (nulls_tail n)
                ltac:(vm_compute; intuition discriminate))).
  rewrite substitute_wrapper_found.
  change (110%N :: js "ull") with (js "null").
  rewrite replace_none; [reflexivity|].
  change (js "[" ++ (jq "{'fprime{replacement': '" ++ js "null" ++ jq "'}") ++ nulls_tail n)
    with (jq "[{'fprime{replacement':" ++ 32%N :: quote_mark :: jq "null'}" ++ nulls_tail n).
  apply exec_digit_pattern_one_space; try reflexivity; try discriminate.
  - vm_compute. intuition discriminate.
  - intros [H|H]; [discriminate|]. apply in_app_or in H as [H|H].
    + vm_compute in H. intuition discriminate.
    + apply nulls_tail_units in H. vm_compute in H. intuition discriminate.
Qed.

(** *** The host on the rewritten text *)

Lemma json_value_wrapper (fuel : nat) (payload rest : jsstring) :
  forallb plain payload = true -> (3 <= fuel)%nat ->
  json_value fuel ((jq "{'fprime{replacement': '" ++ payload ++ jq "'}") ++ rest)
  = Parsed (placeholder payload) rest.
Proof.
  intros H Hfuel. destruct fuel as [|[|[|fuel]]]; try lia.
  rewrite wrapper_text_units. cbn [app].
  repeat (rewrite <- app_assoc; cbn [app]).
  rewrite json_value_object.
  rewrite (json_members_single (S fuel) _
             (32%N :: quote_mark :: payload ++ quote_mark :: 125%N :: rest)
             rest replacement_key (VString payload)).
  - reflexivity.
  - apply string_body_plain. reflexivity.
  - rewrite json_value_string, string_body_plain by assumption. reflexivity.
Qed.

Lemma json_value_null (fuel : nat) (rest : jsstring) :
  (1 <= fuel)%nat -> json_value fuel (js "null" ++ rest) = Parsed VNull rest.
Proof. intros H. destruct fuel; [lia | reflexivity]. Qed.

Lemma json_elements_step (fuel : nat) (s : jsstring) (done : list jsvalue) :
  json_elements (S fuel) s done
  = match json_value fuel s with
    | Parsed v r =>
        match skip_space r with
        | d :: r' =>
            if is_char "," d then json_elements fuel r' (v :: done)
            else if is_char "]" d then Parsed (VArray (rev (v :: done))) r'
            else Rejected (d :: r')
        | [] => Rejected []
        end
    | Rejected t => Rejected t
    | Exhausted => Exhausted
    end.
Proof. reflexivity. Qed.

Lemma json_elements_nulls (n : nat) :
  forall fuel done, (n + 2 <= fuel)%nat ->
    json_elements fuel (join (js ",") (repeat (js "null") (S n)) ++ js "]") done
    = Parsed (VArray (rev done ++ repeat VNull (S n))) [].
Proof.
  induction n as [|n IH]; intros fuel done Hfuel.
  - destruct fuel as [|fuel]; try lia. cbn [repeat join json_elements].
    rewrite json_value_null by lia. reflexivity.
  - destruct fuel as [|fuel]; try lia. rewrite join_repeat, <- !app_assoc.
    cbn [json_elements]. rewrite json_value_null by lia.
    change (skip_space (js "," ++ ?s)) with (44%N :: s). cbv iota.
    change (is_char "," 44%N) with true. cbv iota.
    rewrite IH by lia. cbn [rev]. rewrite <- app_assoc. reflexivity.
Qed.

Lemma json_text_nulls (n : nat) :
  json_text (js "[" ++ (jq "{'fprime{replacement': '" ++ js "null" ++ jq "'}")
             ++ nulls_tail n)
  = Parsed (VArray (placeholder (js "null") :: repeat VNull n)) [].
Proof.
  unfold json_text.
  set (wrapper := jq "{'fprime{replacement': '" ++ js "null" ++ jq "'}").
  assert (Hlen : (n < List.length (nulls_tail n))%nat).
  { unfold nulls_tail. destruct n as [|n]; [cbn; lia|].
    pose proof (join_repeat_length (js ",") (js "null") n ltac:(cbn; lia)).
    rewrite !length_app. change (List.length (js ",")) with 1%nat.
    change (List.length (js "]")) with 1%nat. lia. }
  assert (Hfuel : exists fuel,
             (2 * List.length (js "[" ++ wrapper ++ nulls_tail n) + 2 = S (S fuel))%nat
             /\ (n + 3 <= fuel)%nat).
  { exists (2 * List.length (js "[" ++ wrapper ++ nulls_tail n))%nat. split; [lia|].
    rewrite !length_app. change (List.length (js "[")) with 1%nat. lia. }
  destruct Hfuel as (fuel & -> & Hfuel).
  change (js "[" ++ wrapper ++ nulls_tail n) with (91%N :: wrapper ++ nulls_tail n).
  assert (Hw : skip_space (wrapper ++ nulls_tail n) = 123%N :: tl (wrapper ++ nulls_tail n))
    by reflexivity.
  cbn [json_value skip_space is_json_space]. change (is_char "{" 91%N) with false.
  change (is_char "[" 91%N) with true. cbv iota. rewrite Hw.
  change (is_char "]" 123%N) with false. cbv iota.
  change (123%N :: tl (wrapper ++ nulls_tail n)) with (wrapper ++ nulls_tail n).
  rewrite json_elements_step. subst wrapper.
  rewrite json_value_wrapper by (reflexivity || lia).
  destruct n as [|n].
  - reflexivity.
  - unfold nulls_tail. change (skip_space (js "," ++ ?s)) with (44%N :: s). cbv iota.
    change (is_char "," 44%N) with true. cbv iota.
    rewrite json_elements_nulls by lia. reflexivity.
Qed.

Lemma reviver_null_placeholder (key : jsstring) :
  reviver key (placeholder (js "null")) = Ok VNull.
Proof. vm_compute. reflexivity. Qed.

(** The reviver fails on the second element, a null of the host. *)
Lemma internalize_nulls (n : nat) :
  internalize (full_reviver absent) []
    (VArray (placeholder (js "null") :: repeat VNull (S n)))
  = Throw (cannot_read (js "null") replacement_key).
Proof.
  cbn [internalize repeat placeholder bind].
  repeat rewrite full_reviver_absent. rewrite reviver_string. cbn [bind].
  fold (placeholder (js "null")).
  rewrite full_reviver_absent, reviver_null_placeholder. cbn [bind].
  reflexivity.
Qed.

Lemma parse_nulls (E : engine) (n : nat) :
  parse E (nulls_text (S (S n))) absent = Throw (cannot_read (js "null") replacement_key).
Proof.
  unfold parse. cbv zeta.
  rewrite processUnquoted_unquoted;
    [|rewrite nulls_text_first; discriminate
     |intros H; apply nulls_text_units in H; vm_compute in H; intuition discriminate].
  rewrite replaceFromString_nulls. unfold language_parse, JSON_parse.
  rewrite json_text_nulls, internalize_nulls. cbn [try_catch].
  unfold parse_catch.
  replace (exec matcher (error_toString (cannot_read (js "null") replacement_key)))
    with (@None found) by (vm_compute; reflexivity).
  reflexivity.
Qed.

(** X7. Arrays of nulls do not survive the round trip.  The encoder
    writes an array of [n] nulls as the text of [n] nulls between brackets,
    each placeholder of the host text being replaced; the decoder reads the
    empty array and the array of one null back, and for two nulls or more
    it raises a TypeError: of the nulls of the text, which holds no double
    quote and is one segment, the rewriter wraps the first, and the reviver
    reads a property of the second, a null of the host. *)
Theorem roundtrip_null_array (E : engine) (n : nat) :
  (3 <= stack_depth E)%nat ->
  stringify E (VArray (repeat VNull n)) absent VUndefined = Ok (VString (nulls_text n))
  /\ decode_encode E (VArray (repeat VNull n))
     = if (n <=? 1)%nat then Ok (VArray (repeat VNull n))
       else Throw (TypeError
                     (js "Cannot read properties of null (reading 'fprime{replacement')")).
Proof.
  intros Hdepth. pose proof (stringify_nulls E n Hdepth) as H. split; [exact H|].
  unfold decode_encode. rewrite H. cbn [bind].
  destruct n as [|[|n]]; [vm_compute; reflexivity | vm_compute; reflexivity |].
  apply parse_nulls.
Qed.

Lemma roundtrip_null_array_witness :
  (3 <= stack_depth spidermonkey)%nat
  /\ stringify spidermonkey (VArray (repeat VNull 3)) absent VUndefined
     = Ok (VString (nulls_text 3))
  /\ decode_encode spidermonkey (VArray (repeat VNull 3))
     = if (3 <=? 1)%nat then Ok (VArray (repeat VNull 3))
       else Throw (TypeError
                     (js "Cannot read properties of null (reading 'fprime{replacement')")).
Proof.
  assert (H : (3 <= stack_depth spidermonkey)%nat) by (vm_compute; lia).
  split; [exact H|]. apply (roundtrip_null_array spidermonkey 3 H).
Defined.

(** ** Ordinary values in the decoder *)

(** Induction on a value through its elements and properties. *)
Lemma jsvalue_nested_ind (P : jsvalue -> Prop) :
  P VUndefined -> P VNull -> (forall b, P (VBool b)) -> (forall x, P (VNumber x)) ->
  (forall z, P (VBigInt z)) -> (forall s, P (VString s)) ->
  (forall elements, Forall P elements -> P (VArray elements)) ->
  (forall properties, Forall (fun property => P (snd property)) properties ->
     P (VObject properties)) ->
  forall v, P v.
Proof.
  intros Hu Hn Hb Hx Hz Hs Ha Ho.
  fix self 1. intros [| |b|x|z|s|elements|properties].
  - exact Hu.
  - exact Hn.
  - apply Hb.
  - apply Hx.
  - apply Hz.
  - apply Hs.
  - apply Ha. induction elements as [|e l IH]; constructor; [apply self | exact IH].
  - apply Ho. induction properties as [|[k e] l IH]; constructor; [apply self | exact IH].
Qed.

Lemma lookup_has_property (key : jsstring) (properties : list (jsstring * jsvalue)) :
  has_property key properties = false -> lookup key properties = None.
Proof.
  induction properties as [|[k v] rest IH]; cbn; [reflexivity|].
  destruct (jsstring_eqb k key); [discriminate | exact IH].
Qed.

(** The reviver answers an ordinary value itself. *)
Lemma reviver_ordinary (key : jsstring) (v : jsvalue) :
  ordinary_value v = true -> reviver key v = Ok v.
Proof.
  destruct v as [| |b|x|z|s|elements|properties]; try discriminate; try reflexivity.
  cbn [ordinary_value]. intros H. apply andb_true_iff in H as [H _].
  apply negb_true_iff, lookup_has_property in H.
  unfold reviver, get. rewrite H. reflexivity.
Qed.

Lemma internalize_ordinary (v : jsvalue) :
  forall name, ordinary_value v = true -> internalize (full_reviver absent) name v = Ok v.
Proof.
  induction v as [| |b|x|z|s|elements IH|properties IH] using jsvalue_nested_ind;
    intros name Hv; try discriminate;
    try (cbn [internalize]; rewrite full_reviver_absent; now apply reviver_ordinary).
  - cbn [internalize].
    assert (Heach : forall i,
      (fix each (i : Z) (l : list jsvalue) : result (list jsvalue) :=
         match l with
         | [] => Ok []
         | e :: l' =>
             e' <- internalize (full_reviver absent) (decimal i) e ;;
             rest <- each (i + 1) l' ;;
             Ok (e' :: rest)
         end) i elements = Ok elements).
    { cbn [ordinary_value] in Hv. clear name.
      induction IH as [|e l He _ IHl]; intros i; [reflexivity|].
      cbn [forallb] in Hv. apply andb_true_iff in Hv as [Hv1 Hv2].
      rewrite He by assumption. cbn [bind]. rewrite IHl by assumption. reflexivity. }
    rewrite Heach. cbn [bind]. rewrite full_reviver_absent. now apply reviver_ordinary.
  - cbn [internalize].
    assert (Heach :
      (fix each (l : list (jsstring * jsvalue)) : result (list (jsstring * jsvalue)) :=
         match l with
         | [] => Ok []
         | (k, e) :: l' =>
             e' <- internalize (full_reviver absent) k e ;;
             rest <- each l' ;;
             Ok (match e' with
                 | VUndefined => rest
                 | _ => (k, e') :: rest
                 end)
         end) properties = Ok properties).
    { cbn [ordinary_value] in Hv. apply andb_true_iff in Hv as [_ Hv]. clear name.
      induction IH as [|[k e] l He _ IHl]; [reflexivity|].
      cbn [forallb snd] in Hv. apply andb_true_iff in Hv as [Hv1 Hv2].
      cbn [snd] in He. rewrite He by assumption. cbn [bind].
      rewrite IHl by assumption. cbn [bind]. destruct e; try reflexivity; discriminate. }
    rewrite Heach. cbn [bind]. rewrite full_reviver_absent. now apply reviver_ordinary.
Qed.

(** The host with a reviver that answers its value keeps every value
    without [undefined]. *)
Lemma internalize_identity (v : jsvalue) :
  forall name, ordinary_value v = true ->
    internalize (fun _ value => Ok value) name v = Ok v.
Proof.
  induction v as [| |b|x|z|s|elements IH|properties IH] using jsvalue_nested_ind;
    intros name Hv; try discriminate; try reflexivity.
  - cbn [internalize].
    assert (Heach : forall i,
      (fix each (i : Z) (l : list jsvalue) : result (list jsvalue) :=
         match l with
         | [] => Ok []
         | e :: l' =>
             e' <- internalize (fun _ value => Ok value) (decimal i) e ;;
             rest <- each (i + 1) l' ;;
             Ok (e' :: rest)
         end) i elements = Ok elements).
    { cbn [ordinary_value] in Hv. clear name.
      induction IH as [|e l He _ IHl]; intros i; [reflexivity|].
      cbn [forallb] in Hv. apply andb_true_iff in Hv as [Hv1 Hv2].
      rewrite He by assumption. cbn [bind]. rewrite IHl by assumption. reflexivity. }
    rewrite Heach. reflexivity.
  - cbn [internalize].
    assert (Heach :
      (fix each (l : list (jsstring * jsvalue)) : result (list (jsstring * jsvalue)) :=
         match l with
         | [] => Ok []
         | (k, e) :: l' =>
             e' <- internalize (fun _ value => Ok value) k e ;;
             rest <- each l' ;;
             Ok (match e' with
                 | VUndefined => rest
                 | _ => (k, e') :: rest
                 end)
         end) properties = Ok properties).
    { cbn [ordinary_value] in Hv. apply andb_true_iff in Hv as [_ Hv]. clear name.
      induction IH as [|[k e] l He _ IHl]; [reflexivity|].
      cbn [forallb snd] in Hv. apply andb_true_iff in Hv as [Hv1 Hv2].
      cbn [snd] in He. rewrite He by assumption. cbn [bind].
      rewrite IHl by assumption. cbn [bind]. destruct e; try reflexivity; discriminate. }
    rewrite Heach. reflexivity.
Qed.

(** X8. On a text in which the rewriter finds no token, and which the
    host reads as a value without null and without an object that has the
    placeholder key, the decoder answers what [JSON.parse] of the host
    answers: the value itself.  The reviver of the decoder leaves every
    such value as it is. *)
Theorem parse_ordinary_text (E : engine) (json_string : jsstring) (v : jsvalue) :
  processUnquoted json_string replaceFromString = json_string ->
  json_text json_string = Parsed v [] ->
  ordinary_value v = true ->
  parse E json_string absent = Ok v
  /\ language_parse E json_string (fun _ value => Ok value) = Ok v.
Proof.
  intros Hsame Htext Hv. unfold parse, language_parse, JSON_parse. cbv zeta.
  rewrite Hsame, Htext. cbn [try_catch].
  rewrite internalize_ordinary, internalize_identity by assumption.
  split; reflexivity.
Qed.

Lemma parse_ordinary_text_witness :
  processUnquoted (jq "{'name': 'N', 'ids': [1, 2.5e3, true]}") replaceFromString
  = jq "{'name': 'N', 'ids': [1, 2.5e3, true]}"
  /\ json_text (jq "{'name': 'N', 'ids': [1, 2.5e3, true]}")
     = Parsed (VObject [(js "name", VString (js "N"));
                        (js "ids", VArray [VNumber (number_of_Z 1);
                                           VNumber (number_of_Z 2500); VBool true])]) []
  /\ parse v8 (jq "{'name': 'N', 'ids': [1, 2.5e3, true]}") absent
     = Ok (VObject [(js "name", VString (js "N"));
                    (js "ids", VArray [VNumber (number_of_Z 1);
                                       VNumber (number_of_Z 2500); VBool true])])
  /\ language_parse v8 (jq "{'name': 'N', 'ids': [1, 2.5e3, true]}")
       (fun _ value => Ok value)
     = Ok (VObject [(js "name", VString (js "N"));
                    (js "ids", VArray [VNumber (number_of_Z 1);
                                       VNumber (number_of_Z 2500); VBool true])]).
Proof.
  assert (H1 : processUnquoted (jq "{'name': 'N', 'ids': [1, 2.5e3, true]}")
                 replaceFromString
               = jq "{'name': 'N', 'ids': [1, 2.5e3, true]}") by (vm_compute; reflexivity).
  assert (H2 : json_text (jq "{'name': 'N', 'ids': [1, 2.5e3, true]}")
     = Parsed (VObject [(js "name", VString (js "N"));
                        (js "ids", VArray [VNumber (number_of_Z 1);
                                           VNumber (number_of_Z 2500); VBool true])]) [])
    by (vm_compute; reflexivity).
  split; [exact H1|]. split; [exact H2|].
  apply (parse_ordinary_text v8 _ _ H1 H2). reflexivity.
Defined.

(** ** A reviver that is not a function *)

Lemma full_reviver_falsy (d : jsvalue) :
  truthy d = false -> full_reviver (Data d) = full_reviver absent.
Proof. intros H. unfold full_reviver, absent. cbn [truthy]. now rewrite H. Qed.

Lemma full_reviver_truthy (d : jsvalue) (key : jsstring) (value : jsvalue) :
  truthy d = true ->
  full_reviver (Data d) key value
  = match reviver key value with
    | Ok _ => Throw (TypeError (js "input_reviver is not a function"))
    | Throw e => Throw e
    end.
Proof.
  intros H. unfold full_reviver. rewrite H.
  destruct (reviver key value); reflexivity.
Qed.

Lemma full_reviver_truthy_error (d : jsvalue) (key : jsstring) (value : jsvalue) :
  truthy d = true ->
  (value <> VUndefined -> value <> VNull ->
   (forall properties, value = VObject properties ->
      lookup replacement_key properties = None) ->
   full_reviver (Data d) key value
   = Throw (TypeError (js "input_reviver is not a function")))
  /\ (is_object value = false -> reviver_type_error (full_reviver (Data d) key value)).
Proof.
  intros H. rewrite full_reviver_truthy by assumption. split.
  - intros Hu Hn Ho. destruct value as [| |b|x|z|s|l|l]; try congruence; try reflexivity.
    unfold reviver, get. rewrite (Ho l eq_refl). reflexivity.
  - intros Hobj. unfold reviver_type_error.
    destruct value as [| |b|x|z|s|l|l]; try discriminate; cbn; tauto.
Qed.

(** With such a reviver the first value that the host revives raises the
    error. *)
Lemma internalize_not_callable (d : jsvalue) (v : jsvalue) :
  truthy d = true ->
  forall name, reviver_type_error (internalize (full_reviver (Data d)) name v).
Proof.
  intros Hd.
  induction v as [| |b|x|z|s|elements IH|properties IH] using jsvalue_nested_ind;
    intros name;
    try (cbn [internalize]; now apply full_reviver_truthy_error).
  - cbn [internalize]. destruct IH as [|e l He _].
    + cbn [bind]. destruct (full_reviver_truthy_error d name (VArray []) Hd) as [H _].
      left. apply H; discriminate.
    + destruct (He (decimal 0)) as [H|[H|H]]; rewrite H; cbn [bind];
        unfold reviver_type_error; tauto.
  - cbn [internalize]. destruct IH as [|[k e] l He _].
    + cbn [bind]. destruct (full_reviver_truthy_error d name (VObject []) Hd) as [H _].
      left. apply H; try discriminate. now intros properties [= <-].
    + cbn [snd] in He. destruct (He k) as [H|[H|H]]; rewrite H; cbn [bind];
        unfold reviver_type_error; tauto.
Qed.

Lemma internalize_not_callable_ordinary (d : jsvalue) (v : jsvalue) :
  truthy d = true ->
  forall name, ordinary_value v = true ->
    internalize (full_reviver (Data d)) name v
    = Throw (TypeError (js "input_reviver is not a function")).
Proof.
  intros Hd.
  induction v as [| |b|x|z|s|elements IH|properties IH] using jsvalue_nested_ind;
    intros name Hv; try discriminate;
    try (cbn [internalize]; rewrite full_reviver_truthy by assumption; reflexivity).
  - cbn [internalize]. destruct IH as [|e l He _].
    + cbn [bind]. now rewrite full_reviver_truthy.
    + cbn [ordinary_value forallb] in Hv. apply andb_true_iff in Hv as [Hv _].
      now rewrite He.
  - cbn [internalize]. destruct IH as [|[k e] l He _].
    + cbn [bind]. now rewrite full_reviver_truthy.
    + cbn [ordinary_value forallb snd] in Hv. apply andb_true_iff in Hv as [_ Hv].
      apply andb_true_iff in Hv as [Hv _]. cbn [snd] in He. now rewrite He.
Qed.

Lemma parse_catch_type_error (converted_data : jsstring) (r : result jsvalue) :
  reviver_type_error r -> try_catch r (parse_catch converted_data) = r.
Proof.
  intros [ -> | [ -> | -> ] ]; cbn [try_catch]; unfold parse_catch.
  - replace (exec matcher (error_toString (TypeError (js "input_reviver is not a function"))))
      with (@None found) by (vm_compute; reflexivity).
    reflexivity.
  - replace (exec matcher (error_toString (cannot_read (js "null") replacement_key)))
      with (@None found) by (vm_compute; reflexivity).
    reflexivity.
  - replace (exec matcher (error_toString (cannot_read (js "undefined") replacement_key)))
      with (@None found) by (vm_compute; reflexivity).
    reflexivity.
Qed.

(** X9. A reviver that is not a function.  A falsy one (undefined, null,
    false, 0, NaN, the empty string) is the same as none.  With a truthy
    one the decoder never answers a value.  When the host reads the
    rewritten text, the composite reviver calls the reviver on the first
    value revived and the decoder raises a TypeError: that [input_reviver]
    is not a function when the value read is ordinary, and else this one or
    the error of the placeholder key read of [null] or of [undefined].
    When the host rejects the rewritten text, the decoder throws what the
    handler of its [catch] throws. *)
Theorem parse_reviver_not_a_function (E : engine) (json_string : jsstring)
  (d : jsvalue) :
  (truthy d = false -> parse E json_string (Data d) = parse E json_string absent)
  /\ (truthy d = true ->
      (exists e, parse E json_string (Data d) = Throw e)
      /\ forall v,
           json_text (processUnquoted json_string replaceFromString) = Parsed v [] ->
           reviver_type_error (parse E json_string (Data d))
           /\ (ordinary_value v = true ->
               parse E json_string (Data d)
               = Throw (TypeError (js "input_reviver is not a function")))).
Proof.
  split.
  - intros Hd. unfold parse. now rewrite full_reviver_falsy.
  - intros Hd. split.
    + unfold parse, language_parse, JSON_parse. cbv zeta.
      destruct (json_text (processUnquoted json_string replaceFromString)) as [v r|t|].
      * pose proof (internalize_not_callable d v Hd []) as H.
        rewrite parse_catch_type_error by exact H.
        destruct H as [ -> | [ -> | -> ] ]; eexists; reflexivity.
      * cbn [try_catch]. apply parse_catch_throws.
      * cbn [try_catch]. apply parse_catch_throws.
    + intros v Htext. split.
      * unfold parse, language_parse, JSON_parse. cbv zeta. rewrite Htext.
        pose proof (internalize_not_callable d v Hd []) as H.
        now rewrite parse_catch_type_error.
      * intros Hv. unfold parse, language_parse, JSON_parse. cbv zeta. rewrite Htext.
        rewrite internalize_not_callable_ordinary by assumption.
        apply (parse_catch_type_error _ _ (or_introl eq_refl)).
Qed.

Lemma parse_reviver_not_a_function_witness :
  truthy (VNumber (number_of_Z 5)) = true
  /\ json_text (processUnquoted (js "[1]") replaceFromString)
     = Parsed (VArray [VNumber (number_of_Z 1)]) []
  /\ ordinary_value (VArray [VNumber (number_of_Z 1)]) = true
  /\ (exists e, parse v8 (jq "{'t': 1700000000.5}") (Data (VNumber (number_of_Z 5)))
                = Throw e)
  /\ parse v8 (js "[1]") (Data (VNumber (number_of_Z 5)))
     = Throw (TypeError (js "input_reviver is not a function")).
Proof.
  assert (Ht : truthy (VNumber (number_of_Z 5)) = true) by reflexivity.
  assert (H : json_text (processUnquoted (js "[1]") replaceFromString)
              = Parsed (VArray [VNumber (number_of_Z 1)]) []) by (vm_compute; reflexivity).
  assert (Ho : ordinary_value (VArray [VNumber (number_of_Z 1)]) = true) by reflexivity.
  split; [exact Ht|]. split; [exact H|]. split; [exact Ho|]. split.
  - exact (proj1 (proj2 (parse_reviver_not_a_function v8 (jq "{'t': 1700000000.5}")
                           (VNumber (number_of_Z 5))) Ht)).
  - exact (proj2 (proj2 (proj2 (parse_reviver_not_a_function v8 (js "[1]")
                                  (VNumber (number_of_Z 5))) Ht) _ H) Ho).
Defined.

(** ** Payloads of the reviver *)

Lemma exec_literal_found (literal pre post : jsstring) :
  test (Group (Chars literal)) (pre ++ literal ++ post) = true.
Proof.
  unfold test. induction pre as [|c pre IH].
  - cbn [app]. pose proof (strip_prefix_app literal post) as Hs.
    destruct (literal ++ post) as [|c s]; cbn [exec match_here]; now rewrite Hs.
  - cbn [app]. rewrite exec_cons.
    destruct (match_here (Group (Chars literal)) (c :: pre ++ literal ++ post))
      as [[[m g] rest]|]; [reflexivity|].
    destruct (exec (Group (Chars literal)) (pre ++ literal ++ post)); [reflexivity|].
    discriminate.
Qed.

Lemma test_literal_none (literal s : jsstring) (c : code_unit) :
  In c literal -> ~ In c s -> test (Group (Chars literal)) s = false.
Proof. intros Hl Hs. unfold test. now rewrite (exec_literal_none literal s c). Qed.

(** X10. The reviver decides on what the text of the placeholder key
    contains, the entries of the table taken in order, and replaces the
    whole object, whatever other properties it has: a text that contains
    [-Infinity] gives negative infinity; one that contains [Infinity] and
    no minus sign gives infinity; one that contains [NaN] and no capital I
    gives not-a-number; one that contains [null] and neither capital I nor
    capital N gives null. *)
Theorem reviver_matches_inside_payload (key : jsstring)
  (properties : list (jsstring * jsvalue)) (before after : jsstring) :
  (lookup replacement_key properties = Some (VString (before ++ js "-Infinity" ++ after)) ->
   reviver key (VObject properties) = Ok (VNumber NegInfinity))
  /\ (lookup replacement_key properties = Some (VString (before ++ js "Infinity" ++ after)) ->
      ~ In 45%N (before ++ after) ->
      reviver key (VObject properties) = Ok (VNumber Infinity))
  /\ (lookup replacement_key properties = Some (VString (before ++ js "NaN" ++ after)) ->
      ~ In 73%N (before ++ after) ->
      reviver key (VObject properties) = Ok (VNumber NaN))
  /\ (lookup replacement_key properties = Some (VString (before ++ js "null" ++ after)) ->
      ~ In 73%N (before ++ after) -> ~ In 78%N (before ++ after) ->
      reviver key (VObject properties) = Ok VNull).
Proof.
  assert (Hin : forall c literal, ~ In c (before ++ after) -> ~ In c literal ->
                  ~ In c (before ++ literal ++ after)).
  { intros c literal H Hl Hc. apply in_app_or in Hc as [Hc|Hc].
    - apply H, in_or_app. now left.
    - apply in_app_or in Hc as [Hc|Hc]; [contradiction|]. apply H, in_or_app. now right. }
  assert (Hstep : forall payload,
            lookup replacement_key properties = Some (VString payload) ->
            reviver key (VObject properties)
            = reviver_loop MAPPINGS (VString payload) (VObject properties)).
  { intros payload H. unfold reviver, get. rewrite H. reflexivity. }
  repeat split.
  - intros H. rewrite (Hstep _ H).
    cbn [MAPPINGS reviver_loop pattern ToString converts to_string bind converter mapper_type].
    now rewrite exec_literal_found.
  - intros H Hminus. rewrite (Hstep _ H).
    cbn [MAPPINGS reviver_loop pattern ToString converts to_string bind converter mapper_type].
    rewrite (test_literal_none (js "-Infinity") _ 45%N);
      [|vm_compute; tauto | apply Hin; [assumption | vm_compute; intuition discriminate]].
    now rewrite exec_literal_found.
  - intros H HI. rewrite (Hstep _ H).
    cbn [MAPPINGS reviver_loop pattern ToString converts to_string bind converter mapper_type].
    rewrite (test_literal_none (js "-Infinity") _ 73%N);
      [|vm_compute; tauto | apply Hin; [assumption | vm_compute; intuition discriminate]].
    rewrite (test_literal_none (js "Infinity") _ 73%N);
      [|vm_compute; tauto | apply Hin; [assumption | vm_compute; intuition discriminate]].
    now rewrite exec_literal_found.
  - intros H HI HN. rewrite (Hstep _ H).
    cbn [MAPPINGS reviver_loop pattern ToString converts to_string bind converter mapper_type].
    rewrite (test_literal_none (js "-Infinity") _ 73%N);
      [|vm_compute; tauto | apply Hin; [assumption | vm_compute; intuition discriminate]].
    rewrite (test_literal_none (js "Infinity") _ 73%N);
      [|vm_compute; tauto | apply Hin; [assumption | vm_compute; intuition discriminate]].
    rewrite (test_literal_none (js "NaN") _ 78%N);
      [|vm_compute; tauto | apply Hin; [assumption | vm_compute; intuition discriminate]].
    now rewrite exec_literal_found.
Qed.

Lemma reviver_matches_inside_payload_witness :
  lookup replacement_key [(js "id", VBool true); (replacement_key, VString (js "annulled"))]
  = Some (VString (js "an" ++ js "null" ++ js "ed"))
  /\ ~ In 73%N (js "an" ++ js "ed") /\ ~ In 78%N (js "an" ++ js "ed")
  /\ reviver (js "k")
       (VObject [(js "id", VBool true); (replacement_key, VString (js "annulled"))])
     = Ok VNull.
Proof.
  assert (H1 : lookup replacement_key
                 [(js "id", VBool true); (replacement_key, VString (js "annulled"))]
               = Some (VString (js "an" ++ js "null" ++ js "ed"))) by reflexivity.
  assert (H2 : ~ In 73%N (js "an" ++ js "ed")) by (vm_compute; intuition discriminate).
  assert (H3 : ~ In 78%N (js "an" ++ js "ed")) by (vm_compute; intuition discriminate).
  split; [exact H1|]. split; [exact H2|]. split; [exact H3|].
  exact (proj2 (proj2 (proj2
    (reviver_matches_inside_payload (js "k")
       [(js "id", VBool true); (replacement_key, VString (js "annulled"))]
       (js "an") (js "ed")))) H1 H2 H3).
Defined.

(** ** The converter on white space *)

Lemma trim_start_white (s : jsstring) :
  forallb is_white_space s = true -> trim_start s = [].
Proof.
  induction s as [|c s IH]; cbn; [reflexivity|].
  destruct (is_white_space c); [exact IH | discriminate].
Qed.

(** X11. On the empty string and on a string of white space the
    converter answers the arbitrary-precision zero: the native parse gives
    not-a-number, whose text is not the trimmed input, and [BigInt] of the
    empty string is zero. *)
Theorem convertInt_of_white_space (string_value : jsstring) :
  forallb is_white_space string_value = true ->
  convertInt (VString string_value) = Ok (VBigInt 0).
Proof.
  intros H. unfold convertInt, trim. rewrite (trim_start_white string_value H).
  reflexivity.
Qed.

Lemma convertInt_of_white_space_witness :
  forallb is_white_space [32%N; 9%N; line_feed] = true
  /\ convertInt (VString [32%N; 9%N; line_feed]) = Ok (VBigInt 0).
Proof.
  split; [reflexivity|].
  apply (convertInt_of_white_space [32%N; 9%N; line_feed]). reflexivity.
Defined.

(** ** How much the rewriter changes *)

Lemma literal_captures_itself (literal : jsstring) :
  captures_itself (Group (Chars literal)).
Proof.
  intros s m g rest H. cbn [match_here] in H.
  destruct (strip_prefix literal s); [|discriminate]. now injection H as <- <- <-.
Qed.

Lemma digit_pattern_captures_itself : captures_itself digit_pattern.
Proof.
  intros s m g rest H. unfold digit_pattern in H. cbn [match_here] in H.
  destruct (strip_prefix (js " ") s) as [s1|]; [|discriminate].
  destruct s1 as [|d s']; [|destruct (unit_eqb 45%N d)];
    (match type of H with
     | context [span is_digit ?x] => destruct (span is_digit x) as [run r2]
     end;
     destruct (10 <=? List.length run)%nat; [|discriminate];
     now injection H as <- <- <-).
Qed.

Lemma exec_captures_itself (r : regex) (s : jsstring) (f : found) :
  captures_itself r -> exec r s = Some f -> captures f = [whole f].
Proof.
  intros Hr. revert f. induction s as [|c s IH]; intros f H.
  - cbn [exec] in H. destruct (match_here r []) as [[[m g] rest]|] eqn:Hm; [|discriminate].
    injection H as <-. cbn [captures whole]. exact (Hr _ _ _ _ Hm).
  - rewrite exec_cons in H.
    destruct (match_here r (c :: s)) as [[[m g] rest]|] eqn:Hm.
    + injection H as <-. cbn [captures whole]. exact (Hr _ _ _ _ Hm).
    + destruct (exec r s) as [f'|]; [|discriminate]. injection H as <-.
      cbn [captures whole]. now apply IH.
Qed.

(** One step of the rewriter lengthens the text by the 26 code units of
    a wrapper when its expression is found, and leaves it as it is
    otherwise. *)
Lemma replace_wrapper_length (r : regex) (s : jsstring) :
  captures_itself r ->
  (test r s = true /\ List.length (replace s r wrapper_template) = (List.length s + 26)%nat)
  \/ (test r s = false /\ replace s r wrapper_template = s).
Proof.
  intros Hr. unfold test, replace. destruct (exec r s) as [f|] eqn:Hf; [left|right; tauto].
  split; [reflexivity|].
  pose proof (exec_captures_itself r s f Hr Hf) as Hc.
  pose proof (exec_split r s f Hf) as Hs.
  destruct f as [b w g a]. cbn [captures whole before after] in *. subst g.
  rewrite substitute_wrapper_found, Hs, !length_app.
  change (List.length (jq "{'fprime{replacement': '")) with 24%nat.
  change (List.length (jq "'}")) with 2%nat. lia.
Qed.

Lemma MAPPINGS_capture_themselves :
  Forall (fun mapper => captures_itself (pattern mapper)) MAPPINGS.
Proof.
  unfold MAPPINGS. repeat constructor; cbn [pattern];
    (apply literal_captures_itself || apply digit_pattern_captures_itself).
Qed.

(** The rewriter over a part of the table. *)
Lemma rewrite_growth (mappings : list mapping) :
  Forall (fun mapper => captures_itself (pattern mapper)) mappings ->
  forall s,
    let s' := fold_left (fun string_value mapper =>
                           replace string_value (pattern mapper) wrapper_template)
                mappings s in
    (List.length s <= List.length s' <= List.length s + 26 * List.length mappings)%nat
    /\ (forallb (fun mapper => negb (test (pattern mapper) s)) mappings = true -> s' = s)
    /\ (forallb (fun mapper => negb (test (pattern mapper) s)) mappings = false ->
        (List.length s + 26 <= List.length s')%nat).
Proof.
  intros H. induction H as [|mapper rest Hm _ IH]; intros s; cbn [fold_left forallb List.length].
  - cbv zeta. repeat split; (lia || discriminate).
  - cbv zeta. specialize (IH (replace s (pattern mapper) wrapper_template)).
    cbv zeta in IH. destruct IH as (Hbound & Hsame & Hgrow).
    destruct (replace_wrapper_length (pattern mapper) s Hm) as [[Ht Hl]|[Ht Hl]];
      rewrite Ht; cbn [negb andb].
    + repeat split; (lia || discriminate).
    + rewrite Hl in *. repeat split; (lia || assumption).
Qed.

(** X12. The rewriter changes a segment exactly when an expression of
    the table is found in it.  It never shortens a segment, and it
    lengthens it by at most 130 code units, the wrappers of one match per
    entry of the table, however many tokens the segment holds. *)
Theorem replaceFromString_growth (string_value : jsstring) :
  (replaceFromString string_value = string_value
   <-> forallb (fun mapper => negb (test (pattern mapper) string_value)) MAPPINGS = true)
  /\ (List.length string_value <= List.length (replaceFromString string_value)
      <= List.length string_value + 130)%nat.
Proof.
  destruct (rewrite_growth MAPPINGS MAPPINGS_capture_themselves string_value)
    as (Hbound & Hsame & Hgrow).
  cbv zeta in *. fold (replaceFromString string_value) in *.
  change (26 * List.length MAPPINGS)%nat with 130%nat in Hbound.
  split; [|exact Hbound]. split; [|exact Hsame].
  intros Heq.
  destruct (forallb (fun mapper => negb (test (pattern mapper) string_value)) MAPPINGS)
    eqn:Hall; [reflexivity|].
  specialize (Hgrow eq_refl). rewrite Heq in Hgrow. lia.
Qed.

(** * Properties of the loader *)

Module LoaderFacts.

Import Loader.

Section Poller.

Variable JSON_parse : jsstring -> result jsvalue.
Variable JSON_stringify : jsvalue -> result jsvalue.
Variable default_interval : jsvalue.

Lemma jsstring_eqb_false (a b : jsstring) : jsstring_eqb a b = false <-> a <> b.
Proof.
  split.
  - intros H Heq. apply jsstring_eqb_eq in Heq. congruence.
  - intros H. destruct (jsstring_eqb a b) eqn:E; [|reflexivity].
    apply jsstring_eqb_eq in E. contradiction.
Qed.

(** Reading an endpoint after an assignment to a property of one. *)
Lemma find_update_same (key : jsstring) (f : endpoint -> endpoint)
  (table : list (jsstring * endpoint)) :
  find_endpoint key (update_endpoint key f table)
  = option_map f (find_endpoint key table).
Proof.
  induction table as [|[k e] rest IH]; [reflexivity|].
  cbn [update_endpoint find_endpoint].
  destruct (jsstring_eqb k key) eqn:E; cbn [find_endpoint]; rewrite E; [reflexivity | exact IH].
Qed.

Lemma find_update_other (key other : jsstring) (f : endpoint -> endpoint)
  (table : list (jsstring * endpoint)) :
  other <> key ->
  find_endpoint other (update_endpoint key f table) = find_endpoint other table.
Proof.
  intros Hne. induction table as [|[k e] rest IH]; [reflexivity|].
  cbn [update_endpoint find_endpoint].
  destruct (jsstring_eqb k key) eqn:E; cbn [find_endpoint].
  - apply jsstring_eqb_eq in E. subst k.
    assert (Hk : jsstring_eqb key other = false) by (apply jsstring_eqb_false; congruence).
    now rewrite Hk.
  - destruct (jsstring_eqb k other); [reflexivity | exact IH].
Qed.

(** A request without data is a GET without body. *)
Lemma load_get (self : loader) (random : Z) (endpoint : jsstring) :
  load JSON_stringify self random endpoint VUndefined VUndefined VUndefined
  = Ok (Sent (VString (js "GET"))
          (endpoint ++ js "?_no_cache=" ++ number_toString (number_of_Z random)
           ++ js "&session=" ++ session self)
          None VUndefined).
Proof. reflexivity. Qed.

Lemma in_flight_app (key : jsstring) (a b : list request) :
  in_flight key (a ++ b) = (in_flight key a + in_flight key b)%nat.
Proof. unfold in_flight. now rewrite filter_app, length_app. Qed.

Lemma take_request_some (key : jsstring) (queue : list request) (r : request)
  (others : list request) :
  take_request key queue = Some (r, others) ->
  context r = key
  /\ in_flight key queue = S (in_flight key others)
  /\ (forall other, other <> key -> in_flight other others = in_flight other queue).
Proof.
  revert r others. induction queue as [|q queue IH]; intros r others H; [discriminate|].
  cbn [take_request] in H. destruct (jsstring_eqb (context q) key) eqn:E.
  - injection H as <- <-. apply jsstring_eqb_eq in E. split; [exact E|].
    split.
    + unfold in_flight. cbn [filter]. apply jsstring_eqb_eq in E. now rewrite E.
    + intros other Hne. unfold in_flight. cbn [filter].
      assert (Ho : jsstring_eqb (context q) other = false)
        by (apply jsstring_eqb_false; congruence).
      now rewrite Ho.
  - destruct (take_request key queue) as [[found rest]|]; [|discriminate].
    injection H as <- <-. destruct (IH found rest eq_refl) as (Hc & Hn & Ho).
    split; [exact Hc|]. split.
    + unfold in_flight in *. cbn [filter]. rewrite E. exact Hn.
    + intros other Hne. unfold in_flight in *. cbn [filter].
      destruct (jsstring_eqb (context q) other); cbn [List.length];
        now rewrite (Ho other Hne).
Qed.

Lemma take_request_none (key : jsstring) (queue : list request) :
  in_flight key queue = 0%nat -> take_request key queue = None.
Proof.
  induction queue as [|q queue IH]; [reflexivity|].
  unfold in_flight. cbn [filter take_request].
  destruct (jsstring_eqb (context q) key); [discriminate|].
  intros H. now rewrite IH.
Qed.

(** *** What [poller] changes *)

Lemma poller_other (key other : jsstring) (callback : jsvalue -> action)
  (error_handler : jsstring -> reason -> action) (now : Z) (w : world) :
  other <> key ->
  find_endpoint other (endpoints (self (poller JSON_stringify key callback error_handler now w)))
  = find_endpoint other (endpoints (self w))
  /\ in_flight other (requests (poller JSON_stringify key callback error_handler now w))
     = in_flight other (requests w).
Proof.
  intros Hne. unfold poller.
  destruct (find_endpoint key (endpoints (self w))) as [c|]; [|split; reflexivity].
  destruct (running c).
  - cbn [with_endpoint self endpoints requests]. now rewrite find_update_other.
  - rewrite load_get.
    cbn [with_request with_trace with_endpoint self endpoints requests].
    rewrite find_update_other by assumption. split; [reflexivity|].
    rewrite in_flight_app. unfold in_flight at 2. cbn [filter context].
    assert (Hk : jsstring_eqb key other = false) by (apply jsstring_eqb_false; congruence).
    rewrite Hk. cbn [List.length]. lia.
Qed.

Lemma poller_running (key : jsstring) (callback : jsvalue -> action)
  (error_handler : jsstring -> reason -> action) (now : Z) (w : world) (c : endpoint) :
  find_endpoint key (endpoints (self w)) = Some c -> running c = true ->
  poller JSON_stringify key callback error_handler now w
  = with_endpoint key (set_queued true) w.
Proof. intros Hc Hr. unfold poller. now rewrite Hc, Hr. Qed.

Lemma poller_idle (key : jsstring) (callback : jsvalue -> action)
  (error_handler : jsstring -> reason -> action) (now : Z) (w : world) (c : endpoint) :
  find_endpoint key (endpoints (self w)) = Some c -> running c = false ->
  let w' := poller JSON_stringify key callback error_handler now w in
  find_endpoint key (endpoints (self w')) = Some (set_queued false (set_running true c))
  /\ in_flight key (requests w') = S (in_flight key (requests w))
  /\ timers w' = timers w.
Proof.
  intros Hc Hr. unfold poller. rewrite Hc, Hr, load_get.
  cbn [with_request with_trace with_endpoint self endpoints requests timers].
  rewrite find_update_same, Hc. cbn [option_map]. split; [reflexivity|].
  split; [|reflexivity].
  rewrite in_flight_app. unfold in_flight at 2. cbn [filter context].
  rewrite jsstring_eqb_refl. cbn [List.length]. lia.
Qed.

Lemma poller_one_request (key : jsstring) (callback : jsvalue -> action)
  (error_handler : jsstring -> reason -> action) (now : Z) (w : world) :
  (forall k c, find_endpoint k (endpoints (self w)) = Some c ->
     (in_flight k (requests w) <= 1)%nat
     /\ (running c = false -> in_flight k (requests w) = 0%nat)
     /\ (k <> key -> queued c = true -> running c = true)) ->
  one_request_at_a_time (poller JSON_stringify key callback error_handler now w).
Proof.
  intros Hw k c' Hc'.
  destruct (jsstring_eqb k key) eqn:Ek.
  - apply jsstring_eqb_eq in Ek. subst k.
    destruct (find_endpoint key (endpoints (self w))) as [c|] eqn:Hc.
    + destruct (Hw key c Hc) as (Hle & Hidle & _).
      destruct (running c) eqn:Hr.
      * rewrite (poller_running key _ _ now w c Hc Hr) in *.
        cbn [with_endpoint self endpoints requests] in *.
        rewrite find_update_same, Hc in Hc'. injection Hc' as <-.
        cbn [set_queued running queued]. rewrite Hr. repeat split; (assumption || congruence).
      * destruct (poller_idle key callback error_handler now w c Hc Hr) as (Hf & Hn & _).
        cbv zeta in Hf, Hn. rewrite Hf in Hc'. injection Hc' as <-.
        rewrite Hn, (Hidle eq_refl). cbn [set_queued set_running running queued].
        repeat split; (lia || congruence).
    + unfold poller in Hc'. rewrite Hc in Hc'. congruence.
  - apply jsstring_eqb_false in Ek.
    destruct (poller_other key k callback error_handler now w Ek) as [Hf Hn].
    rewrite Hf in Hc'. rewrite Hn. destruct (Hw k c' Hc') as (H1 & H2 & H3).
    repeat split; auto.
Qed.

Lemma poller_keeps_one_request (key : jsstring) (callback : jsvalue -> action)
  (error_handler : jsstring -> reason -> action) (now : Z) (w : world) :
  one_request_at_a_time w ->
  one_request_at_a_time (poller JSON_stringify key callback error_handler now w).
Proof.
  intros Hw. apply poller_one_request. intros k c Hc.
  destruct (Hw k c Hc) as (H1 & H2 & H3). repeat split; auto.
Qed.

(** *** What the handlers of the promise change *)

Lemma settle_keeps_one_request (r : request) (outcome : settlement) (now : Z) (w : world) :
  one_request_at_a_time w ->
  (forall c, find_endpoint (context r) (endpoints (self w)) = Some c ->
     in_flight (context r) (requests w) = 0%nat) ->
  one_request_at_a_time (settle JSON_stringify r outcome now w).
Proof.
  intros Hw Hnone. unfold settle.
  destruct (find_endpoint (context r) (endpoints (self w))) as [c|] eqn:Hc; [|exact Hw].
  specialize (Hnone c eq_refl).
  destruct (match outcome with
            | Resolved data =>
                or_catch (on_data (name c) (callback r) (on_error r) data)
                  (fun e => and_then ([Handled (name c) (Exception e)], Ok tt)
                              (on_error r (name c) (Exception e)))
            | Rejected_with value =>
                and_then ([Handled (name c) (Rejection value)], Ok tt)
                  (on_error r (name c) (Rejection value))
            end) as [log thrown].
  set (w2 := with_endpoint (context r) _ (with_trace _ w)).
  assert (H2 : forall k c', find_endpoint k (endpoints (self w2)) = Some c' ->
             (in_flight k (requests w2) <= 1)%nat
             /\ (running c' = false -> in_flight k (requests w2) = 0%nat)
             /\ (k <> context r -> queued c' = true -> running c' = true)
             /\ (k = context r -> queued c' = queued c)).
  { intros k c' Hc'. subst w2. cbn [with_endpoint with_trace self endpoints requests] in *.
    destruct (jsstring_eqb k (context r)) eqn:Ek.
    - apply jsstring_eqb_eq in Ek. subst k. rewrite find_update_same, Hc in Hc'.
      injection Hc' as <-. rewrite Hnone. cbn [set_last set_running running queued].
      repeat split; (lia || congruence).
    - apply jsstring_eqb_false in Ek. rewrite find_update_other in Hc' by assumption.
      destruct (Hw k c' Hc') as (H1 & H3 & H4).
      repeat split; intros; (assumption || congruence || auto). }
  destruct (queued c) eqn:Hq.
  - apply poller_one_request. intros k c' Hc'.
    destruct (H2 k c' Hc') as (H1 & H3 & H4 & _). repeat split; assumption.
  - intros k c' Hc'. destruct (H2 k c' Hc') as (H1 & H3 & H4 & H5).
    repeat split; try assumption. intros Hq'.
    destruct (jsstring_eqb k (context r)) eqn:Ek.
    + apply jsstring_eqb_eq in Ek. rewrite (H5 Ek) in Hq'. congruence.
    + apply jsstring_eqb_false in Ek. now apply H4.
Qed.

Lemma respond_keeps_one_request (key : jsstring) (readyState status : Z)
  (responseText : jsstring) (now : Z) (w : world) :
  one_request_at_a_time w ->
  one_request_at_a_time
    (respond JSON_parse JSON_stringify key readyState status responseText now w).
Proof.
  intros Hw. unfold respond.
  destruct (take_request key (requests w)) as [[r others]|] eqn:Ht; [|exact Hw].
  destruct (readyState =? 4); [|exact Hw].
  destruct (take_request_some key (requests w) r others Ht) as (Hr & Hn & Ho).
  set (w1 := {| self := self w; requests := others; timers := timers w;
                next_timer := next_timer w; trace := trace w |}).
  assert (Hw1 : one_request_at_a_time w1).
  { intros k c Hc. cbn [w1 self requests] in *. destruct (Hw k c Hc) as (Ha & Hb & Hc').
    destruct (jsstring_eqb k key) eqn:Ek.
    - apply jsstring_eqb_eq in Ek. subst k. repeat split; (lia || assumption).
    - apply jsstring_eqb_false in Ek. rewrite (Ho k Ek). repeat split; assumption. }
  assert (Hnone : forall c, find_endpoint (context r) (endpoints (self w1)) = Some c ->
                    in_flight (context r) (requests w1) = 0%nat).
  { intros c Hc. cbn [w1 self requests] in *. rewrite Hr in *.
    destruct (Hw key c Hc) as (Ha & _). lia. }
  destruct (onreadystatechange JSON_parse VUndefined readyState status responseText)
    as [[outcome|]|e].
  - now apply settle_keeps_one_request.
  - exact Hw1.
  - exact Hw1.
Qed.

(** *** What [registerPoller] changes *)

Lemma with_endpoint_keeps_one_request (key : jsstring) (f : endpoint -> endpoint)
  (w : world) :
  (forall e, running (f e) = running e /\ queued (f e) = queued e) ->
  one_request_at_a_time w -> one_request_at_a_time (with_endpoint key f w).
Proof.
  intros Hf Hw k c Hc. cbn [with_endpoint self endpoints requests] in *.
  destruct (jsstring_eqb k key) eqn:Ek.
  - apply jsstring_eqb_eq in Ek. subst k. rewrite find_update_same in Hc.
    destruct (find_endpoint key (endpoints (self w))) as [c0|] eqn:Hc0; [|discriminate].
    injection Hc as <-. destruct (Hf c0) as [-> ->]. now apply Hw.
  - apply jsstring_eqb_false in Ek. rewrite find_update_other in Hc by assumption.
    now apply Hw.
Qed.

Lemma registerPoller_keeps_one_request (endpoint : jsstring)
  (callback : jsvalue -> action) (error_handler : option (jsstring -> reason -> action))
  (interval : jsvalue) (w w' : world) :
  registerPoller default_interval endpoint callback error_handler interval w = Ok w' ->
  one_request_at_a_time w -> one_request_at_a_time w'.
Proof.
  unfold registerPoller. intros H Hw.
  destruct (find_endpoint endpoint (endpoints (self w))) as [c|]; [|discriminate].
  injection H as <-.
  assert (H : one_request_at_a_time
                (with_endpoint endpoint (set_interval (Some (next_timer
                   match endpoint_interval c with
                   | Some id => clearInterval id w
                   | None => w
                   end)))
                   match endpoint_interval c with
                   | Some id => clearInterval id w
                   | None => w
                   end)).
  { apply with_endpoint_keeps_one_request; [intros e; split; reflexivity|].
    destruct (endpoint_interval c); exact Hw. }
  exact H.
Qed.

Lemma step_keeps_one_request (w : world) (e : event) :
  one_request_at_a_time w ->
  one_request_at_a_time (step JSON_parse JSON_stringify default_interval w e).
Proof.
  intros Hw. destruct e as [id now|key readyState status responseText now
                           |endpoint callback error_handler interval]; cbn [step].
  - unfold fire. destruct (find _ (timers w)) as [[i t]|]; [|exact Hw].
    now apply poller_keeps_one_request.
  - now apply respond_keeps_one_request.
  - destruct (registerPoller default_interval endpoint callback error_handler interval w)
      as [w'|err] eqn:H.
    + exact (registerPoller_keeps_one_request _ _ _ _ _ _ H Hw).
    + exact Hw.
Qed.

Lemma start_one_request (time : Z) : one_request_at_a_time (start time).
Proof.
  intros key c Hc. cbn [start self requests in_flight filter List.length].
  split; [lia|]. split; [reflexivity|].
  cbn [start self constructor endpoints map find_endpoint] in Hc.
  repeat match type of Hc with
         | (if ?b then _ else _) = _ =>
             destruct b; [injection Hc as <-; discriminate|]
         end.
  discriminate.
Qed.

Lemma run_keeps_one_request (events : list event) (w : world) :
  one_request_at_a_time w ->
  one_request_at_a_time (run JSON_parse JSON_stringify default_interval events w).
Proof.
  unfold run. revert w. induction events as [|e events IH]; intros w Hw; [exact Hw|].
  cbn [fold_left]. apply IH. now apply step_keeps_one_request.
Qed.

(** *** A promise that is never settled *)

Lemma take_request_exists (key : jsstring) (queue : list request) :
  in_flight key queue <> 0%nat -> exists r others, take_request key queue = Some (r, others).
Proof.
  intros H. destruct (take_request key queue) as [[r others]|] eqn:Ht; [eauto|].
  exfalso. apply H. clear H. induction queue as [|q queue IH]; [reflexivity|].
  cbn [take_request] in Ht. unfold in_flight. cbn [filter].
  destruct (jsstring_eqb (context q) key); [discriminate|].
  destruct (take_request key queue) as [[found rest]|]; [discriminate|]. now apply IH.
Qed.

Lemma settle_other (key : jsstring) (r : request) (outcome : settlement) (now : Z)
  (w : world) :
  context r <> key ->
  find_endpoint key (endpoints (self (settle JSON_stringify r outcome now w)))
  = find_endpoint key (endpoints (self w))
  /\ in_flight key (requests (settle JSON_stringify r outcome now w))
     = in_flight key (requests w).
Proof.
  intros Hne. unfold settle.
  destruct (find_endpoint (context r) (endpoints (self w))) as [c|]; [|split; reflexivity].
  destruct (match outcome with
            | Resolved data => _
            | Rejected_with value => _
            end) as [log thrown].
  set (w2 := with_endpoint (context r) _ (with_trace _ w)).
  assert (H2 : find_endpoint key (endpoints (self w2)) = find_endpoint key (endpoints (self w))
               /\ in_flight key (requests w2) = in_flight key (requests w)).
  { subst w2. cbn [with_endpoint with_trace self endpoints requests].
    rewrite find_update_other by congruence. split; reflexivity. }
  destruct (queued c); [|exact H2].
  destruct (poller_other (context r) key (callback r) (on_error r) now w2
              ltac:(congruence)) as [Hf Hn].
  rewrite Hf, Hn. exact H2.
Qed.

Lemma step_keeps_stuck (key : jsstring) (w : world) (e : event) :
  stuck key w -> stuck key (step JSON_parse JSON_stringify default_interval w e).
Proof.
  intros (c & Hc & Hr & Hn).
  destruct e as [id now|k readyState status responseText now
                |endpoint callback error_handler interval]; cbn [step].
  - unfold fire. destruct (find _ (timers w)) as [[i t]|]; [|exists c; tauto].
    destruct (jsstring_eqb (timer_context t) key) eqn:Ek.
    + apply jsstring_eqb_eq in Ek. rewrite Ek.
      rewrite (poller_running key _ _ now w c Hc Hr).
      exists (set_queued true c). cbn [with_endpoint self endpoints requests].
      rewrite find_update_same, Hc. repeat split; assumption.
    + apply jsstring_eqb_false in Ek.
      destruct (poller_other (timer_context t) key (timer_callback t)
                  (timer_error_handler t) now w ltac:(congruence)) as [Hf Hi].
      exists c. rewrite Hf, Hi. tauto.
  - unfold respond. destruct (jsstring_eqb k key) eqn:Ek.
    + apply jsstring_eqb_eq in Ek. subst k. rewrite (take_request_none key _ Hn).
      exists c. tauto.
    + apply jsstring_eqb_false in Ek.
      destruct (take_request k (requests w)) as [[r others]|] eqn:Ht; [|exists c; tauto].
      destruct (readyState =? 4); [|exists c; tauto].
      destruct (take_request_some k (requests w) r others Ht) as (Hk & _ & Ho).
      assert (H1 : in_flight key others = 0%nat) by (rewrite Ho; [exact Hn | congruence]).
      destruct (onreadystatechange JSON_parse VUndefined readyState status responseText)
        as [[outcome|]|err].
      * destruct (settle_other key r outcome now
                    {| self := self w; requests := others; timers := timers w;
                       next_timer := next_timer w; trace := trace w |}
                    ltac:(congruence)) as [Hf Hi].
        exists c. rewrite Hf, Hi. cbn [self requests]. tauto.
      * exists c. cbn [self requests]. tauto.
      * exists c. cbn [with_trace self requests]. tauto.
  - unfold registerPoller.
    destruct (find_endpoint endpoint (endpoints (self w))) as [c0|] eqn:Hc0;
      [|exists c; cbn [with_trace self requests]; tauto].
    assert (Hclear : forall w0,
              self match endpoint_interval c0 with Some id => clearInterval id w0 | None => w0 end
              = self w0
              /\ requests match endpoint_interval c0 with
                         | Some id => clearInterval id w0 | None => w0 end
                 = requests w0)
      by (intros w0; destruct (endpoint_interval c0); split; reflexivity).
    destruct (Hclear w) as [Hs Hq]. unfold stuck.
    cbn [with_endpoint self endpoints requests]. rewrite Hs, Hq.
    destruct (jsstring_eqb endpoint key) eqn:Ek.
    + apply jsstring_eqb_eq in Ek. subst endpoint. rewrite find_update_same, Hc.
      eexists. split; [reflexivity|]. cbn [set_interval running]. tauto.
    + apply jsstring_eqb_false in Ek. rewrite find_update_other by congruence.
      exists c. tauto.
Qed.

Lemma run_keeps_stuck (key : jsstring) (events : list event) (w : world) :
  stuck key w -> stuck key (run JSON_parse JSON_stringify default_interval events w).
Proof.
  unfold run. revert w. induction events as [|e events IH]; intros w Hw; [exact Hw|].
  cbn [fold_left]. apply IH. now apply step_keeps_stuck.
Qed.

(** A response that [JSON.parse] throws on leaves the endpoint stuck. *)
Lemma respond_exception (key : jsstring) (responseText : jsstring) (now : Z) (w : world)
  (e : error) :
  one_request_at_a_time w ->
  find_endpoint key (endpoints (self w)) <> None ->
  in_flight key (requests w) <> 0%nat ->
  JSON_parse responseText = Throw e ->
  stuck key (respond JSON_parse JSON_stringify key 4 200 responseText now w).
Proof.
  intros Hw Hkey Hn Hthrow.
  destruct (find_endpoint key (endpoints (self w))) as [c|] eqn:Hc; [|congruence].
  destruct (Hw key c Hc) as (Hle & Hidle & _).
  destruct (take_request_exists key (requests w) Hn) as (r & others & Ht).
  destruct (take_request_some key (requests w) r others Ht) as (_ & Hs & _).
  unfold respond, onreadystatechange. rewrite Ht, Hthrow.
  cbn [Z.eqb Pos.eqb andb truthy bind with_trace].
  exists c. cbn [with_trace self requests]. split; [exact Hc|]. split; [|lia].
  destruct (running c); [reflexivity|]. specialize (Hidle eq_refl). lia.
Qed.

(** *** Timers *)












Lemma filter_keeps_all {A} (p : A -> bool) (l : list A) :
  (forall x, In x l -> p x = true) -> filter p l = l.
Proof.
  induction l as [|x l IH]; intros H; [reflexivity|].
  cbn [filter]. rewrite (H x (or_introl eq_refl)), IH; [reflexivity|].
  intros y Hy. apply H. now right.
Qed.





(** *** The promise of [setup] *)

Lemma setup_loop_waiting (now : Z) (table : list (jsstring * endpoint)) :
  forall state,
    let state' := setup_loop JSON_stringify now table state in
    waiting state'
    = waiting state ++ map fst (filter (fun entry => needs_loading (snd entry)) table)
    /\ pending state'
       = pending state
         + Z.of_nat (List.length (filter (fun entry => needs_loading (snd entry)) table))
    /\ promise state' = promise state.
Proof.
  induction table as [|[key e] rest IH]; intros state; cbv zeta.
  - cbn [setup_loop filter map List.length]. rewrite app_nil_r. repeat split. lia.
  - cbn [setup_loop filter snd]. destruct (needs_loading e).
    + rewrite load_get. specialize (IH
        {| setup_self := setup_self state; pending := pending state + 1;
           waiting := waiting state ++ [key]; promise := promise state;
           sent := sent state
                   ++ [Sent (VString (js "GET"))
                         (url e ++ js "?_no_cache=" ++ number_toString (number_of_Z now)
                          ++ js "&session=" ++ session (setup_self state))
                         None VUndefined] |}).
      cbv zeta in IH. destruct IH as (Hw & Hp & Hpr). rewrite Hw, Hp, Hpr.
      cbn [waiting pending promise map fst List.length]. rewrite <- app_assoc.
      repeat split. lia.
    + apply IH.
Qed.

Lemma filter_other_length (key : jsstring) (keys : list jsstring) :
  NoDup keys -> In key keys ->
  S (List.length (filter (fun k => negb (jsstring_eqb key k)) keys)) = List.length keys
  /\ NoDup (filter (fun k => negb (jsstring_eqb key k)) keys).
Proof.
  intros Hnd Hin. split; [|now apply NoDup_filter].
  induction keys as [|k keys IH]; [destruct Hin|].
  apply NoDup_cons_iff in Hnd as [Hnot Hnd]. cbn [filter].
  destruct (jsstring_eqb key k) eqn:Ek; cbn [negb List.length].
  - apply jsstring_eqb_eq in Ek. subst k. f_equal. f_equal.
    apply filter_keeps_all. intros x Hx. apply negb_true_iff, jsstring_eqb_false.
    intros ->. contradiction.
  - f_equal. apply IH; [assumption|]. destruct Hin as [->|Hin]; [|exact Hin].
    rewrite jsstring_eqb_refl in Ek. discriminate.
Qed.

Lemma fulfilled_stays (responses : list (jsstring * Z * jsstring)) :
  forall state, promise state = Some Fulfilled ->
    promise (fold_left (setup_respond JSON_parse) responses state) = Some Fulfilled.
Proof.
  induction responses as [|[[key status] text] rest IH]; intros state H; [exact H|].
  cbn [fold_left]. apply IH. unfold setup_respond.
  destruct (existsb (jsstring_eqb key) (waiting state)); [|exact H].
  destruct (onreadystatechange JSON_parse VUndefined 4 status text) as [[[data|value]|]|e];
    cbn [promise]; rewrite ?H; try reflexivity.
  destruct (pending state - 1 =? 0); reflexivity.
Qed.

Lemma existsb_key (key : jsstring) (keys : list jsstring) :
  existsb (jsstring_eqb key) keys = true <-> In key keys.
Proof.
  rewrite existsb_exists. split.
  - intros (x & Hx & E). apply jsstring_eqb_eq in E. now subst.
  - intros H. exists key. split; [exact H | apply jsstring_eqb_refl].
Qed.

Lemma answered_other (k : jsstring) (status : Z) (text : jsstring)
  (rest : list (jsstring * Z * jsstring)) (keys : list jsstring) :
  ~ In k keys ->
  forallb (fun key => answered_with_data JSON_parse key ((k, status, text) :: rest)) keys
  = forallb (fun key => answered_with_data JSON_parse key rest) keys.
Proof.
  intros Hk. induction keys as [|x keys IH]; [reflexivity|].
  cbn [forallb answered_with_data].
  assert (Hx : jsstring_eqb x k = false).
  { apply jsstring_eqb_false. intros ->. apply Hk. now left. }
  rewrite Hx. f_equal. apply IH. intros Hin. apply Hk. now right.
Qed.

Lemma answered_split (k : jsstring) (status : Z) (text : jsstring)
  (rest : list (jsstring * Z * jsstring)) (keys : list jsstring) :
  NoDup keys -> In k keys ->
  forallb (fun key => answered_with_data JSON_parse key ((k, status, text) :: rest)) keys
  = answered_with_data JSON_parse k ((k, status, text) :: rest)
    && forallb (fun key => answered_with_data JSON_parse key rest)
         (filter (fun x => negb (jsstring_eqb k x)) keys).
Proof.
  intros Hnd Hin. induction keys as [|x keys IH]; [destruct Hin|].
  apply NoDup_cons_iff in Hnd as [Hnot Hnd]. cbn [forallb filter].
  destruct (jsstring_eqb k x) eqn:Ek; cbn [negb].
  - apply jsstring_eqb_eq in Ek. subst x. f_equal.
    rewrite answered_other by assumption. f_equal. symmetry. apply filter_keeps_all.
    intros y Hy. apply negb_true_iff, jsstring_eqb_false. intros ->. contradiction.
  - destruct Hin as [->|Hin]; [rewrite jsstring_eqb_refl in Ek; discriminate|].
    rewrite (IH Hnd Hin). cbn [forallb].
    assert (Hx : answered_with_data JSON_parse x ((k, status, text) :: rest)
                 = answered_with_data JSON_parse x rest).
    { cbn [answered_with_data].
      assert (Hxk : jsstring_eqb x k = false).
      { apply jsstring_eqb_false. intros ->. rewrite jsstring_eqb_refl in Ek. discriminate. }
      now rewrite Hxk. }
    rewrite Hx.
    destruct (answered_with_data JSON_parse k ((k, status, text) :: rest)),
      (answered_with_data JSON_parse x rest); reflexivity.
Qed.

(** The promise of [setup] over the answers, from a state in which [debt]
    loads have failed. *)
Lemma setup_respond_fulfils (responses : list (jsstring * Z * jsstring)) :
  forall state debt,
    NoDup (waiting state) ->
    pending state = Z.of_nat (List.length (waiting state)) + debt -> 0 <= debt ->
    promise state = None \/ ((exists r, promise state = Some (Broken r)) /\ 0 < debt) ->
    (promise (fold_left (setup_respond JSON_parse) responses state) = Some Fulfilled
     <-> debt = 0 /\ waiting state <> []
         /\ forallb (fun key => answered_with_data JSON_parse key responses) (waiting state)
            = true).
Proof.
  induction responses as [|[[k status] text] rest IH]; intros state debt Hnd Hp Hd Hpr.
  - cbn [fold_left]. split.
    + intros H. destruct Hpr as [Hpr|[[r Hpr] _]]; congruence.
    + intros (_ & Hne & Hall). destruct (waiting state); [congruence | discriminate].
  - cbn [fold_left]. unfold setup_respond at 2.
    destruct (existsb (jsstring_eqb k) (waiting state)) eqn:Hk.
    + apply existsb_key in Hk.
      destruct (filter_other_length k (waiting state) Hnd Hk) as [Hlen Hnd'].
      rewrite (answered_split k status text rest (waiting state) Hnd Hk).
      cbn [answered_with_data]. rewrite jsstring_eqb_refl.
      unfold onreadystatechange. change (4 =? 4) with true. cbn [andb truthy].
      destruct (Z.eqb_spec status 200) as [->|Hstatus].
      * cbn [andb]. destruct (JSON_parse text) as [data|e]; cbn [bind andb].
        -- set (state' := {| setup_self := _; pending := pending state - 1;
                             waiting := _; promise := _; sent := sent state |}).
           destruct (Z.eqb_spec (pending state - 1) 0) as [Hzero|Hpos].
           ++ assert (Hdebt : debt = 0) by lia.
              assert (Hnil : filter (fun x => negb (jsstring_eqb k x)) (waiting state) = []).
              { destruct (filter _ (waiting state)); [reflexivity|]. cbn in Hlen. lia. }
              assert (Hful : promise state' = Some Fulfilled).
              { subst state'. cbn [promise].
                destruct Hpr as [->|[_ Hpos]]; [reflexivity | lia]. }
              rewrite (fulfilled_stays rest state' Hful), Hnil. cbn [forallb].
              split; [intros _|reflexivity].
              repeat split; [assumption|]. intros Hw. rewrite Hw in Hk. destruct Hk.
           ++ rewrite (IH state' debt); subst state'; cbn [waiting pending promise];
                [|assumption | lia | assumption | assumption].
              split.
              ** intros (Hdebt & Hne & Hall). repeat split; [assumption| |assumption].
                 intros Hw. rewrite Hw in Hk. destruct Hk.
              ** intros (Hdebt & Hne & Hall). repeat split; [assumption| |assumption].
                 intros Hnil. rewrite Hnil in Hlen. cbn in Hlen. lia.
        -- rewrite (IH _ (debt + 1)); cbn [waiting pending promise];
             [|assumption | lia | lia
              |destruct Hpr as [Hpr|[Hpr _]]; [now left | right; split; [assumption | lia]]].
           split; [intros (? & _); lia | intros (_ & _ & [=])].
      * cbn [andb].
        rewrite (IH _ (debt + 1)); cbn [waiting pending promise];
          [|assumption | lia | lia|].
        -- split; [intros (? & _); lia | intros (_ & _ & [=])].
        -- right. split; [|lia]. unfold settle_once.
           destruct Hpr as [->|[[r ->] _]]; eauto.
    + assert (Hnot : ~ In k (waiting state)).
      { intros Hin. apply existsb_key in Hin. congruence. }
      rewrite (answered_other k status text rest (waiting state) Hnot).
      now apply IH.
Qed.

End Poller.

(** X13. One request at a time.  Whatever timers are set and fire,
    whatever the requests are answered with and whenever, and whatever the
    callbacks and error handlers log or throw, an endpoint of the loader
    never has more than one request under way; an endpoint that is not
    marked as running has none; and an endpoint is marked as queued only
    while it is marked as running. *)
Theorem poller_one_request_at_a_time (JSON_parse : jsstring -> result jsvalue)
  (JSON_stringify : jsvalue -> result jsvalue) (default_interval : jsvalue)
  (time : Z) (events : list event) :
  one_request_at_a_time (run JSON_parse JSON_stringify default_interval events (start time)).
Proof. apply run_keeps_one_request, start_one_request. Qed.

(** X14. A response that cannot be decoded stops the polling of its
    endpoint for good.  When the request of an endpoint is answered with
    status 200 and a text on which [JSON.parse] throws, the exception
    leaves the handler of the request, the promise of [load] is never
    settled, and the endpoint stays marked as running: whatever happens
    afterwards, timers that fire and new registrations included, no
    request is made for that endpoint again. *)
Theorem poller_stops_after_undecodable_response
  (JSON_parse : jsstring -> result jsvalue) (JSON_stringify : jsvalue -> result jsvalue)
  (default_interval : jsvalue) (time : Z) (before after : list event)
  (key responseText : jsstring) (now : Z) (e : error) :
  let w := run JSON_parse JSON_stringify default_interval before (start time) in
  find_endpoint key (endpoints (self w)) <> None ->
  in_flight key (requests w) <> 0%nat ->
  JSON_parse responseText = Throw e ->
  stuck key
    (run JSON_parse JSON_stringify default_interval
       (before ++ ReadyState key 4 200 responseText now :: after) (start time)).
Proof.
  intros w Hkey Hn Hthrow. unfold run. rewrite fold_left_app. cbn [fold_left step].
  apply run_keeps_stuck. apply respond_exception with (e := e); try assumption.
  apply run_keeps_one_request, start_one_request.
Qed.

Lemma poller_stops_after_undecodable_response_witness :
  let JSON_parse := fun text => parse spidermonkey text absent in
  let JSON_stringify := fun data => stringify spidermonkey data absent VUndefined in
  let before := [Register (js "events") (fun _ => done) None VUndefined; Fire 0 1000] in
  let after := [Fire 0 2000; Fire 0 3000] in
  let w := run JSON_parse JSON_stringify VUndefined before (start 0) in
  find_endpoint (js "events") (endpoints (self w)) <> None
  /\ in_flight (js "events") (requests w) <> 0%nat
  /\ JSON_parse (jq "[null, null]")
     = Throw (TypeError (js "Cannot read properties of null (reading 'fprime{replacement')"))
  /\ stuck (js "events")
       (run JSON_parse JSON_stringify VUndefined
          (before ++ ReadyState (js "events") 4 200 (jq "[null, null]") 1500 :: after)
          (start 0)).
Proof.
  intros JSON_parse JSON_stringify before after w.
  assert (H1 : find_endpoint (js "events") (endpoints (self w)) <> None)
    by (vm_compute; discriminate).
  assert (H2 : in_flight (js "events") (requests w) <> 0%nat) by (vm_compute; lia).
  assert (H3 : JSON_parse (jq "[null, null]")
               = Throw (TypeError
                          (js "Cannot read properties of null (reading 'fprime{replacement')")))
    by (vm_compute; reflexivity).
  split; [exact H1|]. split; [exact H2|]. split; [exact H3|].
  exact (poller_stops_after_undecodable_response JSON_parse JSON_stringify VUndefined 0
           before after (js "events") (jq "[null, null]") 1500 _ H1 H2 H3).
Defined.


(** X16. The promise of [setup].  [setup] sends a request for each
    endpoint that is marked for start-up and has no data yet, and its
    promise is fulfilled exactly when there is at least one such endpoint
    and the first answer to each of their requests has status 200 and a
    text that [JSON.parse] reads, in whatever order the answers arrive.
    With nothing to load the promise is never settled: [setup] on a loader
    whose dictionaries are loaded answers a promise that stays pending. *)
Theorem setup_promise_fulfilled (JSON_parse : jsstring -> result jsvalue)
  (JSON_stringify : jsvalue -> result jsvalue) (self : loader) (now : Z)
  (responses : list (jsstring * Z * jsstring)) :
  NoDup (map fst (endpoints self)) ->
  let state := setup JSON_stringify self now in
  let final := fold_left (setup_respond JSON_parse) responses state in
  waiting state = map fst (filter (fun entry => needs_loading (snd entry)) (endpoints self))
  /\ (promise final = Some Fulfilled
      <-> waiting state <> []
          /\ forallb (fun key => answered_with_data JSON_parse key responses)
               (waiting state) = true)
  /\ (waiting state = [] -> promise final = None).
Proof.
  intros Hnd state final.
  destruct (setup_loop_waiting JSON_stringify now (endpoints self)
              {| setup_self := self; pending := 0; waiting := []; promise := None;
                 sent := [] |}) as (Hw & Hp & Hpr).
  cbv zeta in Hw, Hp, Hpr. fold (setup JSON_stringify self now) in Hw, Hp, Hpr.
  fold state in Hw, Hp, Hpr. cbn [waiting pending promise app] in Hw, Hp, Hpr.
  assert (Hnd' : NoDup (waiting state)).
  { rewrite Hw. clear -Hnd. induction (endpoints self) as [|[k e] rest IH]; [constructor|].
    cbn [map fst] in Hnd. apply NoDup_cons_iff in Hnd as [Hnot Hnd].
    cbn [filter snd]. destruct (needs_loading e); [|now apply IH].
    cbn [map fst]. constructor; [|now apply IH].
    intros Hin. apply Hnot. apply in_map_iff in Hin as (x & Hx & Hin).
    apply filter_In in Hin as [Hin _]. rewrite <- Hx. now apply in_map. }
  assert (Hpending : pending state = Z.of_nat (List.length (waiting state)) + 0).
  { rewrite Hp, Hw, length_map. lia. }
  pose proof (setup_respond_fulfils JSON_parse responses state 0 Hnd' Hpending
                ltac:(lia) (or_introl Hpr)) as Hiff.
  split; [exact Hw|]. split.
  - subst final. rewrite Hiff. tauto.
  - intros Hnil. subst final.
    clear -Hnil Hpr. revert Hnil Hpr. generalize state. clear state.
    induction responses as [|[[k status] text] rest IH]; intros state Hnil Hpr; [exact Hpr|].
    cbn [fold_left]. unfold setup_respond at 2. rewrite Hnil. cbn [existsb].
    now apply IH.
Qed.

Lemma setup_promise_fulfilled_witness :
  let JSON_parse := fun text => parse spidermonkey text absent in
  let JSON_stringify := fun data => stringify spidermonkey data absent VUndefined in
  let responses := [(js "event-dict", 200, jq "{'1': NaN}"); (js "stats", 200, js "[]");
                    (js "command-dict", 200, js "{}"); (js "channel-dict", 200, js "[]")] in
  let state := setup JSON_stringify (constructor 0) 10 in
  let final := fold_left (setup_respond JSON_parse) responses state in
  NoDup (map fst (endpoints (constructor 0)))
  /\ waiting state
     = map fst (filter (fun entry => needs_loading (snd entry)) (endpoints (constructor 0)))
  /\ (promise final = Some Fulfilled
      <-> waiting state <> []
          /\ forallb (fun key => answered_with_data JSON_parse key responses)
               (waiting state) = true)
  /\ (waiting state = [] -> promise final = None).
Proof.
  intros JSON_parse JSON_stringify responses state final.
  assert (H : NoDup (map fst (endpoints (constructor 0)))).
  { cbn [constructor endpoints map fst].
    repeat (constructor; [cbn [In]; intuition discriminate|]). constructor. }
  split; [exact H|].
  exact (setup_promise_fulfilled JSON_parse JSON_stringify (constructor 0) 10 responses H).
Defined.

End LoaderFacts.

(** ** Data that the encoder leaves to the host *)

Lemma replaceFromObject_kept (key : jsstring) (value : jsvalue) :
  converts value = true -> replaced value = false ->
  replaceFromObject key value = Ok value.
Proof.
  intros Hc Hr. now rewrite replaceFromObject_cases, Hc, Hr.
Qed.

(** On kept data the callback of the encoder changes nothing, at any
    depth. *)
Lemma serialize_kept (depth : nat) :
  forall gap indent key value,
    kept value = true ->
    serialize depth (full_replacer absent) gap indent key value
    = serialize depth (fun _ value => Ok value) gap indent key value.
Proof.
  induction depth as [|depth IH]; intros gap indent key value Hk; [reflexivity|].
  cbn [serialize]. unfold full_replacer at 1. cbn [absent isArray isFunction andb bind].
  destruct value as [| |b|x|z|s|elements|properties]; cbn [kept] in Hk;
    apply andb_true_iff in Hk as [Hr Hk]; apply andb_true_iff in Hr as [Hc Hr];
    apply negb_true_iff in Hr;
    rewrite (replaceFromObject_kept key _ Hc Hr); cbn [bind]; try reflexivity.
  - match goal with
    | |- bind (?F 0 elements) _ = bind (?G 0 elements) _ =>
        assert (Heach : forall i, F i elements = G i elements)
    end.
    { clear Hr Hc. induction elements as [|e elements IHe]; intros i; [reflexivity|].
      cbn [forallb] in Hk. apply andb_true_iff in Hk as [He Hk].
      rewrite (IH gap (indent ++ gap) (decimal i) e He). rewrite (IHe Hk). reflexivity. }
    rewrite Heach. reflexivity.
  - apply andb_true_iff in Hk as [_ Hk].
    match goal with
    | |- bind (?F properties) _ = bind (?G properties) _ =>
        assert (Heach : F properties = G properties)
    end.
    { clear Hr Hc. induction properties as [|[k e] properties IHe]; [reflexivity|].
      cbn [forallb snd] in Hk. apply andb_true_iff in Hk as [He Hk].
      rewrite (IH gap (indent ++ gap) k e He). rewrite (IHe Hk). reflexivity. }
    rewrite Heach. reflexivity.
Qed.

(** *** Where a placeholder wrapper can start *)

Lemma match_after_brace (text : jsstring) :
  match_here after_brace text = None -> match_here post_pattern (123%N :: text) = None.
Proof.
  intros H. change post_pattern with (Chars (js "{") >> after_brace)%regex.
  change (123%N :: text) with (js "{" ++ text). rewrite match_chars_then, H. reflexivity.
Qed.

Lemma after_brace_space (c : code_unit) (text : jsstring) :
  is_white_space c = true ->
  match_here after_brace text = None -> match_here after_brace (c :: text) = None.
Proof.
  intros Hc. unfold after_brace. cbn [match_here span]. rewrite Hc.
  destruct (span is_white_space text) as [run rest]. cbn [Nat.leb].
  destruct (strip_prefix (jq "'fprime{replacement'") rest); [|reflexivity].
  match goal with
  | |- match ?m with _ => _ end = None -> _ => destruct m as [[[m2 g2] r2]|]
  end; [discriminate | reflexivity].
Qed.

Lemma after_brace_spaces (space text : jsstring) :
  forallb is_white_space space = true ->
  match_here after_brace text = None -> match_here after_brace (space ++ text) = None.
Proof.
  induction space as [|c space IH]; intros Hs H; [exact H|].
  cbn [forallb] in Hs. apply andb_true_iff in Hs as [Hc Hs].
  cbn [app]. apply after_brace_space; [exact Hc|]. now apply IH.
Qed.

Lemma after_brace_other (c : code_unit) (text : jsstring) :
  is_white_space c = false -> unit_eqb c quote_mark = false ->
  match_here after_brace (c :: text) = None.
Proof.
  intros Hc Hq. unfold after_brace. cbn [match_here span]. rewrite Hc. cbn [Nat.leb length].
  change (jq "'fprime{replacement'") with (quote_mark :: js "fprime{replacement" ++ [quote_mark]).
  cbn [strip_prefix]. unfold unit_eqb in *. rewrite N.eqb_sym, Hq. reflexivity.
Qed.

Lemma after_brace_end : match_here after_brace [] = None.
Proof. reflexivity. Qed.

Lemma after_brace_quote (text : jsstring) :
  hd_error text <> Some 102%N -> match_here after_brace (quote_mark :: text) = None.
Proof.
  intros H. unfold after_brace. cbn [match_here span].
  change (is_white_space quote_mark) with false. cbn [Nat.leb length].
  change (jq "'fprime{replacement'")
    with (quote_mark :: 102%N :: js "prime{replacement" ++ [quote_mark]).
  cbn [strip_prefix]. change (unit_eqb quote_mark quote_mark) with true. cbv iota.
  destruct text as [|d text]; [reflexivity|].
  unfold unit_eqb. destruct (N.eqb_spec 102 d) as [<-|]; [|reflexivity].
  now elim H.
Qed.

(** *** Texts in which no wrapper starts *)

Lemma unwrapped_app (x y rest : jsstring) :
  unwrapped x (y ++ rest) -> unwrapped y rest -> unwrapped (x ++ y) rest.
Proof.
  induction x as [|c x IH]; intros Hx Hy; [exact Hy|].
  cbn [unwrapped app] in *. destruct Hx as [Hm Hx]. split.
  - now rewrite <- app_assoc.
  - now apply IH.
Qed.

Lemma unwrapped_no_brace (x rest : jsstring) : ~ In 123%N x -> unwrapped x rest.
Proof.
  induction x as [|c x IH]; intros H; [exact I|].
  cbn [unwrapped]. split.
  - apply match_post_pattern_brace. intros ->. apply H. now left.
  - apply IH. intros Hin. apply H. now right.
Qed.

Lemma unwrapped_exec (x : jsstring) : unwrapped x [] -> exec post_pattern x = None.
Proof.
  induction x as [|c x IH]; intros H; [reflexivity|].
  cbn [unwrapped] in H. destruct H as [Hm H]. rewrite app_nil_r in Hm.
  cbn [exec]. rewrite Hm, (IH H). reflexivity.
Qed.

Lemma sealed_no_brace (x : jsstring) : ~ In 123%N x -> sealed x.
Proof. intros H rest _. now apply unwrapped_no_brace. Qed.

(** Two sealed texts in a row, the second one not beginning with f. *)
Lemma sealed_app (x y : jsstring) :
  sealed x -> sealed y -> hd_error y <> Some 102%N -> y <> [] -> sealed (x ++ y).
Proof.
  intros Hx Hy Hh Hne rest Hrest. apply unwrapped_app; [|now apply Hy].
  apply Hx. destruct y; [congruence | exact Hh].
Qed.

(** A text without brace before a sealed one. *)
Lemma sealed_after (x y : jsstring) : ~ In 123%N x -> sealed y -> sealed (x ++ y).
Proof.
  intros Hx Hy rest Hrest. apply unwrapped_app; [now apply unwrapped_no_brace | now apply Hy].
Qed.

(** *** String literals of the host *)

Lemma hex_unit_not_quote (d : Z) : 0 <= d -> unit_eqb (hex_unit d) quote_mark = false.
Proof.
  intros H. unfold hex_unit, unit_eqb, quote_mark. apply N.eqb_neq.
  destruct (d <? 10); lia.
Qed.

Lemma escaped_app (previous : code_unit) (x y : jsstring) :
  escaped previous x = true -> (forall q, escaped q y = true) ->
  escaped previous (x ++ y) = true.
Proof.
  revert previous. induction x as [|c x IH]; intros previous Hx Hy; [apply Hy|].
  cbn [escaped app] in *. apply andb_true_iff in Hx as [Hc Hx].
  rewrite Hc. now apply IH.
Qed.

Lemma escaped_unicode_escape (previous c : code_unit) :
  escaped previous (unicode_escape c) = true.
Proof.
  unfold unicode_escape. change (js "\u") with [backslash; 117%N]. cbn [app escaped].
  rewrite !hex_unit_not_quote; [reflexivity| | | |];
    apply Z.mod_pos_bound; lia.
Qed.

Lemma trailing_surrogate_not_quote (c : code_unit) :
  is_trailing_surrogate c = true -> unit_eqb c quote_mark = false.
Proof.
  unfold is_trailing_surrogate, unit_eqb, quote_mark. intros H.
  apply andb_true_iff in H as [H _]. apply N.leb_le in H. apply N.eqb_neq. lia.
Qed.

(** In the body of a string literal every double quote follows a
    backslash. *)
Lemma escaped_quote_units (n : nat) :
  forall s, (List.length s <= n)%nat -> forall previous,
    escaped previous (quote_units s) = true.
Proof.
  induction n as [|n IH]; intros s Hn previous.
  - destruct s; [reflexivity | cbn in Hn; lia].
  - destruct s as [|c r]; [reflexivity|]. cbn [List.length] in Hn.
    assert (Hr : forall q, escaped q (quote_units r) = true) by (intros q; apply IH; lia).
    cbn [quote_units].
    destruct (unit_eqb c 8%N); [now apply escaped_app|].
    destruct (unit_eqb c 9%N); [now apply escaped_app|].
    destruct (unit_eqb c 10%N); [now apply escaped_app|].
    destruct (unit_eqb c 12%N); [now apply escaped_app|].
    destruct (unit_eqb c 13%N); [now apply escaped_app|].
    destruct (unit_eqb c quote_mark) eqn:Hq.
    { change (backslash :: quote_mark :: quote_units r)
        with ([backslash; quote_mark] ++ quote_units r).
      now apply escaped_app. }
    destruct (unit_eqb c backslash).
    { change (backslash :: backslash :: quote_units r)
        with ([backslash; backslash] ++ quote_units r).
      now apply escaped_app. }
    destruct (c <? 32)%N; [apply escaped_app; [apply escaped_unicode_escape | exact Hr]|].
    destruct (is_leading_surrogate c).
    { destruct r as [|d r'].
      - apply escaped_unicode_escape.
      - destruct (is_trailing_surrogate d) eqn:Hd.
        + cbn [escaped]. rewrite Hq, (trailing_surrogate_not_quote d Hd). cbn [negb orb andb].
          apply IH. cbn [List.length] in Hn. lia.
        + apply escaped_app; [apply escaped_unicode_escape | exact Hr]. }
    destruct (is_trailing_surrogate c);
      [apply escaped_app; [apply escaped_unicode_escape | exact Hr]|].
    cbn [escaped]. rewrite Hq. cbn [negb orb andb]. apply Hr.
Qed.

(** After a brace or white space, a text of escaped quotes that ends in
    a double quote does not go on as a wrapper does. *)
Lemma after_brace_escaped (text : jsstring) :
  forall previous rest,
    unit_eqb previous backslash = false -> escaped previous text = true ->
    hd_error rest <> Some 102%N ->
    match_here after_brace (text ++ quote_mark :: rest) = None.
Proof.
  induction text as [|c text IH]; intros previous rest Hp He Hrest.
  - now apply after_brace_quote.
  - cbn [escaped] in He. apply andb_true_iff in He as [Hc He].
    rewrite Hp, orb_false_r in Hc. apply negb_true_iff in Hc.
    cbn [app]. destruct (is_white_space c) eqn:Hw.
    + apply after_brace_space; [exact Hw|]. apply (IH c); [|exact He | exact Hrest].
      unfold unit_eqb, backslash. apply N.eqb_neq. intros ->. discriminate.
    + now apply after_brace_other.
Qed.

Lemma unwrapped_escaped (text : jsstring) :
  forall previous rest,
    escaped previous text = true -> hd_error rest <> Some 102%N ->
    unwrapped (text ++ [quote_mark]) rest.
Proof.
  induction text as [|c text IH]; intros previous rest He Hrest.
  - apply unwrapped_no_brace. cbn. intuition discriminate.
  - cbn [escaped] in He. apply andb_true_iff in He as [_ He].
    cbn [app unwrapped]. split; [|now apply (IH c)].
    destruct (N.eq_dec c 123) as [->|Hc]; [|now apply match_post_pattern_brace].
    apply match_after_brace. rewrite <- app_assoc.
    now apply (after_brace_escaped text 123%N).
Qed.

Lemma sealed_literal (s : jsstring) : sealed (QuoteJSONString s).
Proof.
  intros rest Hrest. unfold QuoteJSONString. cbn [unwrapped]. split.
  - now apply match_post_pattern_brace.
  - apply (unwrapped_escaped (quote_units s) quote_mark); [|exact Hrest].
    now apply (escaped_quote_units (List.length s)).
Qed.

(** *** Keys of objects *)

Lemma quote_units_head (c : code_unit) (r : jsstring) :
  exists h t, quote_units (c :: r) = h :: t /\ unit_eqb h quote_mark = false.
Proof.
  pose proof (escaped_quote_units (S (List.length r)) (c :: r) (Nat.le_refl _) 0%N) as He.
  destruct (quote_units (c :: r)) as [|h t] eqn:Hq.
  - exfalso. revert Hq. cbn [quote_units].
    repeat match goal with
           | |- (if ?b then _ else _) = [] -> False => destruct b
           | |- match ?l with [] => _ | _ :: _ => _ end = [] -> False => destruct l
           end; discriminate.
  - exists h, t. split; [reflexivity|]. cbn [escaped] in He.
    apply andb_true_iff in He as [He _]. change (unit_eqb 0%N backslash) with false in He.
    rewrite orb_false_r in He. now apply negb_true_iff in He.
Qed.

(** The literal of a key begins as the literal of a text of ordinary code
    units only if the key is that text. *)
Lemma literal_prefix (w : jsstring) :
  forallb ordinary w = true ->
  forall k tail,
    strip_prefix (w ++ [quote_mark]) (quote_units k ++ quote_mark :: tail) <> None ->
    k = w.
Proof.
  induction w as [|a w IH]; intros Hw k tail H.
  - destruct k as [|c r]; [reflexivity|]. exfalso. apply H.
    destruct (quote_units_head c r) as (h & t & -> & Hh).
    cbn [app strip_prefix]. unfold unit_eqb in *. now rewrite N.eqb_sym, Hh.
  - cbn [forallb] in Hw. apply andb_true_iff in Hw as [Ha Hw].
    unfold ordinary in Ha. apply andb_true_iff in Ha as [Ha Hab].
    apply andb_true_iff in Ha as [Ha Haq]. apply andb_true_iff in Ha as [Ha1 Ha2].
    apply negb_true_iff in Hab, Haq. apply N.leb_le in Ha1. apply N.ltb_lt in Ha2.
    destruct k as [|c r].
    + exfalso. apply H. cbn [quote_units app strip_prefix]. now rewrite Haq.
    + assert (Hback : forall x y, strip_prefix ((a :: w) ++ [quote_mark]) ((backslash :: x) ++ y)
                                  = None).
      { intros x y. cbn [app strip_prefix]. now rewrite Hab. }
      assert (Hunicode : forall u y, strip_prefix ((a :: w) ++ [quote_mark])
                                       (unicode_escape u ++ y) = None).
      { intros u y. unfold unicode_escape. change (js "\u") with [backslash; 117%N].
        cbn [app strip_prefix]. now rewrite Hab. }
      revert H. cbn [quote_units].
      destruct (unit_eqb c 8%N); [intros H; elim H; apply Hback|].
      destruct (unit_eqb c 9%N); [intros H; elim H; apply Hback|].
      destruct (unit_eqb c 10%N); [intros H; elim H; apply Hback|].
      destruct (unit_eqb c 12%N); [intros H; elim H; apply Hback|].
      destruct (unit_eqb c 13%N); [intros H; elim H; apply Hback|].
      destruct (unit_eqb c quote_mark); [intros H; elim H; apply (Hback (_ :: _))|].
      destruct (unit_eqb c backslash); [intros H; elim H; apply (Hback (_ :: _))|].
      destruct (c <? 32)%N; [intros H; elim H; rewrite <- app_assoc; apply Hunicode|].
      destruct (is_leading_surrogate c) eqn:Hlead.
      { intros H. exfalso. apply H.
        unfold is_leading_surrogate in Hlead. apply andb_true_iff in Hlead as [Hlead _].
        apply N.leb_le in Hlead.
        destruct r as [|d r'].
        - apply (Hunicode c (quote_mark :: tail)).
        - destruct (is_trailing_surrogate d).
          + cbn [app strip_prefix]. unfold unit_eqb.
            destruct (N.eqb_spec a c); [lia | reflexivity].
          + rewrite <- app_assoc. apply Hunicode. }
      destruct (is_trailing_surrogate c);
        [intros H; elim H; rewrite <- app_assoc; apply Hunicode|].
      cbn [app strip_prefix]. unfold unit_eqb at 1.
      destruct (N.eqb_spec a c) as [->|]; [|intros H; now elim H].
      intros H. f_equal. now apply (IH Hw r tail).
Qed.

(** No wrapper starts at the brace of an object before a key other than
    the placeholder key. *)
Lemma brace_before_key (k space tail : jsstring) :
  jsstring_eqb k replacement_key = false ->
  forallb is_white_space space = true ->
  match_here post_pattern (123%N :: space ++ QuoteJSONString k ++ tail) = None.
Proof.
  intros Hk Hs. apply match_after_brace. apply after_brace_spaces; [exact Hs|].
  unfold QuoteJSONString, after_brace. cbn [app match_here span].
  change (is_white_space quote_mark) with false. cbn [Nat.leb length].
  change (jq "'fprime{replacement'") with (quote_mark :: replacement_key ++ [quote_mark]).
  cbn [strip_prefix]. change (unit_eqb quote_mark quote_mark) with true. cbv iota.
  rewrite <- app_assoc. cbn [app].
  destruct (strip_prefix (replacement_key ++ [quote_mark])
              (quote_units k ++ quote_mark :: tail)) eqn:Hp; [|reflexivity].
  exfalso. assert (Heq : k = replacement_key).
  { apply (literal_prefix replacement_key) with (tail := tail); [reflexivity|].
    rewrite Hp. discriminate. }
  apply jsstring_eqb_eq in Heq. congruence.
Qed.

(** *** Numbers of the host *)

Lemma decimal_all_digits (z : Z) : forallb is_digit (decimal z) = true.
Proof.
  destruct (Z.le_gt_cases 0 z) as [H|H]; [now apply decimal_digits|].
  unfold decimal. rewrite Z.log2_nonpos by lia. cbn [Z.to_nat decimal_loop].
  assert (Hd : is_digit (digit_unit (z mod 10)) = true)
    by (apply digit_unit_digit, Z.mod_pos_bound; lia).
  destruct (z <? 10); cbn [forallb]; now rewrite Hd.
Qed.

Lemma digits_no_brace (s : jsstring) : forallb is_digit s = true -> ~ In 123%N s.
Proof.
  intros H Hin. rewrite forallb_forall in H. specialize (H _ Hin). discriminate.
Qed.

Lemma no_brace_app (x y : jsstring) : ~ In 123%N x -> ~ In 123%N y -> ~ In 123%N (x ++ y).
Proof. intros Hx Hy Hin. apply in_app_or in Hin. tauto. Qed.

Lemma no_brace_firstn (n : nat) (x : jsstring) : ~ In 123%N x -> ~ In 123%N (firstn n x).
Proof.
  intros H Hin. apply H. rewrite <- (firstn_skipn n x). apply in_or_app. now left.
Qed.

Lemma no_brace_skipn (n : nat) (x : jsstring) : ~ In 123%N x -> ~ In 123%N (skipn n x).
Proof.
  intros H Hin. apply H. rewrite <- (firstn_skipn n x). apply in_or_app. now right.
Qed.

Lemma no_brace_zeros (n : Z) : ~ In 123%N (zeros n).
Proof. unfold zeros. intros Hin. apply repeat_spec in Hin. discriminate. Qed.

Lemma no_brace_text (text : string) :
  forallb (fun c => negb (unit_eqb c 123%N)) (js text) = true -> ~ In 123%N (js text).
Proof.
  intros H Hin. rewrite forallb_forall in H. specialize (H _ Hin). discriminate.
Qed.

Lemma format_number_no_brace (n k s : Z) : ~ In 123%N (format_number n k s).
Proof.
  pose proof (digits_no_brace _ (decimal_all_digits s)) as Hd.
  pose proof (digits_no_brace _ (decimal_all_digits (Z.abs (n - 1)))) as He.
  unfold format_number.
  repeat match goal with
         | |- ~ In _ (if ?b then _ else _) => destruct b
         | |- ~ In _ (_ ++ _) => apply no_brace_app
         | |- ~ In _ (firstn _ _) => apply no_brace_firstn
         | |- ~ In _ (skipn _ _) => apply no_brace_skipn
         | |- ~ In _ (zeros _) => apply no_brace_zeros
         | |- ~ In _ (js _) => apply no_brace_text; reflexivity
         | |- ~ In _ (decimal _) => assumption
         end.
Qed.

Lemma number_toString_no_brace (x : number) : ~ In 123%N (number_toString x).
Proof.
  destruct x as [s|s| |s m e]; cbn [number_toString];
    try destruct s; try (apply no_brace_text; reflexivity).
  - destruct (shortest m e) as [[n k] d]. apply no_brace_app;
      [apply no_brace_text; reflexivity | apply format_number_no_brace].
  - destruct (shortest m e) as [[n k] d]. cbn [app]. apply format_number_no_brace.
Qed.

(** *** Arrays and objects of the host *)

Lemma sealed_join (sep closing : jsstring) (parts : list jsstring) :
  Forall sealed parts -> ~ In 123%N sep -> ~ In 123%N closing ->
  hd_error sep <> Some 102%N -> sep <> [] ->
  hd_error closing <> Some 102%N -> closing <> [] ->
  forall rest, unwrapped (join sep parts ++ closing) rest.
Proof.
  intros Hparts Hsep Hclosing Hs1 Hs2 Hc1 Hc2 rest.
  induction Hparts as [|p parts Hp Hparts IH]; [now apply unwrapped_no_brace|].
  destruct parts as [|q parts].
  - cbn [join]. apply unwrapped_app; [|now apply unwrapped_no_brace].
    apply Hp. destruct closing; [congruence | exact Hc1].
  - change (join sep (p :: q :: parts)) with (p ++ sep ++ join sep (q :: parts)).
    rewrite <- !app_assoc. apply unwrapped_app.
    + apply Hp. destruct sep; [congruence | exact Hs1].
    + apply unwrapped_app; [now apply unwrapped_no_brace | exact IH].
Qed.

Lemma white_space_no_brace (space : jsstring) :
  forallb is_white_space space = true -> ~ In 123%N space.
Proof.
  intros H Hin. rewrite forallb_forall in H. specialize (H _ Hin). discriminate.
Qed.

Lemma sealed_array (parts : list jsstring) (gap stepback indent : jsstring) :
  Forall sealed parts ->
  forallb is_white_space stepback = true -> forallb is_white_space indent = true ->
  sealed (enclose (js "[") (js "]") parts gap stepback indent).
Proof.
  intros Hparts Hstep Hindent rest _. unfold enclose.
  apply white_space_no_brace in Hstep, Hindent.
  destruct parts as [|p parts]; [apply unwrapped_no_brace; cbn; intuition discriminate|].
  destruct gap as [|g gap].
  - apply unwrapped_app; [apply unwrapped_no_brace; cbn; intuition discriminate|].
    apply sealed_join; try assumption; try discriminate; cbn; intuition discriminate.
  - apply unwrapped_app; [apply unwrapped_no_brace; cbn; intuition discriminate|].
    apply unwrapped_app; [apply unwrapped_no_brace; cbn; intuition discriminate|].
    apply unwrapped_app; [now apply unwrapped_no_brace|].
    apply sealed_join; try assumption; try discriminate.
    + apply no_brace_app; [cbn; intuition discriminate|].
      apply no_brace_app; [cbn; intuition discriminate | assumption].
    + apply no_brace_app; [cbn; intuition discriminate|].
      apply no_brace_app; [assumption | cbn; intuition discriminate].
Qed.

Lemma join_head (sep p : jsstring) (parts : list jsstring) :
  exists tail, join sep (p :: parts) = p ++ tail.
Proof.
  destruct parts as [|q parts]; [exists []; cbn [join]; now rewrite app_nil_r|].
  now exists (sep ++ join sep (q :: parts)).
Qed.

Lemma sealed_properties (parts : list jsstring) :
  Forall sealed_property parts -> Forall sealed parts.
Proof. apply Forall_impl. now intros p [H _]. Qed.

Lemma sealed_object (parts : list jsstring) (gap stepback indent : jsstring) :
  Forall sealed_property parts ->
  forallb is_white_space stepback = true -> forallb is_white_space indent = true ->
  sealed (enclose (js "{") (js "}") parts gap stepback indent).
Proof.
  intros Hparts Hstep Hindent rest _. unfold enclose.
  pose proof (white_space_no_brace _ Hstep) as Hstep'.
  pose proof (white_space_no_brace _ Hindent) as Hindent'.
  destruct parts as [|p parts].
  { change (js "{" ++ js "}") with [123%N; 125%N]. cbn [unwrapped app].
    split; [|split; [|exact I]].
    - apply match_after_brace. now apply after_brace_other.
    - now apply match_post_pattern_brace. }
  pose proof (sealed_properties _ Hparts) as Hsealed.
  apply Forall_inv in Hparts. destruct Hparts as [_ Hbrace].
  destruct gap as [|g gap].
  - change (js "{") with [123%N]. cbn [app unwrapped]. split.
    + destruct (join_head (js ",") p parts) as [tail ->]. rewrite <- !app_assoc.
      apply (Hbrace [] (tail ++ js "}" ++ rest)). reflexivity.
    + apply sealed_join; try assumption; try discriminate; cbn; intuition discriminate.
  - change (js "{") with [123%N]. cbn [app unwrapped]. split.
    + match goal with
      | |- context [join ?sep (p :: parts)] =>
          destruct (join_head sep p parts) as [tail ->]
      end.
      rewrite <- !app_assoc.
      apply (Hbrace (line_feed :: indent)
               (tail ++ (line_feed :: stepback ++ js "}") ++ rest)).
      cbn [forallb]. now rewrite Hindent.
    + split; [now apply match_post_pattern_brace|].
      apply unwrapped_app; [now apply unwrapped_no_brace|].
      apply (sealed_join (js "," ++ [line_feed] ++ indent) (line_feed :: stepback ++ js "}"));
        try assumption; try discriminate.
      * apply no_brace_app; [cbn; intuition discriminate|].
        apply no_brace_app; [cbn; intuition discriminate | assumption].
      * cbn [In]. intros [H|H]; [discriminate|]. revert H.
        apply no_brace_app; [assumption | cbn; intuition discriminate].
Qed.

(** The text of a property whose key is not the placeholder key. *)
Lemma sealed_property_text (k space text : jsstring) :
  jsstring_eqb k replacement_key = false -> ~ In 123%N space -> sealed text ->
  sealed_property (QuoteJSONString k ++ js ":" ++ space ++ text).
Proof.
  intros Hk Hspace Htext. split.
  - intros rest Hrest. apply unwrapped_app.
    + apply sealed_literal. discriminate.
    + apply unwrapped_app; [apply unwrapped_no_brace; cbn; intuition discriminate|].
      apply unwrapped_app; [now apply unwrapped_no_brace | now apply Htext].
  - intros ws rest Hws. rewrite <- app_assoc. now apply brace_before_key.
Qed.

(** The text of the host for kept data, with white space for
    indentation, is sealed. *)
Lemma serialize_sealed (depth : nat) :
  forall gap indent key value text,
    forallb is_white_space gap = true -> forallb is_white_space indent = true ->
    kept value = true ->
    serialize depth (fun _ value => Ok value) gap indent key value = Ok (Some text) ->
    sealed text.
Proof.
  induction depth as [|depth IH]; intros gap indent key value text Hgap Hindent Hk H;
    [discriminate|].
  assert (Hinner : forallb is_white_space (indent ++ gap) = true)
    by (rewrite forallb_app, Hindent, Hgap; reflexivity).
  destruct value as [| |b|x|z|s|elements|properties]; cbn [serialize bind] in H;
    try discriminate.
  - destruct b; injection H as <-; apply sealed_no_brace; cbn; intuition discriminate.
  - injection H as <-. apply sealed_no_brace.
    destruct x; try apply number_toString_no_brace; cbn; intuition discriminate.
  - injection H as <-. apply sealed_literal.
  - cbn [kept] in Hk. apply andb_true_iff in Hk as [_ Hk].
    match type of H with
    | bind (?F 0 elements) _ = _ =>
        assert (Heach : forall l i parts,
                   forallb kept l = true -> F i l = Ok parts -> Forall sealed parts)
    end.
    { induction l as [|e l IHl]; intros i parts Hl Hparts.
      - injection Hparts as <-. constructor.
      - cbn [forallb] in Hl. apply andb_true_iff in Hl as [He Hl].
        destruct (serialize depth (fun _ value => Ok value) gap (indent ++ gap)
                    (decimal i) e) as [p|err] eqn:Hp; [|discriminate].
        cbn [bind] in Hparts.
        match type of Hparts with
        | bind ?r _ = _ => destruct r as [others|err] eqn:Hothers; [|discriminate]
        end.
        cbn [bind] in Hparts. injection Hparts as <-. constructor.
        + destruct p as [t|].
          * now apply (IH gap (indent ++ gap) (decimal i) e).
          * apply sealed_no_brace. cbn. intuition discriminate.
        + now apply (IHl (i + 1)). }
    match type of H with
    | bind ?r _ = _ => destruct r as [parts|err] eqn:Hparts; [|discriminate]
    end.
    cbn [bind] in H. injection H as <-.
    apply sealed_array; [now apply (Heach elements 0) | assumption | assumption].
  - cbn [kept] in Hk. apply andb_true_iff in Hk as [_ Hk].
    apply andb_true_iff in Hk as [Hkey Hk]. apply negb_true_iff in Hkey.
    match type of H with
    | bind (?F properties) _ = _ =>
        assert (Heach : forall l parts,
                   has_property replacement_key l = false ->
                   forallb (fun property => kept (snd property)) l = true ->
                   F l = Ok parts -> Forall sealed_property parts)
    end.
    { induction l as [|[k e] l IHl]; intros parts Hkeys Hl Hparts.
      - injection Hparts as <-. constructor.
      - cbn [forallb snd] in Hl. apply andb_true_iff in Hl as [He Hl].
        cbn [has_property] in Hkeys. apply orb_false_iff in Hkeys as [Hkey' Hkeys].
        destruct (serialize depth (fun _ value => Ok value) gap (indent ++ gap) k e)
          as [p|err] eqn:Hp; [|discriminate].
        cbn [bind] in Hparts.
        match type of Hparts with
        | bind ?r _ = _ => destruct r as [others|err] eqn:Hothers; [|discriminate]
        end.
        cbn [bind] in Hparts. injection Hparts as <-.
        specialize (IHl others Hkeys Hl eq_refl).
        destruct p as [t|]; [|exact IHl]. constructor; [|exact IHl].
        apply sealed_property_text; [exact Hkey' | |].
        + destruct gap; cbn; intuition discriminate.
        + now apply (IH gap (indent ++ gap) k e). }
    match type of H with
    | bind ?r _ = _ => destruct r as [parts|err] eqn:Hparts; [|discriminate]
    end.
    cbn [bind] in H. injection H as <-.
    apply sealed_object; [now apply (Heach properties) | assumption | assumption].
Qed.

Lemma serialize_kept_text (depth : nat) (gap indent key : jsstring) (value : jsvalue) :
  kept value = true ->
  serialize depth (fun _ value => Ok value) gap indent key value <> Ok None.
Proof.
  intros Hk H. destruct depth as [|depth]; [discriminate|].
  destruct value as [| |b|x|z|s|elements|properties]; cbn [serialize bind] in H;
    try discriminate.
  - destruct b; discriminate.
  - match type of H with bind ?r _ = _ => destruct r end; discriminate.
  - match type of H with bind ?r _ = _ => destruct r end; discriminate.
Qed.

(** An object with a property of its own named [toString] is outside the
    kept data: the first comparison of the callback converts it, the
    conversion calls the property, which data cannot make callable, and the
    encoder throws a TypeError where the host alone writes the text. *)
Lemma stringify_own_toString (E : engine) :
  (2 <= stack_depth E)%nat ->
  kept (VObject [(js "toString", VNumber (number_of_Z 1))]) = false
  /\ stringify E (VObject [(js "toString", VNumber (number_of_Z 1))]) absent VUndefined
     = Throw cannot_convert
  /\ language_stringify E (VObject [(js "toString", VNumber (number_of_Z 1))])
       (fun _ value => Ok value) VUndefined
     = Ok (VString (jq "{'toString':1}")).
Proof.
  intros H. destruct (stack_depth E) as [|[|depth]] eqn:Hd; try lia.
  unfold stringify, language_stringify, JSON_stringify. rewrite Hd.
  split; [reflexivity|]. split; vm_compute; reflexivity.
Qed.

(** X17. On data that holds, at any depth, no [null], no [undefined],
    no arbitrary-precision integer, no value that [==] finds equal to an
    infinity, no object with the placeholder key and no object with a
    property named [toString] (the conversion of [==] would call it), the
    encoder answers what [JSON.stringify] of the host answers without a
    replacer, the text or the exception, for every indentation made of
    white space: the callback leaves every value as it is and
    [postReplacer] finds no wrapper in the text, whatever the strings and
    the other keys of the data spell. *)
Theorem stringify_kept_data (E : engine) (data space : jsvalue) :
  kept data = true -> forallb is_white_space (gap_of space) = true ->
  stringify E data absent space
  = language_stringify E data (fun _ value => Ok value) space.
Proof.
  intros Hk Hgap. unfold stringify, language_stringify, JSON_stringify.
  rewrite (serialize_kept (stack_depth E) (gap_of space) [] [] data Hk).
  destruct (serialize (stack_depth E) (fun _ value => Ok value) (gap_of space) [] [] data)
    as [[text|]|e] eqn:Hs; cbn [bind postReplacer];
    [|now elim (serialize_kept_text _ _ _ _ _ Hk Hs) | reflexivity].
  assert (Hunwrapped : unwrapped text []).
  { apply (serialize_sealed (stack_depth E) (gap_of space) [] [] data text Hgap eq_refl
             Hk Hs).
    discriminate. }
  unfold replace_global. cbn [replace_global_loop].
  now rewrite (unwrapped_exec text Hunwrapped).
Qed.

Lemma stringify_kept_data_witness :
  kept (VObject [(js "note", VString (jq "{'fprime{replacement': 'NaN'}"));
                 (js "f", VArray [VBool false; VNumber NaN; VObject []])]) = true
  /\ forallb is_white_space (gap_of (VNumber (number_of_Z 2))) = true
  /\ stringify v8
       (VObject [(js "note", VString (jq "{'fprime{replacement': 'NaN'}"));
                 (js "f", VArray [VBool false; VNumber NaN; VObject []])])
       absent (VNumber (number_of_Z 2))
     = language_stringify v8
         (VObject [(js "note", VString (jq "{'fprime{replacement': 'NaN'}"));
                   (js "f", VArray [VBool false; VNumber NaN; VObject []])])
         (fun _ value => Ok value) (VNumber (number_of_Z 2)).
Proof.
  assert (H1 : kept (VObject [(js "note", VString (jq "{'fprime{replacement': 'NaN'}"));
                              (js "f", VArray [VBool false; VNumber NaN; VObject []])])
               = true) by (vm_compute; reflexivity).
  assert (H2 : forallb is_white_space (gap_of (VNumber (number_of_Z 2))) = true)
    by (vm_compute; reflexivity).
  split; [exact H1|]. split; [exact H2|].
  apply (stringify_kept_data v8 _ _ H1 H2).
Defined.

(** *** Strings through the encoder and the decoder *)

Lemma ordinary_plain (s : jsstring) : forallb ordinary s = true -> forallb plain s = true.
Proof.
  intros H. apply forallb_forall. intros c Hc. rewrite forallb_forall in H.
  specialize (H c Hc). unfold ordinary in H. unfold plain.
  apply andb_true_iff in H as [H Hb]. apply andb_true_iff in H as [H Hq].
  apply andb_true_iff in H as [H _]. rewrite Hq, Hb. cbn [andb].
  apply negb_true_iff. apply N.ltb_ge. now apply N.leb_le.
Qed.

(** X18. A string of ordinary code units (no control character, double
    quote, backslash or surrogate) that [==] does not find equal to an
    infinity makes the round trip: the encoder writes its literal and the
    decoder reads the string back, whatever tokens of the table it
    spells. *)
Theorem roundtrip_string (E : engine) (s : jsstring) :
  (1 <= stack_depth E)%nat ->
  forallb ordinary s = true ->
  replaced (VString s) = false ->
  stringify E (VString s) absent VUndefined = Ok (VString (quote_mark :: s ++ [quote_mark]))
  /\ decode_encode E (VString s) = Ok (VString s).
Proof.
  intros Hdepth Hs Hr.
  assert (Hencode : stringify E (VString s) absent VUndefined
                    = Ok (VString (quote_mark :: s ++ [quote_mark]))).
  { unfold stringify, language_stringify, JSON_stringify.
    destruct (stack_depth E) as [|depth]; [lia|].
    cbn [serialize]. unfold full_replacer at 1. cbn [absent isArray isFunction andb bind].
    rewrite (replaceFromObject_kept [] (VString s) eq_refl Hr). cbn [bind postReplacer].
    unfold replace_global. cbn [replace_global_loop].
    rewrite (unwrapped_exec (QuoteJSONString s)) by (apply sealed_literal; discriminate).
    unfold QuoteJSONString. now rewrite quote_units_ordinary. }
  split; [exact Hencode|].
  unfold decode_encode. rewrite Hencode. cbn [bind].
  apply parse_plain_literal. now apply ordinary_plain.
Qed.

Lemma roundtrip_string_witness :
  (1 <= stack_depth spidermonkey)%nat
  /\ forallb ordinary (js "NaN, null {12345678901}") = true
  /\ replaced (VString (js "NaN, null {12345678901}")) = false
  /\ stringify spidermonkey (VString (js "NaN, null {12345678901}")) absent VUndefined
     = Ok (VString (quote_mark :: js "NaN, null {12345678901}" ++ [quote_mark]))
  /\ decode_encode spidermonkey (VString (js "NaN, null {12345678901}"))
     = Ok (VString (js "NaN, null {12345678901}")).
Proof.
  assert (H1 : (1 <= stack_depth spidermonkey)%nat) by (vm_compute; lia).
  assert (H2 : forallb ordinary (js "NaN, null {12345678901}") = true)
    by (vm_compute; reflexivity).
  assert (H3 : replaced (VString (js "NaN, null {12345678901}")) = false)
    by (vm_compute; reflexivity).
  split; [exact H1|]. split; [exact H2|]. split; [exact H3|].
  apply (roundtrip_string spidermonkey (js "NaN, null {12345678901}") H1 H2 H3).
Defined.

(** ** Values that hold [undefined] *)

(** *** The global replacement, one code unit at a time *)






(** *** Texts that [postReplacer] cleans *)











(** *** The encoder on data that holds [undefined] and [null] *)






(** *** [undefined] and [null] are one to the encoder *)









(** *** The host alone *)




(** ** A digit run in a field of an object *)






